(** * siyuan-mcp-server: cache manager, cache-using handlers, session
    registry, SSE transport, security manager and API adapter

    A shallow embedding of
    - [src/mcp/utils/cacheManager.ts]            (module [Cache]),
    - the write tools of [src/mcp/tools/siyuanTools.ts]      (module [Tools]),
    - the caching resource handlers (class [SiYuanResourcesManager])
                                                  (module [Resources]),
    - [StreamableHTTPTransportManager]            (module [Http]),
    - the SSE transport ([SSETransport])          (module [Sse]),
    - the security manager ([SecurityManager]) and the settings it reads
                                                  (modules [Types], [Security]),
    - the tables of the tool schema system and [ToolSchemaGenerator]
                  (modules [Categories], [Mappings], [Generator], [Tables]),
    - [SiYuanAPIAdapter] and the managers [EnhancedMCPServer] builds on it
                                                  (modules [Adapter], [Server]),
    followed by the properties established about them.  Left out are: of the
    cache manager, [getStatistics] (its rates are floating-point numbers) and
    the arming of the timers; of the tools, those that do not touch the cache;
    of the HTTP manager, the Express plumbing; the settings manager and the
    plugin integration classes, which are glue around the SiYuan plugin API.

    Conventions.  JavaScript numbers that the code only uses as integers
    (timestamps in milliseconds, sizes, counters) are [Z].  [Date.now()] is an
    input: every call of the clock made by an operation is a parameter of that
    operation.  A JavaScript [Map] keeps its keys in insertion order, and the
    eviction code sorts [Array.from(map.entries())], so the cache's map is an
    association list in insertion order; the registries that are only looked
    up by key are [gmap]s. *)

From Stdlib Require Import DecimalString.
From stdpp Require Import base numbers list strings gmap sorting.

Local Open Scope Z_scope.

(** ** JavaScript [Map<string, A>] with its insertion order *)

Module JsMap.
Section Defs.
Context {A : Type}.

(** [map.get(k)]: [None] is [undefined]. *)
Fixpoint get (m : list (string * A)) (k : string) : option A :=
  match m with
  | [] => None
  | (k', a) :: m' => if decide (k' = k) then Some a else get m' k
  end.

(** [map.has(k)]. *)
Definition has (m : list (string * A)) (k : string) : bool :=
  bool_decide (is_Some (get m k)).

(** [map.set(k, a)]: an existing key keeps its position, a new key goes
    last. *)
Fixpoint set (m : list (string * A)) (k : string) (a : A) : list (string * A) :=
  match m with
  | [] => [(k, a)]
  | (k', a') :: m' =>
      if decide (k' = k) then (k, a) :: m' else (k', a') :: set m' k a
  end.

(** [map.delete(k)], the map part. *)
Definition delete (m : list (string * A)) (k : string) : list (string * A) :=
  filter (λ p, p.1 ≠ k) m.

(** [Array.from(map.keys())]. *)
Definition keys (m : list (string * A)) : list string := m.*1.

(** The representation invariant of a [Map]: no key twice. *)
Definition wf (m : list (string * A)) : Prop := NoDup (keys m).
End Defs.
End JsMap.

(** ** [Array.prototype.sort] with a comparator

  The sort is stable (ECMAScript 2019).  Both comparators of the cache
  manager are the difference of a numeric rank of their arguments, for which
  the stable sort has exactly one result; inserting from the right, each
  element before the first one that does not compare below it, computes
  it. *)

Module JsArray.
Section Defs.
Context {A : Type} (cmp : A → A → Z).

Fixpoint insert (x : A) (l : list A) : list A :=
  match l with
  | [] => [x]
  | y :: l' => if decide (cmp x y ≤ 0) then x :: l else y :: insert x l'
  end.

Definition sort (l : list A) : list A := foldr insert [] l.
End Defs.
End JsArray.

(** ** [cacheManager.ts] *)

Module Cache.

Record CacheEntry (V : Type) : Type := mkEntry {
  key : string;
  value : V;
  timestamp : Z;
  ttl : Z;
  accessCount : Z;
  lastAccessed : Z;
  size : Z
}.
Arguments mkEntry {V}.
Arguments key {V}.
Arguments value {V}.
Arguments timestamp {V}.
Arguments ttl {V}.
Arguments accessCount {V}.
Arguments lastAccessed {V}.
Arguments size {V}.

Record CacheConfig : Type := mkConfig {
  maxSize : Z;          (* maximum number of entries *)
  defaultTtl : Z;       (* default TTL in milliseconds *)
  maxMemoryMB : Z;      (* maximum memory usage in MB *)
  cleanupInterval : Z   (* cleanup interval in milliseconds *)
}.

Definition DEFAULT_CACHE_CONFIG : CacheConfig :=
  {| maxSize := 1000; defaultTtl := 300000; maxMemoryMB := 50;
     cleanupInterval := 60000 |}.

Record Stats : Type := mkStats {
  hits : Z; misses : Z; evictions : Z; cleanups : Z
}.

Record CacheManager (V : Type) : Type := mkCache {
  cache : list (string * CacheEntry V);
  config : CacheConfig;
  stats : Stats
}.
Arguments mkCache {V}.
Arguments cache {V}.
Arguments config {V}.
Arguments stats {V}.

(** How a call ends: it returns, or a [TypeError] escapes from it. *)
Inductive Completion (A : Type) : Type :=
| Normal (a : A)
| TypeError.
Arguments Normal {A}.
Arguments TypeError {A}.

Section WithValue.
Context {V : Type}.
(** [JSON.stringify(value).length]; [None] when [JSON.stringify] throws or
    returns [undefined] (whose [.length] throws). *)
Context (jsonStringifyLength : V → option N).

Abbreviation Entry := (CacheEntry V).
Abbreviation State := (CacheManager V).

(** The object built by the constructor (the cleanup timer apart). *)
Definition new (cfg : CacheConfig) : State :=
  {| cache := []; config := cfg;
     stats := {| hits := 0; misses := 0; evictions := 0; cleanups := 0 |} |}.

Definition with_cache (m : list (string * Entry)) (s : State) : State :=
  {| cache := m; config := config s; stats := stats s |}.

Definition count_hit (s : State) : State :=
  {| cache := cache s; config := config s;
     stats := {| hits := hits (stats s) + 1; misses := misses (stats s);
                 evictions := evictions (stats s);
                 cleanups := cleanups (stats s) |} |}.

Definition count_miss (s : State) : State :=
  {| cache := cache s; config := config s;
     stats := {| hits := hits (stats s); misses := misses (stats s) + 1;
                 evictions := evictions (stats s);
                 cleanups := cleanups (stats s) |} |}.

Definition count_eviction (s : State) : State :=
  {| cache := cache s; config := config s;
     stats := {| hits := hits (stats s); misses := misses (stats s);
                 evictions := evictions (stats s) + 1;
                 cleanups := cleanups (stats s) |} |}.

(** [isExpired(entry)], [now] being the value of [Date.now()]. *)
Definition isExpired (now : Z) (entry : Entry) : bool :=
  bool_decide (now - timestamp entry > ttl entry).

(** [estimateSize(value)]. *)
Definition estimateSize (v : V) : Z :=
  match jsonStringifyLength v with
  | Some n => Z.of_N n * 2
  | None => 1000
  end.

(** The update of the entry object made by a successful [get]. *)
Definition touch (now : Z) (entry : Entry) : Entry :=
  {| key := key entry; value := value entry; timestamp := timestamp entry;
     ttl := ttl entry; accessCount := accessCount entry + 1;
     lastAccessed := now; size := size entry |}.

(** [get(key)].  [now] is the clock read by [isExpired], [now'] the one
    stored in [lastAccessed]. *)
Definition get (now now' : Z) (k : string) (s : State) : option V * State :=
  match JsMap.get (cache s) k with
  | None => (None, count_miss s)
  | Some entry =>
      if isExpired now entry
      then (None, count_miss (with_cache (JsMap.delete (cache s) k) s))
      else (Some (value entry),
            count_hit (with_cache (JsMap.set (cache s) k (touch now' entry)) s))
  end.

(** [has(key)]. *)
Definition has (now : Z) (k : string) (s : State) : bool * State :=
  match JsMap.get (cache s) k with
  | None => (false, s)
  | Some entry => (negb (isExpired now entry), s)
  end.

(** [delete(key)]. *)
Definition delete (k : string) (s : State) : bool * State :=
  (JsMap.has (cache s) k, with_cache (JsMap.delete (cache s) k) s).

(** [clear()]. *)
Definition clear (s : State) : State := new (config s).

(** [getCurrentMemoryUsage()]. *)
Definition getCurrentMemoryUsage (s : State) : Z :=
  foldl (λ sum p, sum + size p.2) 0 (cache s).

(** One turn of either eviction loop: [this.cache.delete(key)] and
    [this.stats.evictions++]. *)
Definition evict (k : string) (s : State) : State :=
  count_eviction (with_cache (JsMap.delete (cache s) k) s).

(** [for (let i = 0; i < toRemove; i++) { const [key] = entries[i]; ... }],
    the counter [n] being [toRemove - i].  Destructuring [entries[i]] past
    the end of the array is a [TypeError]. *)
Fixpoint evictLoop (entries : list (string * Entry)) (i n : nat) (s : State)
  : Completion () * State :=
  match n with
  | O => (Normal (), s)
  | S n' =>
      match entries !! i with
      | None => (TypeError, s)
      | Some (k, _) => evictLoop entries (S i) n' (evict k s)
      end
  end.

(** [evictLeastRecentlyUsed()].  [Math.floor(n * 0.1)] is [n / 10] for
    every array length [n] (lengths are below [2^32]: the double [n * 0.1]
    is never below the integer [n / 10] when 10 divides [n] and is far from
    an integer otherwise). *)
Definition evictLeastRecentlyUsed (s : State) : Completion () * State :=
  let entries :=
    JsArray.sort (λ a b, lastAccessed a.2 - lastAccessed b.2) (cache s) in
  let toRemove := Z.max 1 (Z.of_nat (length entries) / 10) in
  evictLoop entries 0 (Z.to_nat toRemove) s.

(** [for (const [key, entry] of entries) { if (freedSpace >= requiredSpace)
    break; ... }] *)
Fixpoint pressureLoop (entries : list (string * Entry))
    (requiredSpace freedSpace : Z) (s : State) : State :=
  match entries with
  | [] => s
  | (k, entry) :: rest =>
      if decide (freedSpace >= requiredSpace) then s
      else pressureLoop rest requiredSpace (freedSpace + size entry) (evict k s)
  end.

(** [evictByMemoryPressure(requiredSpace)] (the log line apart). *)
Definition evictByMemoryPressure (requiredSpace : Z) (s : State) : State :=
  let entries :=
    JsArray.sort
      (λ a b, (size b.2 - size a.2) + (accessCount a.2 - accessCount b.2))
      (cache s) in
  pressureLoop entries requiredSpace 0 s.

Definition maxMemoryBytes (s : State) : Z :=
  maxMemoryMB (config s) * 1024 * 1024.

(** [ensureSpace(newEntrySize)]. *)
Definition ensureSpace (newEntrySize : Z) (s : State) : Completion () * State :=
  let r :=
    if decide (Z.of_nat (length (cache s)) >= maxSize (config s))
    then evictLeastRecentlyUsed s
    else (Normal (), s) in
  match r with
  | (TypeError, s1) => (TypeError, s1)
  | (Normal _, s1) =>
      let currentMemory := getCurrentMemoryUsage s1 in
      if decide (currentMemory + newEntrySize > maxMemoryBytes s1)
      then (Normal (), evictByMemoryPressure newEntrySize s1)
      else (Normal (), s1)
  end.

(** [ttl || this.config.defaultTtl]: a missing or zero [ttl] is falsy. *)
Definition entryTtl (t : option Z) (s : State) : Z :=
  match t with
  | Some t' => if decide (t' = 0) then defaultTtl (config s) else t'
  | None => defaultTtl (config s)
  end.

(** [set(key, value, ttl?)], [now] being the value of [Date.now()]. *)
Definition set (now : Z) (k : string) (v : V) (t : option Z) (s : State)
  : Completion () * State :=
  let entry :=
    {| key := k; value := v; timestamp := now; ttl := entryTtl t s;
       accessCount := 1; lastAccessed := now; size := estimateSize v |} in
  match ensureSpace (estimateSize v) s with
  | (TypeError, s1) => (TypeError, s1)
  | (Normal _, s1) => (Normal (), with_cache (JsMap.set (cache s1) k entry) s1)
  end.

(** A sequence of [set] calls on one cache; a call that throws leaves the
    cache as the exception found it and the next call goes on from there. *)
Definition setAll (calls : list (Z * string * V * option Z)) (s : State) : State :=
  foldl (λ s c, (set c.1.1.1 c.1.1.2 c.1.2 c.2 s).2) s calls.

Definition count_cleanup (s : State) : State :=
  {| cache := cache s; config := config s;
     stats := {| hits := hits (stats s); misses := misses (stats s);
                 evictions := evictions (stats s);
                 cleanups := cleanups (stats s) + 1 |} |}.

(** The loop of [cleanup()]:
    [for (const [key, entry] of this.cache.entries())
       { if (this.isExpired(entry)) { this.cache.delete(key); removed++; } }].
    [isExpired] reads the clock at every entry it is given: [clock i] is the
    reading made at turn [i] of the loop.  Deleting the entry being visited
    leaves the rest of the iteration of a [Map] as it is. *)
Fixpoint cleanupLoop (clock : nat → Z) (i : nat) (entries : list (string * Entry))
    (removed : Z) (s : State) : Z * State :=
  match entries with
  | [] => (removed, s)
  | (k, entry) :: rest =>
      if isExpired (clock i) entry
      then cleanupLoop clock (S i) rest (removed + 1)
             (with_cache (JsMap.delete (cache s) k) s)
      else cleanupLoop clock (S i) rest removed s
  end.

(** [cleanup()], the callback of the cleanup timer (the log line apart). *)
Definition cleanup (clock : nat → Z) (s : State) : State :=
  let '(removed, s) := cleanupLoop clock 0 (cache s) 0 s in
  if decide (removed > 0) then count_cleanup s else s.

End WithValue.
End Cache.

(** ** The upstream collaborator

  [await this.apiAdapter.callTool(name, args)] either resolves with the
  JSON result of the SiYuan API or throws an [Error] carrying a message.
  The outcome is an input of the handler that awaits it. *)

Inductive Upstream (R : Type) : Type :=
| Resolved (result : R)
| Rejected (message : string).
Arguments Resolved {R}.
Arguments Rejected {R}.

(** ** The write tools of [siyuanTools.ts] *)

Module Tools.

(** [args: any], with the fields the write handlers read. *)
Record Args : Type := mkArgs {
  notebook : string;
  path : string;
  markdown : string;
  documentId : string;
  id : string;
  dataType : string;
  data : string;
  parentID : string;
  previousID : option string;
  name : string
}.

(** [ToolResponse]: the text of its single content item, the [isError]
    flag (absent reads as [false]) and the metadata object. *)
Record ToolResponse : Type := mkResponse {
  text : string;
  isError : bool;
  metadata : list (string * option string)
}.

Section WithCache.
Context {V R : Type}.
(** [result?.id] and [result?.[0]?.doOperations?.[0]?.id]: [None] when the
    path is missing or falsy. *)
Context (resultId insertedId : R → option string).

Abbreviation State := (Cache.CacheManager V).

Definition orUnknown (o : option string) : string := default "unknown" o.

Definition failure (what operation message : string) : ToolResponse :=
  {| text := "Error " +:+ what +:+ ": " +:+ message;
     isError := true;
     metadata := [("operation", Some operation); ("error", Some message)] |}.

Definition createDocument (args : Args) (up : Upstream R) (s : State)
  : ToolResponse * State :=
  match up with
  | Resolved result =>
      let s := (Cache.delete ("notebook:" +:+ notebook args) s).2 in
      let s := (Cache.delete "notebooks:list" s).2 in
      ({| text := "Document created successfully at " +:+ path args +:+
                  ". Document ID: " +:+ orUnknown (resultId result);
          isError := false;
          metadata := [("operation", Some "create-document");
                       ("documentId", resultId result);
                       ("path", Some (path args))] |}, s)
  | Rejected message => (failure "creating document" "create-document" message, s)
  end.

Definition updateDocument (args : Args) (up : Upstream R) (s : State)
  : ToolResponse * State :=
  match up with
  | Resolved result =>
      let s := (Cache.delete ("document:" +:+ documentId args) s).2 in
      let s := (Cache.delete ("block:" +:+ documentId args) s).2 in
      ({| text := "Document " +:+ documentId args +:+ " updated successfully";
          isError := false;
          metadata := [("operation", Some "update-document");
                       ("documentId", Some (documentId args))] |}, s)
  | Rejected message => (failure "updating document" "update-document" message, s)
  end.

Definition deleteDocument (args : Args) (up : Upstream R) (s : State)
  : ToolResponse * State :=
  match up with
  | Resolved result =>
      let s := (Cache.delete ("notebook:" +:+ notebook args) s).2 in
      ({| text := "Document at " +:+ path args +:+ " deleted successfully";
          isError := false;
          metadata := [("operation", Some "delete-document");
                       ("path", Some (path args))] |}, s)
  | Rejected message => (failure "deleting document" "delete-document" message, s)
  end.

Definition insertBlock (args : Args) (up : Upstream R) (s : State)
  : ToolResponse * State :=
  match up with
  | Resolved result =>
      let s := (Cache.delete ("block:" +:+ parentID args) s).2 in
      let s := (Cache.delete ("block-children:" +:+ parentID args) s).2 in
      ({| text := "Block inserted successfully. Block ID: " +:+
                  orUnknown (insertedId result);
          isError := false;
          metadata := [("operation", Some "insert-block");
                       ("parentID", Some (parentID args));
                       ("blockId", insertedId result)] |}, s)
  | Rejected message => (failure "inserting block" "insert-block" message, s)
  end.

Definition updateBlock (args : Args) (up : Upstream R) (s : State)
  : ToolResponse * State :=
  match up with
  | Resolved result =>
      let s := (Cache.delete ("block:" +:+ id args) s).2 in
      ({| text := "Block " +:+ id args +:+ " updated successfully";
          isError := false;
          metadata := [("operation", Some "update-block");
                       ("blockId", Some (id args))] |}, s)
  | Rejected message => (failure "updating block" "update-block" message, s)
  end.

Definition deleteBlock (args : Args) (up : Upstream R) (s : State)
  : ToolResponse * State :=
  match up with
  | Resolved result =>
      let s := (Cache.delete ("block:" +:+ id args) s).2 in
      ({| text := "Block " +:+ id args +:+ " deleted successfully";
          isError := false;
          metadata := [("operation", Some "delete-block");
                       ("blockId", Some (id args))] |}, s)
  | Rejected message => (failure "deleting block" "delete-block" message, s)
  end.

Definition moveBlock (args : Args) (up : Upstream R) (s : State)
  : ToolResponse * State :=
  match up with
  | Resolved result =>
      let s := (Cache.delete ("block:" +:+ id args) s).2 in
      let s := (Cache.delete ("block-children:" +:+ parentID args) s).2 in
      ({| text := "Block " +:+ id args +:+ " moved successfully to parent " +:+
                  parentID args;
          isError := false;
          metadata := [("operation", Some "move-block");
                       ("blockId", Some (id args));
                       ("newParentId", Some (parentID args))] |}, s)
  | Rejected message => (failure "moving block" "move-block" message, s)
  end.

(** The keys each of these handlers passes to [cacheManager.delete], in
    the order of the calls. *)
Definition invalidated (tool : string) (args : Args) : list string :=
  if decide (tool = "create-document") then
    ["notebook:" +:+ notebook args; "notebooks:list"]
  else if decide (tool = "update-document") then
    ["document:" +:+ documentId args; "block:" +:+ documentId args]
  else if decide (tool = "delete-document") then
    ["notebook:" +:+ notebook args]
  else if decide (tool = "insert-block") then
    ["block:" +:+ parentID args; "block-children:" +:+ parentID args]
  else if decide (tool = "update-block") then ["block:" +:+ id args]
  else if decide (tool = "delete-block") then ["block:" +:+ id args]
  else if decide (tool = "move-block") then
    ["block:" +:+ id args; "block-children:" +:+ parentID args]
  else [].

(** The document and block entries of [getToolDefinitions()] that write:
    tool name and bound handler. *)
Definition writeTools
  : list (string * (Args → Upstream R → State → ToolResponse * State)) :=
  [ ("create-document", createDocument);
    ("update-document", updateDocument);
    ("delete-document", deleteDocument);
    ("insert-block", insertBlock);
    ("update-block", updateBlock);
    ("delete-block", deleteBlock);
    ("move-block", moveBlock) ].

End WithCache.
End Tools.

(** ** The caching resource handlers ([SiYuanResourcesManager]) *)

Module Resources.

Record Metadata : Type := mkMetadata {
  resourceType : string;
  timestamp : string;      (* [new Date().toISOString()] *)
  uri : string
}.

(** The objects the handlers build and cache.  They are the only values
    the server stores in the cache, and objects are truthy, so the test
    [if (cached)] of the handlers is a test for a hit. *)
Inductive Data (R : Type) : Type :=
| NotebookData (id : string) (config : R) (metadata : Metadata)
| NotebooksData (notebooks : R) (count : Z) (metadata : Metadata)
| DocumentData (id content : string) (metadata : Metadata)
| BlockData (id content : string) (metadata : Metadata)
| SearchData (query : string) (method limit : option Z) (results : R)
    (metadata : Metadata)
| WorkspaceData (configuration notebooks : R) (metadata : Metadata).
Arguments NotebookData {R}.
Arguments NotebooksData {R}.
Arguments DocumentData {R}.
Arguments BlockData {R}.
Arguments SearchData {R}.
Arguments WorkspaceData {R}.

(** The single item of [ResourceResponse.contents]. *)
Record ResourceResponse : Type := mkResponse {
  href : string;
  text : option string;
  mimeType : string
}.

(** The three readings of the clock a handler can make: two in
    [cacheManager.get], one in [cacheManager.set] after the upstream call. *)
Record Clock : Type := mkClock { checked : Z; touched : Z; stored : Z }.

Section WithUpstream.
Context {R : Type}.
(** [JSON.stringify(x, null, 2)] and [JSON.stringify(x).length]. *)
Context (jsonPretty : Data R → string) (jsonStringifyLength : Data R → option N).
(** [kramdown?.kramdown || ''] and [notebooks?.notebooks?.length || 0]. *)
Context (kramdownOf : R → string) (notebooksLength : R → Z).
(** [parseInt] ([None] is [NaN]) and a number inside a template literal. *)
Context (parseInt : string → option Z) (numberToString : option Z → string).
(** The message of the [TypeError] that can escape from [set]. *)
Context (typeErrorMessage : string).

Abbreviation State := (Cache.CacheManager (Data R)).

Definition json (u : string) (d : Data R) : ResourceResponse :=
  {| href := u; text := Some (jsonPretty d); mimeType := "application/json" |}.

Definition plain (u : string) (t : string) : ResourceResponse :=
  {| href := u; text := Some t; mimeType := "text/plain" |}.

(** [cached.content]. *)
Definition content (d : Data R) : option string :=
  match d with
  | DocumentData _ c _ | BlockData _ c _ => Some c
  | _ => None
  end.

Definition handleNotebookResource (clk : Clock) (iso u notebookId : string)
    (up : Upstream R) (s : State) : ResourceResponse * State :=
  let cacheKey := "notebook:" +:+ notebookId in
  match Cache.get (checked clk) (touched clk) cacheKey s with
  | (Some cached, s) => (json u cached, s)
  | (None, s) =>
      match up with
      | Resolved notebookConf =>
          let notebookData :=
            NotebookData notebookId notebookConf
              {| resourceType := "notebook"; timestamp := iso; uri := u |} in
          match Cache.set jsonStringifyLength (stored clk) cacheKey
                  notebookData (Some 300000) s with
          | (Cache.Normal _, s) => (json u notebookData, s)
          | (Cache.TypeError, s) =>
              (plain u ("Error accessing notebook " +:+ notebookId +:+ ": " +:+
                        typeErrorMessage), s)
          end
      | Rejected message =>
          (plain u ("Error accessing notebook " +:+ notebookId +:+ ": " +:+
                    message), s)
      end
  end.

Definition handleNotebooksListResource (clk : Clock) (iso u : string)
    (up : Upstream R) (s : State) : ResourceResponse * State :=
  let cacheKey := "notebooks:list" in
  match Cache.get (checked clk) (touched clk) cacheKey s with
  | (Some cached, s) => (json u cached, s)
  | (None, s) =>
      match up with
      | Resolved notebooks =>
          let notebooksData :=
            NotebooksData notebooks (notebooksLength notebooks)
              {| resourceType := "notebooks-list"; timestamp := iso; uri := u |} in
          match Cache.set jsonStringifyLength (stored clk) cacheKey
                  notebooksData (Some 120000) s with
          | (Cache.Normal _, s) => (json u notebooksData, s)
          | (Cache.TypeError, s) =>
              (plain u ("Error listing notebooks: " +:+ typeErrorMessage), s)
          end
      | Rejected message =>
          (plain u ("Error listing notebooks: " +:+ message), s)
      end
  end.

Definition handleDocumentResource (clk : Clock) (iso u documentId : string)
    (up : Upstream R) (s : State) : ResourceResponse * State :=
  let cacheKey := "document:" +:+ documentId in
  match Cache.get (checked clk) (touched clk) cacheKey s with
  | (Some cached, s) =>
      ({| href := u; text := content cached; mimeType := "text/markdown" |}, s)
  | (None, s) =>
      match up with
      | Resolved kramdown =>
          let documentData :=
            DocumentData documentId (kramdownOf kramdown)
              {| resourceType := "document"; timestamp := iso; uri := u |} in
          match Cache.set jsonStringifyLength (stored clk) cacheKey
                  documentData (Some 60000) s with
          | (Cache.Normal _, s) =>
              ({| href := u; text := Some (kramdownOf kramdown);
                  mimeType := "text/markdown" |}, s)
          | (Cache.TypeError, s) =>
              (plain u ("Error accessing document " +:+ documentId +:+ ": " +:+
                        typeErrorMessage), s)
          end
      | Rejected message =>
          (plain u ("Error accessing document " +:+ documentId +:+ ": " +:+
                    message), s)
      end
  end.

Definition handleBlockResource (clk : Clock) (iso u blockId : string)
    (up : Upstream R) (s : State) : ResourceResponse * State :=
  let cacheKey := "block:" +:+ blockId in
  match Cache.get (checked clk) (touched clk) cacheKey s with
  | (Some cached, s) => (json u cached, s)
  | (None, s) =>
      match up with
      | Resolved kramdown =>
          let blockData :=
            BlockData blockId (kramdownOf kramdown)
              {| resourceType := "block"; timestamp := iso; uri := u |} in
          match Cache.set jsonStringifyLength (stored clk) cacheKey
                  blockData (Some 30000) s with
          | (Cache.Normal _, s) => (json u blockData, s)
          | (Cache.TypeError, s) =>
              (plain u ("Error accessing block " +:+ blockId +:+ ": " +:+
                        typeErrorMessage), s)
          end
      | Rejected message =>
          (plain u ("Error accessing block " +:+ blockId +:+ ": " +:+ message), s)
      end
  end.

(** The double-quote character around the query in the search handler's
    error text. *)
Definition dquote : string := String (Ascii.ascii_of_nat 34) EmptyString.

(** [params.method || '0']: a missing or empty parameter is falsy. *)
Definition orElse (o : option string) (d : string) : string :=
  match o with
  | Some x => if decide (x = EmptyString) then d else x
  | None => d
  end.

Definition searchKey (query : string) (method limit : option string) : string :=
  "search:" +:+ query +:+ ":" +:+ numberToString (parseInt (orElse method "0"))
    +:+ ":" +:+ numberToString (parseInt (orElse limit "20")).

Definition handleSearchResource (clk : Clock) (iso u query : string)
    (method limit : option string) (up : Upstream R) (s : State)
  : ResourceResponse * State :=
  let method' := parseInt (orElse method "0") in
  let limit' := parseInt (orElse limit "20") in
  let cacheKey := searchKey query method limit in
  match Cache.get (checked clk) (touched clk) cacheKey s with
  | (Some cached, s) => (json u cached, s)
  | (None, s) =>
      match up with
      | Resolved searchResults =>
          let searchData :=
            SearchData query method' limit' searchResults
              {| resourceType := "search"; timestamp := iso; uri := u |} in
          match Cache.set jsonStringifyLength (stored clk) cacheKey
                  searchData (Some 30000) s with
          | (Cache.Normal _, s) => (json u searchData, s)
          | (Cache.TypeError, s) =>
              (plain u ("Error searching for " +:+ dquote +:+ query +:+ dquote +:+ ": " +:+
                        typeErrorMessage), s)
          end
      | Rejected message =>
          (plain u ("Error searching for " +:+ dquote +:+ query +:+ dquote +:+ ": " +:+ message), s)
      end
  end.

(** The workspace handler awaits two upstream calls; the second is made
    only when the first resolved. *)
Definition handleWorkspaceResource (clk : Clock) (iso u : string)
    (upConf upNotebooks : Upstream R) (s : State) : ResourceResponse * State :=
  let cacheKey := "workspace:info" in
  match Cache.get (checked clk) (touched clk) cacheKey s with
  | (Some cached, s) => (json u cached, s)
  | (None, s) =>
      match upConf, upNotebooks with
      | Resolved conf, Resolved notebooks =>
          let workspaceData :=
            WorkspaceData conf notebooks
              {| resourceType := "workspace"; timestamp := iso; uri := u |} in
          match Cache.set jsonStringifyLength (stored clk) cacheKey
                  workspaceData (Some 300000) s with
          | (Cache.Normal _, s) => (json u workspaceData, s)
          | (Cache.TypeError, s) =>
              (plain u ("Error accessing workspace: " +:+ typeErrorMessage), s)
          end
      | Rejected message, _ | Resolved _, Rejected message =>
          (plain u ("Error accessing workspace: " +:+ message), s)
      end
  end.

(** A read of one of the six resources of [getResourceDefinitions()], with
    the parameters its URI template binds. *)
Inductive Request : Type :=
| Notebook (notebookId : string)
| Notebooks
| Document (documentId : string)
| Block (blockId : string)
| Search (query : string) (method limit : option string)
| Workspace.

Definition cacheKey (req : Request) : string :=
  match req with
  | Notebook notebookId => "notebook:" +:+ notebookId
  | Notebooks => "notebooks:list"
  | Document documentId => "document:" +:+ documentId
  | Block blockId => "block:" +:+ blockId
  | Search query method limit => searchKey query method limit
  | Workspace => "workspace:info"
  end.

(** The handler bound to the resource.  [up] is the outcome of the upstream
    call; the workspace resource makes a second one, [up']. *)
Definition handle (req : Request) (clk : Clock) (iso u : string)
    (up up' : Upstream R) (s : State) : ResourceResponse * State :=
  match req with
  | Notebook notebookId => handleNotebookResource clk iso u notebookId up s
  | Notebooks => handleNotebooksListResource clk iso u up s
  | Document documentId => handleDocumentResource clk iso u documentId up s
  | Block blockId => handleBlockResource clk iso u blockId up s
  | Search query method limit => handleSearchResource clk iso u query method limit up s
  | Workspace => handleWorkspaceResource clk iso u up up' s
  end.

(** Whether an upstream call of the request throws. *)
Definition upstreamThrows (req : Request) (up up' : Upstream R) : option string :=
  match req, up, up' with
  | _, Rejected message, _ => Some message
  | Workspace, Resolved _, Rejected message => Some message
  | _, _, _ => None
  end.

End WithUpstream.
End Resources.

(** ** [StreamableHTTPTransportManager]: the session registry and its routes

  The transport and the server of a session are objects of the MCP SDK.
  What their methods do when called is an input: whether creating the pair
  throws, what [transport.handleRequest] does with the HTTP response, and
  whether closing them throws. *)

Module Http.

Record SessionInfo : Type := mkSession {
  id : string;
  createdAt : Z;
  lastActivity : Z
}.

(** What is written to the HTTP response. *)
Inductive Response : Type :=
| JsonRpcError (status code : Z) (message : string)
    (* [res.status(status).json({ jsonrpc: '2.0', error: { code, message }, id: null })] *)
| Text (status : Z) (body : string)
    (* [res.status(status).send(body)] *)
| ByTransport (sessionId : string).
    (* what the transport of that session wrote *)

(** [await sessionInfo.transport.handleRequest(req, res, req.body)]. *)
Inductive Forwarding : Type :=
| Handled
| Threw (headersSent : bool).

(** The inputs of one POST: the clock, the value of [randomUUID()], whether
    building the server and transport of a new session throws, and what
    forwarding to the transport does.  [now] is the [new Date()] stored in
    [lastActivity]; [createNewSession] evaluates [new Date()] once more
    before it, for [createdAt], and [created] is that reading. *)
Record Oracle : Type := mkOracle {
  now : Z;
  created : Z;
  uuid : string;
  creationThrows : bool;
  forwarding : Forwarding
}.

Inductive Completion : Type :=
| Done
| Failed (message : string).

Definition maxAge : Z := 30 * 60 * 1000.
Definition cleanupPeriod : Z := 5 * 60 * 1000.

Section WithBody.
Context {Body : Type}.
(** [isInitializeRequest] of the SDK. *)
Context (isInitializeRequest : Body → bool).

Record Request : Type := mkRequest {
  sessionIdHeader : option string;   (* [req.headers['mcp-session-id']] *)
  body : Body
}.

(** A header value used as a condition: missing and empty are falsy. *)
Definition truthy (h : option string) : bool :=
  match h with
  | Some x => bool_decide (x ≠ EmptyString)
  | None => false
  end.

(** [sessionId && this.sessions.has(sessionId)], with the session found. *)
Definition known (h : option string) (sessions : gmap string SessionInfo)
  : option (string * SessionInfo) :=
  match h with
  | Some sid => if truthy h then (λ info, (sid, info)) <$> sessions !! sid else None
  | None => None
  end.

(** [createNewSession()]: [None] when it throws, which happens before the
    session is registered. *)
Definition createNewSession (o : Oracle) (sessions : gmap string SessionInfo)
  : option SessionInfo * gmap string SessionInfo :=
  if creationThrows o then (None, sessions)
  else
    let sessionInfo :=
      {| id := uuid o; createdAt := created o; lastActivity := now o |} in
    (Some sessionInfo, <[uuid o := sessionInfo]> sessions).

Definition internalError : Response :=
  JsonRpcError 500 (-32603) "Internal server error".

Definition badRequest : Response :=
  JsonRpcError 400 (-32000)
    "Bad Request: No valid session ID provided or not an initialization request".

(** The end of the [try] block and its [catch]. *)
Definition forward (o : Oracle) (sessionInfo : SessionInfo) : Response :=
  match forwarding o with
  | Handled => ByTransport (id sessionInfo)
  | Threw true => ByTransport (id sessionInfo)
  | Threw false => internalError
  end.

(** [handleClientToServerRequest(req, res)] (POST /mcp). *)
Definition handleClientToServerRequest (o : Oracle) (req : Request)
    (sessions : gmap string SessionInfo)
  : Response * gmap string SessionInfo :=
  let sessionId := sessionIdHeader req in
  match known sessionId sessions with
  | Some (sid, sessionInfo) =>
      let sessionInfo :=
        {| id := id sessionInfo; createdAt := createdAt sessionInfo;
           lastActivity := now o |} in
      (forward o sessionInfo, <[sid := sessionInfo]> sessions)
  | None =>
      if negb (truthy sessionId) && isInitializeRequest (body req) then
        match createNewSession o sessions with
        | (Some sessionInfo, sessions) => (forward o sessionInfo, sessions)
        | (None, sessions) => (internalError, sessions)
        end
      else (badRequest, sessions)
  end.

(** [terminateSession(sessionId)].  [closeThrows sid] is the message of the
    error thrown by [server.close()] or [transport.close()] of that
    session, if any; the registry entry is removed after both returned.  The
    [onclose] callback that [createNewSession] hands to the transport removes
    the same entry when the SDK runs it; a close that throws is one that threw
    before that. *)
Definition terminateSession (closeThrows : string → option string)
    (sessionId : string) (sessions : gmap string SessionInfo)
  : Completion * gmap string SessionInfo :=
  match sessions !! sessionId with
  | None => (Failed ("Session " +:+ sessionId +:+ " not found"), sessions)
  | Some _ =>
      match closeThrows sessionId with
      | Some message => (Failed message, sessions)
      | None => (Done, delete sessionId sessions)
      end
  end.

(** [handleSessionTermination(req, res)] (DELETE /mcp). *)
Definition handleSessionTermination (closeThrows : string → option string)
    (req : Request) (sessions : gmap string SessionInfo)
  : Response * gmap string SessionInfo :=
  match known (sessionIdHeader req) sessions with
  | None => (Text 400 "Invalid or missing session ID", sessions)
  | Some (sid, _) =>
      match terminateSession closeThrows sid sessions with
      | (Done, sessions) => (Text 200 "Session terminated successfully", sessions)
      | (Failed _, sessions) => (Text 500 "Error terminating session", sessions)
      end
  end.

(** One turn of the loop of the cleanup timer: the session is terminated
    when its age exceeds [maxAge], and [.catch] swallows the error of a
    failed termination. *)
Definition cleanupStep (t : Z) (closeThrows : string → option string)
    (sessions : gmap string SessionInfo) (entry : string * SessionInfo)
  : gmap string SessionInfo :=
  let age := t - lastActivity entry.2 in
  if decide (age > maxAge)
  then (terminateSession closeThrows entry.1 sessions).2
  else sessions.

(** The callback [setupCleanup] runs every [cleanupPeriod] milliseconds,
    with the terminations it starts run to their end.  A termination
    touches the registry entry of its own session only, so the order in
    which they finish does not show in the result. *)
Definition cleanup (t : Z) (closeThrows : string → option string)
    (sessions : gmap string SessionInfo) : gmap string SessionInfo :=
  foldl (cleanupStep t closeThrows) sessions (map_to_list sessions).

(** [handleServerToClientRequest(req, res)] (GET /mcp). *)
Definition handleServerToClientRequest (o : Oracle) (req : Request)
    (sessions : gmap string SessionInfo)
  : Response * gmap string SessionInfo :=
  match known (sessionIdHeader req) sessions with
  | None => (Text 400 "Invalid or missing session ID", sessions)
  | Some (sid, sessionInfo) =>
      let sessionInfo :=
        {| id := id sessionInfo; createdAt := createdAt sessionInfo;
           lastActivity := now o |} in
      let sessions := <[sid := sessionInfo]> sessions in
      match forwarding o with
      | Handled => (ByTransport (id sessionInfo), sessions)
      | Threw true => (ByTransport (id sessionInfo), sessions)
      | Threw false => (Text 500 "Internal server error", sessions)
      end
  end.

(** [stop()].  [isRunning] is the flag of the manager and [listening] tells
    whether [this.server] is set; the result carries the flag after the call.
    Every session registered when the call starts is terminated in turn, and
    the error of a termination that fails is logged and dropped. *)
Definition stop (closeThrows : string → option string) (isRunning listening : bool)
    (sessions : gmap string SessionInfo) : bool * gmap string SessionInfo :=
  if negb isRunning then (isRunning, sessions)
  else
    let sessionIds := (map_to_list sessions).*1 in
    (if listening then false else isRunning,
     foldl (λ sessions sessionId,
              (terminateSession closeThrows sessionId sessions).2)
       sessions sessionIds).

End WithBody.
End Http.

(** ** [SSETransport] *)

Module Sse.

(** [SSEMessage.type]. *)
Inductive MessageType : Type := request | response | notification | error.

#[global] Instance MessageType_eq_dec : EqDecision MessageType.
Proof. solve_decision. Defined.

(** The string of a message type, the key of [messageHandlers]. *)
Definition typeName (t : MessageType) : string :=
  match t with
  | request => "request"
  | response => "response"
  | notification => "notification"
  | error => "error"
  end.

(** [SSEMessage.data]: what a client sends, with its [method] field if it
    has one, and the objects the transport builds. *)
Inductive Payload : Type :=
| FromClient (method : option string) (rest : string)
| ConnectionEstablished (connectionId : string)
| Ping (timestamp : Z)
| ErrorData (code : Z) (message data : string)
| AuthResult (success : bool) (sessionToken : string)
| Result (value : string).

(** [data?.method]. *)
Definition method (p : Payload) : option string :=
  match p with
  | FromClient m _ => m
  | _ => None
  end.

(** [SSEMessage]; [messageId] is its field [id]. *)
Record SSEMessage : Type := mkMessage {
  messageId : string;
  type : MessageType;
  correlationId : option string;
  timestamp : Z;
  data : Payload
}.

Record SSEConnection : Type := mkConnection {
  id : string;
  clientAddress : string;
  connectedAt : Z;
  lastActivity : Z;
  authenticated : bool;
  sessionToken : option string
}.

(** [SSEConnectionState]; the response stream is written to through
    effects, [pingInterval] tells whether the keep-alive timer is armed. *)
Record SSEConnectionState : Type := mkState {
  connection : SSEConnection;
  isAlive : bool;
  pingInterval : bool
}.

(** A registered handler: it resolves with a result or throws. *)
Definition Handler : Type := SSEMessage → Upstream string.

Record SSETransport : Type := mkTransport {
  connections : gmap string SSEConnectionState;
  messageHandlers : gmap string Handler
}.

(** What a call does to the outside: an event written to the stream of a
    connection, or a registered handler called with a message that came in
    on a connection. *)
Inductive Effect : Type :=
| Written (connectionId : string) (message : SSEMessage)
| Invoked (connectionId : string) (message : SSEMessage).

(** The inputs of one call: the clock, the identifiers generated in it and
    whether [response.write] succeeds.  A call reads the clock more than
    once; the readings only end up in timestamps and identifiers, and one
    value stands for them. *)
Record Env : Type := mkEnv {
  now : Z;
  newConnectionId : string;     (* [generateConnectionId()] *)
  newMessageId : string;        (* [generateMessageId()] *)
  writable : bool
}.

Definition empty : SSETransport :=
  {| connections := ∅; messageHandlers := ∅ |}.

Definition with_connections (c : gmap string SSEConnectionState)
    (t : SSETransport) : SSETransport :=
  {| connections := c; messageHandlers := messageHandlers t |}.

(** [onMessage(messageType, handler)]. *)
Definition onMessage (messageType : string) (handler : Handler)
    (t : SSETransport) : SSETransport :=
  {| connections := connections t;
     messageHandlers := <[messageType := handler]> (messageHandlers t) |}.

(** [closeConnection(connectionId)]. *)
Definition closeConnection (connectionId : string) (t : SSETransport)
  : SSETransport :=
  match connections t !! connectionId with
  | None => t
  | Some _ => with_connections (delete connectionId (connections t)) t
  end.

(** [closeAllConnections()]. *)
Definition closeAllConnections (t : SSETransport) : SSETransport :=
  foldl (λ t connectionId, closeConnection connectionId t) t
    (map_to_list (connections t)).*1.

Definition active (env : Env) (c : SSEConnection) : SSEConnection :=
  {| id := id c; clientAddress := clientAddress c; connectedAt := connectedAt c;
     lastActivity := now env; authenticated := authenticated c;
     sessionToken := sessionToken c |}.

Definition with_connection (c : SSEConnection) (cs : SSEConnectionState)
  : SSEConnectionState :=
  {| connection := c; isAlive := isAlive cs; pingInterval := pingInterval cs |}.

(** [sendMessage(connectionId, message)]. *)
Definition sendMessage (env : Env) (connectionId : string)
    (message : SSEMessage) (t : SSETransport)
  : bool * SSETransport * list Effect :=
  match connections t !! connectionId with
  | None => (false, t, [])
  | Some connectionState =>
      if negb (isAlive connectionState) then (false, t, [])
      else if writable env then
        let connectionState :=
          with_connection (active env (connection connectionState))
            connectionState in
        (true,
         with_connections (<[connectionId := connectionState]> (connections t)) t,
         [Written connectionId message])
      else (false, closeConnection connectionId t, [])
  end.

(** [handleConnection(req, res)]; [address] is the client address read
    from the request. *)
Definition handleConnection (env : Env) (address : string) (t : SSETransport)
  : SSETransport * list Effect :=
  let connectionId := newConnectionId env in
  let created :=
    {| id := connectionId; clientAddress := address; connectedAt := now env;
       lastActivity := now env; authenticated := false;
       sessionToken := None |} in
  let connectionState :=
    {| connection := created; isAlive := true; pingInterval := false |} in
  let t := with_connections (<[connectionId := connectionState]> (connections t)) t in
  let '(_, t, effects) :=
    sendMessage env connectionId
      {| messageId := newMessageId env; type := notification;
         correlationId := None; timestamp := now env;
         data := ConnectionEstablished connectionId |} t in
  (with_connections
     (alter (λ cs, {| connection := connection cs; isAlive := isAlive cs;
                      pingInterval := true |}) connectionId (connections t)) t,
   effects).

(** [handleAuthentication(connectionId, message)]. *)
Definition handleAuthentication (env : Env) (connectionId : string)
    (message : SSEMessage) (t : SSETransport) : SSETransport * list Effect :=
  match connections t !! connectionId with
  | None => (t, [])
  | Some connectionState =>
      let c := connection connectionState in
      let token := "dummy-token-" +:+ connectionId in
      let c :=
        {| id := id c; clientAddress := clientAddress c;
           connectedAt := connectedAt c; lastActivity := lastActivity c;
           authenticated := true; sessionToken := Some token |} in
      let t :=
        with_connections
          (<[connectionId := with_connection c connectionState]> (connections t)) t in
      let '(_, t, effects) :=
        sendMessage env connectionId
          {| messageId := newMessageId env; type := response;
             correlationId := Some (messageId message); timestamp := now env;
             data := AuthResult true token |} t in
      (t, effects)
  end.

Definition isAuth (message : SSEMessage) : bool :=
  bool_decide (type message = request) &&
  bool_decide (method (data message) = Some "auth").

Definition authenticationRequired (env : Env) (message : SSEMessage)
  : SSEMessage :=
  {| messageId := newMessageId env; type := error;
     correlationId := Some (messageId message); timestamp := now env;
     data := ErrorData (-32001) "Authentication required"
               "Please authenticate before making requests" |}.

(** [processIncomingMessage(connectionId, message)]. *)
Definition processIncomingMessage (env : Env) (connectionId : string)
    (message : SSEMessage) (t : SSETransport) : SSETransport * list Effect :=
  match connections t !! connectionId with
  | None => (t, [])
  | Some connectionState =>
      let connectionState :=
        with_connection (active env (connection connectionState))
          connectionState in
      let t :=
        with_connections (<[connectionId := connectionState]> (connections t)) t in
      if isAuth message then handleAuthentication env connectionId message t
      else if negb (authenticated (connection connectionState)) &&
              bool_decide (type message = request) then
        let '(_, t, effects) :=
          sendMessage env connectionId (authenticationRequired env message) t in
        (t, effects)
      else
        match messageHandlers t !! typeName (type message) with
        | None => (t, [])
        | Some handler =>
            let called := Invoked connectionId message in
            match handler message with
            | Resolved result =>
                if bool_decide (type message = request) then
                  let '(_, t, effects) :=
                    sendMessage env connectionId
                      {| messageId := newMessageId env; type := response;
                         correlationId := Some (messageId message);
                         timestamp := now env; data := Result result |} t in
                  (t, called :: effects)
                else (t, [called])
            | Rejected reason =>
                if bool_decide (type message = request) then
                  let '(_, t, effects) :=
                    sendMessage env connectionId
                      {| messageId := newMessageId env; type := error;
                         correlationId := Some (messageId message);
                         timestamp := now env;
                         data := ErrorData (-32603) "Internal error" reason |} t in
                  (t, called :: effects)
                else (t, [called])
            end
        end
  end.

(** The calls the rest of the server and the timers make on a transport. *)
Inductive Call : Type :=
| HandleConnection (env : Env) (address : string)
| ProcessIncomingMessage (env : Env) (connectionId : string) (message : SSEMessage)
| SendMessage (env : Env) (connectionId : string) (message : SSEMessage)
| CloseConnection (connectionId : string)
| CloseAllConnections
| OnMessage (messageType : string) (handler : Handler).

Definition call (c : Call) (t : SSETransport) : SSETransport * list Effect :=
  match c with
  | HandleConnection env address => handleConnection env address t
  | ProcessIncomingMessage env connectionId message =>
      processIncomingMessage env connectionId message t
  | SendMessage env connectionId message =>
      let '(_, t, effects) := sendMessage env connectionId message t in (t, effects)
  | CloseConnection connectionId => (closeConnection connectionId t, [])
  | CloseAllConnections => (closeAllConnections t, [])
  | OnMessage messageType handler => (onMessage messageType handler t, [])
  end.

(** The transport after a sequence of calls on a new one. *)
Definition after (calls : list Call) : SSETransport :=
  foldl (λ t c, (call c t).1) empty calls.

(** [sendPing(connectionId)], the callback of the keep-alive timer. *)
Definition sendPing (env : Env) (connectionId : string) (t : SSETransport)
  : bool * SSETransport * list Effect :=
  sendMessage env connectionId
    {| messageId := newMessageId env; type := notification;
       correlationId := None; timestamp := now env; data := Ping (now env) |} t.

(** One turn of the loop of [broadcastMessage]. *)
Definition broadcastStep (envs : string → Env) (message : SSEMessage)
    (acc : Z * SSETransport * list Effect) (connectionId : string)
  : Z * SSETransport * list Effect :=
  let '(sentCount, t, effects) := acc in
  let '(sent, t, written) :=
    sendMessage (envs connectionId) connectionId message t in
  (if sent then sentCount + 1 else sentCount, t, effects ++ written).

(** [broadcastMessage(message)].  Each [sendMessage] of the loop has its own
    inputs, [envs connectionId].  The loop visits the connections registered
    when it starts: a [sendMessage] changes or removes the entry of its own
    connection only.  Every connection has a stream of its own, and the order
    in which the loop reaches them does not show in what a stream receives. *)
Definition broadcastMessage (envs : string → Env) (message : SSEMessage)
    (t : SSETransport) : Z * SSETransport * list Effect :=
  foldl (broadcastStep envs message) (0, t, [])
    (map_to_list (connections t)).*1.

(** [getActiveConnectionCount()]. *)
Definition getActiveConnectionCount (t : SSETransport) : nat :=
  size (connections t).

End Sse.

(** ** [types]: the plugin settings and the records of the security manager *)

Module Types.

Module RateLimiting.
Record t : Type := mk { enabled : bool; requestsPerMinute : Z }.
End RateLimiting.

Module SecuritySettings.
Record t : Type := mk {
  requireAuth : bool;
  sessionTimeout : Z     (* in minutes *)
}.
End SecuritySettings.

Record MCPPluginSettings : Type := mkSettings {
  port : Z;
  serverPort : option Z;          (* [serverPort?: number] *)
  apiToken : string;
  enabled : bool;
  enableCaching : bool;
  sseEndpoint : string;
  allowedOrigins : list string;
  rateLimiting : RateLimiting.t;
  security : SecuritySettings.t;
  autoStart : bool;
  debugMode : bool
}.

Definition DEFAULT_SETTINGS : MCPPluginSettings :=
  {| port := 3000; serverPort := Some 3000; apiToken := EmptyString;
     enabled := false; enableCaching := true; sseEndpoint := "/sse";
     allowedOrigins := ["*"];
     rateLimiting := RateLimiting.mk true 60;
     security := SecuritySettings.mk true 60;
     autoStart := true; debugMode := false |}.

Record AuthSession : Type := mkAuthSession {
  sessionId : string;
  clientId : string;
  createdAt : Z;
  expiresAt : Z;
  isValid : bool
}.

(** [SecurityAuditLog['event']]. *)
Inductive AuditEvent : Type := auth_success | auth_failure | api_call | error.

(** [SecurityAuditLog]; [client] is its field [clientId]. *)
Record SecurityAuditLog : Type := mkAuditLog {
  timestamp : Z;
  event : AuditEvent;
  client : string;
  details : string;
  endpoint : option string
}.

End Types.

(** ** [SecurityManager]

  [jwt.verify] is a function of the [jsonwebtoken] package and what the
  next Express handler does is not the manager's: both are inputs.  The
  timers of [initialize] are modelled by their callbacks. *)

Module Security.

Record RateLimitEntry : Type := mkEntry { count : Z; resetTime : Z }.

Record SecurityManager : Type := mkManager {
  settings : Types.MCPPluginSettings;
  activeSessions : gmap string Types.AuthSession;
  auditLogs : list Types.SecurityAuditLog;
  rateLimitStore : gmap string RateLimitEntry;
  jwtSecret : string
}.

(** The fields of the Express request the manager reads. *)
Record Request : Type := mkRequest {
  ip : option string;                (* [req.ip] *)
  remoteAddress : option string;     (* [req.socket.remoteAddress] *)
  path : string;
  method : string;
  authorization : option string      (* [req.headers.authorization] *)
}.

(** The result of [authenticateRequest]. *)
Record AuthResult : Type := mkAuthResult {
  success : bool;
  session : option Types.AuthSession;
  error : option string
}.

(** What [validateRequest] does with the response and with [next]:
    [res.status(status).json({ error: { code, message, data } })], or the call
    of [next] with [req.auth] as the manager left it. *)
Inductive Action : Type :=
| Reply (status code : Z) (message : string) (data : option string)
| Next (auth : option Types.AuthSession).

(** The readings of the clock one [validateRequest] can make: in
    [checkRateLimit], in [validateSessionToken], in the [logSecurityEvent] of
    its outcome, and in the one of its [catch]. *)
Record Clock : Type := mkClock {
  limited : Z; verified : Z; logged : Z; caught : Z
}.

Section WithJwt.
(** [jwt.verify(token, secret)]: the [sessionId] of the decoded payload when
    the call returns a payload that has one, [None] when it throws (and when
    the payload carries no [sessionId], which finds no session either). *)
Context (jwtVerify : string → string → option string).

(** The constructor; [secret] is the value of [generateJWTSecret()]. *)
Definition new (settings : Types.MCPPluginSettings) (secret : string)
  : SecurityManager :=
  {| settings := settings; activeSessions := ∅; auditLogs := [];
     rateLimitStore := ∅; jwtSecret := secret |}.

(** [updateSettings(newSettings)]. *)
Definition updateSettings (newSettings : Types.MCPPluginSettings)
    (m : SecurityManager) : SecurityManager :=
  {| settings := newSettings; activeSessions := activeSessions m;
     auditLogs := auditLogs m; rateLimitStore := rateLimitStore m;
     jwtSecret := jwtSecret m |}.

Definition with_store (store : gmap string RateLimitEntry) (m : SecurityManager)
  : SecurityManager :=
  {| settings := settings m; activeSessions := activeSessions m;
     auditLogs := auditLogs m; rateLimitStore := store;
     jwtSecret := jwtSecret m |}.

Definition with_logs (logs : list Types.SecurityAuditLog) (m : SecurityManager)
  : SecurityManager :=
  {| settings := settings m; activeSessions := activeSessions m;
     auditLogs := logs; rateLimitStore := rateLimitStore m;
     jwtSecret := jwtSecret m |}.

Definition with_sessions (sessions : gmap string Types.AuthSession)
    (m : SecurityManager) : SecurityManager :=
  {| settings := settings m; activeSessions := sessions;
     auditLogs := auditLogs m; rateLimitStore := rateLimitStore m;
     jwtSecret := jwtSecret m |}.

Definition windowMs : Z := 60 * 1000.

(** [checkRateLimit(clientId)], [now] being the value of [Date.now()]. *)
Definition checkRateLimit (now : Z) (clientId : string) (m : SecurityManager)
  : bool * SecurityManager :=
  if negb (Types.RateLimiting.enabled (Types.rateLimiting (settings m)))
  then (true, m)
  else
    let limit := Types.RateLimiting.requestsPerMinute (Types.rateLimiting (settings m)) in
    let entry :=
      match rateLimitStore m !! clientId with
      | Some entry => entry
      | None => {| count := 0; resetTime := now + windowMs |}
      end in
    let entry :=
      if decide (now > resetTime entry)
      then {| count := 0; resetTime := now + windowMs |}
      else entry in
    let entry := {| count := count entry + 1; resetTime := resetTime entry |} in
    (bool_decide (count entry ≤ limit),
     with_store (<[clientId := entry]> (rateLimitStore m)) m).

(** [logSecurityEvent(event, clientId, details, endpoint?)]: the entry is
    pushed and the array cut to its last 1000 entries ([slice(-1000)]). *)
Definition logSecurityEvent (now : Z) (event : Types.AuditEvent)
    (clientId details : string) (endpoint : option string) (m : SecurityManager)
  : SecurityManager :=
  let logs :=
    auditLogs m ++ [{| Types.timestamp := now; Types.event := event;
                       Types.client := clientId; Types.details := details;
                       Types.endpoint := endpoint |}] in
  with_logs (if decide (1000 < length logs)%nat
             then drop (length logs - 1000) logs else logs) m.

(** [validateSessionToken(token)], [now] being the value of [new Date()]. *)
Definition validateSessionToken (now : Z) (token : string) (m : SecurityManager)
  : option Types.AuthSession :=
  match jwtVerify token (jwtSecret m) with
  | None => None
  | Some sessionId =>
      match activeSessions m !! sessionId with
      | None => None
      | Some session =>
          if negb (Types.isValid session) || bool_decide (now > Types.expiresAt session)
          then None else Some session
      end
  end.

(** [authHeader.substring(7)]. *)
Fixpoint substringFrom (n : nat) (s : string) : string :=
  match n, s with
  | O, _ => s
  | S n', String _ s' => substringFrom n' s'
  | S _, EmptyString => EmptyString
  end.

(** [authenticateRequest(req)]. *)
Definition authenticateRequest (now : Z) (req : Request) (m : SecurityManager)
  : AuthResult :=
  if negb (Types.SecuritySettings.requireAuth (Types.security (settings m)))
  then {| success := true; session := None; error := None |}
  else
    match authorization req with
    | Some authHeader =>
        if String.prefix "Bearer " authHeader then
          match validateSessionToken now (substringFrom 7 authHeader) m with
          | Some session =>
              {| success := true; session := Some session; error := None |}
          | None =>
              {| success := false; session := None;
                 error := Some "Invalid or expired session token" |}
          end
        else {| success := false; session := None;
                error := Some "Missing or invalid authorization header" |}
    | None => {| success := false; session := None;
                 error := Some "Missing or invalid authorization header" |}
    end.

(** [requiresAuthentication(path)]. *)
Definition requiresAuthentication (path : string) : bool :=
  negb (bool_decide (path ∈ ["/health"; "/api/docs"])).

(** [authorizeRequest(req)]. *)
Definition authorizeRequest (req : Request) : bool := true.

(** [a || b] on strings that may be missing: missing and empty are falsy. *)
Definition orElse (o : option string) (d : string) : string :=
  match o with
  | Some x => if decide (x = EmptyString) then d else x
  | None => d
  end.

(** [getClientIdentifier(req)]. *)
Definition getClientIdentifier (req : Request) : string :=
  orElse (ip req) (orElse (remoteAddress req) "unknown").

(** [validateRequest(req, res, next)].  [nextThrows] is the message of the
    error [next()] throws, if it throws. *)
Definition validateRequest (clk : Clock) (nextThrows : option string)
    (req : Request) (m : SecurityManager) : list Action * SecurityManager :=
  let clientId := getClientIdentifier req in
  let '(allowed, m) := checkRateLimit (limited clk) clientId m in
  if negb allowed then
    ([Reply 429 (-32000) "Rate limit exceeded" (Some "Too many requests")],
     logSecurityEvent (logged clk) Types.auth_failure clientId
       ("Rate limit exceeded for " +:+ path req) None m)
  else
    let authResult :=
      if requiresAuthentication (path req)
      then authenticateRequest (verified clk) req m
      else {| success := true; session := None; error := None |} in
    if negb (success authResult) then
      ([Reply 401 (-32001) "Authentication required" (error authResult)],
       logSecurityEvent (logged clk) Types.auth_failure clientId
         (default "Authentication failed" (error authResult)) None m)
    else if negb (authorizeRequest req) then
      ([Reply 403 (-32002) "Insufficient permissions" (Some "Access denied")],
       logSecurityEvent (logged clk) Types.auth_failure clientId
         ("Unauthorized access to " +:+ path req) None m)
    else
      let m :=
        logSecurityEvent (logged clk) Types.api_call clientId
          (method req +:+ " " +:+ path req) (Some (path req)) m in
      match nextThrows with
      | None => ([Next (session authResult)], m)
      | Some message =>
          ([Next (session authResult);
            Reply 500 (-32603) "Internal security error" None],
           logSecurityEvent (caught clk) Types.error clientId
             ("Security validation error: " +:+ message) None m)
      end.

(** The callback of the timer of [setupSessionCleanup]. *)
Definition sessionCleanup (now : Z) (m : SecurityManager) : SecurityManager :=
  with_sessions
    (filter (λ p, ¬ (Types.isValid p.2 = false ∨ now > Types.expiresAt p.2))
       (activeSessions m)) m.

(** The callback of the timer of [setupRateLimitCleanup]. *)
Definition rateLimitCleanup (now : Z) (m : SecurityManager) : SecurityManager :=
  with_store (filter (λ p, ¬ now > resetTime p.2) (rateLimitStore m)) m.

(** The calls made on a security manager: its public methods and the
    callbacks of its timers. *)
Inductive Call : Type :=
| ValidateRequest (clk : Clock) (nextThrows : option string) (req : Request)
| UpdateSettings (newSettings : Types.MCPPluginSettings)
| SessionCleanup (now : Z)
| RateLimitCleanup (now : Z).

Definition call (c : Call) (m : SecurityManager) : SecurityManager :=
  match c with
  | ValidateRequest clk nextThrows req => (validateRequest clk nextThrows req m).2
  | UpdateSettings newSettings => updateSettings newSettings m
  | SessionCleanup now => sessionCleanup now m
  | RateLimitCleanup now => rateLimitCleanup now m
  end.

(** The manager after a sequence of calls on a new one. *)
Definition after (settings : Types.MCPPluginSettings) (secret : string)
    (calls : list Call) : SecurityManager :=
  foldl (λ m c, call c m) (new settings secret) calls.

End WithJwt.
End Security.

(** ** The tool schema system

  [categoryDefinitions], [apiMappings] and [ToolSchemaGenerator].  The Zod
  schema of a mapping ([inputSchema]) is not part of the tables here: nothing
  below parses arguments. *)

Module Categories.

Record ToolCategory : Type := mkCategory {
  id : string;
  name : string;
  description : string;
  prefix : string;
  color : string;
  priority : Z;
  capabilities : list string
}.

End Categories.

Module Mappings.

Record APIMapping : Type := mkMapping {
  apiPath : string;
  method : string;
  description : string;
  requiresAuth : bool;
  rateLimit : option Z;
  category : string;
  tags : list string
}.

(** [getAPIsByCategory(category)] over a table of mappings:
    [Object.values(table).filter(api => api.category === category)]. *)
Definition getAPIsByCategory (table : list (string * APIMapping))
    (categoryId : string) : list APIMapping :=
  filter (λ api, category api = categoryId) table.*2.

End Mappings.

Module Generator.

(** [MCPToolDefinition.metadata]. *)
Record Metadata : Type := mkMetadata {
  version : string;
  rateLimit : option Z;
  requiresAuth : bool;
  apiPath : string;
  method : string
}.

(** [MCPToolDefinition], its schema and its handler apart. *)
Record MCPToolDefinition : Type := mkTool {
  name : string;
  description : string;
  category : string;
  tags : list string;
  metadata : Metadata
}.

(** [DOCUMENTATION_METADATA.version]. *)
Definition DOCUMENTATION_VERSION : string := "1.0.0".

Section WithTables.
(** [this.categoryMap] and [this.apiMappings], the copies the constructor
    makes of [TOOL_CATEGORIES] and [SIYUAN_API_MAPPINGS], in the order of
    their keys (none of which is an array index). *)
Context (categoryMap : list (string * Categories.ToolCategory)).
Context (apiMappings : list (string * Mappings.APIMapping)).

(** [findToolNameForAPI(apiPath)]: the first key whose mapping has that
    path. *)
Fixpoint findIn (table : list (string * Mappings.APIMapping)) (path : string)
  : option string :=
  match table with
  | [] => None
  | (toolName, mapping) :: rest =>
      if decide (Mappings.apiPath mapping = path) then Some toolName
      else findIn rest path
  end.

Definition findToolNameForAPI (path : string) : option string :=
  findIn apiMappings path.

(** [generateToolDefinition(toolName, api)]; [None] is [null]. *)
Definition generateToolDefinition (toolName : string) (api : Mappings.APIMapping)
  : option MCPToolDefinition :=
  match JsMap.get categoryMap (Mappings.category api) with
  | None => None
  | Some category =>
      Some {| name := toolName;
              description := "[" +:+ Categories.name category +:+ "] " +:+
                             Mappings.description api;
              category := Mappings.category api;
              tags := Mappings.tags api;
              metadata :=
                {| version := DOCUMENTATION_VERSION;
                   rateLimit := Mappings.rateLimit api;
                   requiresAuth := Mappings.requiresAuth api;
                   apiPath := Mappings.apiPath api;
                   method := Mappings.method api |} |}
  end.

(** The body of the inner loop of [generateAllTools].  [if (toolName)]
    fails for [null] and for the empty string; [if (tool)] fails for
    [null]. *)
Definition generateFor (api : Mappings.APIMapping) : list MCPToolDefinition :=
  match findToolNameForAPI (Mappings.apiPath api) with
  | None => []
  | Some toolName =>
      if decide (toolName = EmptyString) then []
      else
        match generateToolDefinition toolName api with
        | None => []
        | Some tool => [tool]
        end
  end.

(** [generateAllTools()], the array it returns. *)
Definition generateAllTools : list MCPToolDefinition :=
  categoryId ← categoryMap.*1;
  api ← Mappings.getAPIsByCategory apiMappings categoryId;
  generateFor api.

End WithTables.
End Generator.

(** The two tables of the repository. *)

Module Tables.
Import Categories Mappings.

Definition SIYUAN_API_MAPPINGS : list (string * APIMapping) :=
  [ ("notebook_create_new",
     mkMapping "/api/notebook/createNotebook" "POST"
       "Create a new notebook in SiYuan workspace"
       true None "notebook"
       ["create"; "notebook"; "workspace"]);
    ("notebook_remove_existing",
     mkMapping "/api/notebook/removeNotebook" "POST"
       "Remove an existing notebook from workspace"
       true None "notebook"
       ["delete"; "notebook"; "workspace"]);
    ("notebook_list_all",
     mkMapping "/api/notebook/lsNotebooks" "POST"
       "List all notebooks in the workspace"
       true None "notebook"
       ["list"; "notebook"; "workspace"]);
    ("notebook_open_existing",
     mkMapping "/api/notebook/openNotebook" "POST"
       "Open a closed notebook"
       true None "notebook"
       ["open"; "notebook"; "workspace"]);
    ("notebook_close_existing",
     mkMapping "/api/notebook/closeNotebook" "POST"
       "Close an opened notebook"
       true None "notebook"
       ["close"; "notebook"; "workspace"]);
    ("notebook_rename_existing",
     mkMapping "/api/notebook/renameNotebook" "POST"
       "Rename an existing notebook"
       true None "notebook"
       ["rename"; "notebook"; "update"]);
    ("notebook_get_config",
     mkMapping "/api/notebook/getNotebookConf" "POST"
       "Get notebook configuration settings"
       true None "notebook"
       ["config"; "notebook"; "settings"]);
    ("notebook_set_config",
     mkMapping "/api/notebook/setNotebookConf" "POST"
       "Set notebook configuration settings"
       true None "notebook"
       ["config"; "notebook"; "settings"; "update"]);
    ("filetree_list_docs",
     mkMapping "/api/filetree/listDocsByPath" "POST"
       "List documents in a specific path of the file tree"
       true None "filetree"
       ["list"; "documents"; "path"]);
    ("filetree_create_doc",
     mkMapping "/api/filetree/createDocWithMd" "POST"
       "Create a new document with markdown content"
       true None "filetree"
       ["create"; "document"; "markdown"]);
    ("filetree_rename_doc",
     mkMapping "/api/filetree/renameDoc" "POST"
       "Rename a document in the file tree"
       true None "filetree"
       ["rename"; "document"; "update"]);
    ("filetree_remove_doc",
     mkMapping "/api/filetree/removeDoc" "POST"
       "Remove a document from the file tree"
       true None "filetree"
       ["remove"; "document"; "delete"]);
    ("filetree_move_doc",
     mkMapping "/api/filetree/moveDoc" "POST"
       "Move a document to a different location"
       true None "filetree"
       ["move"; "document"; "relocate"]);
    ("filetree_get_doc",
     mkMapping "/api/filetree/getDoc" "POST"
       "Get document information and metadata"
       true None "filetree"
       ["get"; "document"; "metadata"]);
    ("filetree_search_docs",
     mkMapping "/api/filetree/searchDocs" "POST"
       "Search for documents in the file tree"
       true None "filetree"
       ["search"; "document"; "find"]);
    ("block_insert_new",
     mkMapping "/api/block/insertBlock" "POST"
       "Insert a new block at specified position"
       true None "block"
       ["insert"; "block"; "content"]);
    ("block_prepend_child",
     mkMapping "/api/block/prependBlock" "POST"
       "Prepend a block as the first child"
       true None "block"
       ["prepend"; "block"; "child"]);
    ("block_append_child",
     mkMapping "/api/block/appendBlock" "POST"
       "Append a block as the last child"
       true None "block"
       ["append"; "block"; "child"]);
    ("block_update_content",
     mkMapping "/api/block/updateBlock" "POST"
       "Update block content"
       true None "block"
       ["update"; "block"; "content"]);
    ("block_delete_existing",
     mkMapping "/api/block/deleteBlock" "POST"
       "Delete an existing block"
       true None "block"
       ["delete"; "block"; "remove"]);
    ("block_get_kramdown",
     mkMapping "/api/block/getBlockKramdown" "POST"
       "Get block content in Kramdown format"
       true None "block"
       ["get"; "block"; "kramdown"; "content"]);
    ("block_get_breadcrumb",
     mkMapping "/api/block/getBlockBreadcrumb" "POST"
       "Get block breadcrumb navigation path"
       true None "block"
       ["get"; "block"; "breadcrumb"; "navigation"]);
    ("block_get_children",
     mkMapping "/api/block/getChildBlocks" "POST"
       "Get child blocks of a parent block"
       true None "block"
       ["get"; "block"; "children"]);
    ("block_move_to_position",
     mkMapping "/api/block/moveBlock" "POST"
       "Move block to a new position"
       true None "block"
       ["move"; "block"; "position"]);
    ("block_fold_toggle",
     mkMapping "/api/block/foldBlock" "POST"
       "Toggle fold/unfold state of a block"
       true None "block"
       ["fold"; "block"; "toggle"]);
    ("block_get_tree_stat",
     mkMapping "/api/block/getBlockTreeStat" "POST"
       "Get statistics of block tree structure"
       true None "block"
       ["get"; "block"; "tree"; "statistics"]);
    ("asset_upload_file",
     mkMapping "/api/asset/upload" "POST"
       "Upload an asset file to SiYuan"
       true None "asset"
       ["upload"; "asset"; "file"; "media"]);
    ("search_fulltext_blocks",
     mkMapping "/api/search/fullTextSearchBlock" "POST"
       "Perform full-text search across blocks"
       true (Some 30) "search"
       ["search"; "fulltext"; "blocks"; "query"]);
    ("search_sql_query",
     mkMapping "/api/query/sql" "POST"
       "Execute SQL query on SiYuan database"
       true (Some 30) "search"
       ["search"; "sql"; "query"; "database"]);
    ("fs_list_files",
     mkMapping "/api/file/readDir" "POST"
       "List files and directories in a path"
       true (Some 50) "filesystem"
       ["list"; "files"; "directory"; "fs"]);
    ("fs_get_file",
     mkMapping "/api/file/getFile" "POST"
       "Get file content"
       true (Some 50) "filesystem"
       ["get"; "file"; "content"; "read"]);
    ("fs_put_file",
     mkMapping "/api/file/putFile" "POST"
       "Write content to a file"
       true (Some 50) "filesystem"
       ["put"; "file"; "write"; "content"]);
    ("fs_remove_file",
     mkMapping "/api/file/removeFile" "POST"
       "Remove a file or directory"
       true (Some 50) "filesystem"
       ["remove"; "file"; "delete"; "fs"]);
    ("export_markdown_content",
     mkMapping "/api/export/exportMdContent" "POST"
       "Export content as Markdown"
       true None "export"
       ["export"; "markdown"; "content"]);
    ("export_html_content",
     mkMapping "/api/export/exportHtml" "POST"
       "Export content as HTML"
       true None "export"
       ["export"; "html"; "content"]);
    ("export_docx_content",
     mkMapping "/api/export/exportDocx" "POST"
       "Export content as Word document"
       true None "export"
       ["export"; "docx"; "word"; "content"]);
    ("export_pdf_content",
     mkMapping "/api/export/exportPDF" "POST"
       "Export content as PDF"
       true None "export"
       ["export"; "pdf"; "content"]);
    ("system_get_conf",
     mkMapping "/api/system/getConf" "POST"
       "Get system configuration"
       true None "system"
       ["system"; "config"; "get"]);
    ("system_set_conf",
     mkMapping "/api/system/setConf" "POST"
       "Set system configuration"
       true None "system"
       ["system"; "config"; "set"; "update"]);
    ("system_get_changelog",
     mkMapping "/api/system/getChangelog" "POST"
       "Get system changelog"
       true None "system"
       ["system"; "changelog"; "history"]);
    ("system_version_info",
     mkMapping "/api/system/version" "POST"
       "Get system version information"
       true None "system"
       ["system"; "version"; "info"]);
    ("system_currenttime_info",
     mkMapping "/api/system/currentTime" "POST"
       "Get current system time"
       true None "system"
       ["system"; "time"; "current"]) ].

Definition TOOL_CATEGORIES : list (string * ToolCategory) :=
  [ ("notebook",
     mkCategory "notebook" "Notebook Management"
       "Create, manage, and configure notebooks in SiYuan workspace"
       "notebook" "#4a90e2" 1
       ["create"; "read"; "update"; "delete"; "configure"]);
    ("filetree",
     mkCategory "filetree" "File Tree Operations"
       "Navigate and manipulate the hierarchical file structure"
       "filetree" "#7ed321" 2
       ["navigate"; "create"; "move"; "rename"; "delete"]);
    ("block",
     mkCategory "block" "Block Operations"
       "Create, edit, and manipulate content blocks (paragraphs, headings, etc.)"
       "block" "#f5a623" 3
       ["create"; "read"; "update"; "delete"; "move"; "format"]);
    ("asset",
     mkCategory "asset" "Asset Management"
       "Upload, manage, and organize media assets and attachments"
       "asset" "#bd10e0" 4
       ["upload"; "organize"; "reference"]);
    ("search",
     mkCategory "search" "Search & Query"
       "Full-text search and SQL queries across workspace content"
       "search" "#9013fe" 5
       ["fulltext"; "sql"; "filter"; "sort"]);
    ("filesystem",
     mkCategory "filesystem" "File System"
       "Direct file system operations for advanced use cases"
       "fs" "#50e3c2" 6
       ["read"; "write"; "list"; "remove"]);
    ("export",
     mkCategory "export" "Export & Transform"
       "Export content to various formats and transform data"
       "export" "#b8e986" 7
       ["markdown"; "html"; "pdf"; "transform"]);
    ("system",
     mkCategory "system" "System & Utility"
       "System configuration, utilities, and workspace management"
       "system" "#8b572a" 8
       ["configure"; "monitor"; "utility"; "admin"]) ].

(** [TOTAL_API_COUNT]. *)
Definition TOTAL_API_COUNT : nat := length SIYUAN_API_MAPPINGS.

End Tables.

(** ** [SiYuanAPIAdapter]

  The adapter the tool and resource managers are built on.  The HTTP client
  is Axios: what a request resolves with, or the message of the error it
  throws, is an input. *)

Module Adapter.

(** The value [getAPICallForTool] returns: a method and a path, or, for a
    name that [legacyMappings] inherits from [Object.prototype], a value
    with neither field. *)
Inductive ApiCall : Type :=
| Mapped (method path : string)
| Inherited.

(** [apiCall.method] and [apiCall.path]; [None] is [undefined]. *)
Definition callMethod (c : ApiCall) : option string :=
  match c with Mapped m _ => Some m | Inherited => None end.

Definition callPath (c : ApiCall) : option string :=
  match c with Mapped _ p => Some p | Inherited => None end.

(** The fallback table of [getAPICallForTool]. *)
Definition legacyMappings : list (string * ApiCall) :=
  [ ("siyuan_create_notebook", Mapped "POST" "/api/notebook/createNotebook");
    ("siyuan_list_notebooks", Mapped "POST" "/api/notebook/lsNotebooks");
    ("siyuan_get_notebook_conf", Mapped "POST" "/api/notebook/getNotebookConf");
    ("siyuan_get_block_kramdown", Mapped "POST" "/api/block/getBlockKramdown");
    ("siyuan_insert_block", Mapped "POST" "/api/block/insertBlock");
    ("siyuan_fulltext_search_block", Mapped "POST" "/api/search/fullTextSearchBlock");
    ("siyuan_sql_query", Mapped "POST" "/api/query/sql") ].

(** The names of the properties of [Object.prototype], which an object
    literal answers for, with a truthy value, when it has no property of its
    own under the name. *)
Definition objectPrototype : list string :=
  [ "constructor"; "__defineGetter__"; "__defineSetter__"; "hasOwnProperty";
    "__lookupGetter__"; "__lookupSetter__"; "isPrototypeOf";
    "propertyIsEnumerable"; "toString"; "valueOf"; "__proto__";
    "toLocaleString" ].

(** [getAPICallForTool(toolName)]; [None] is [null]. *)
Definition getAPICallForTool (toolName : string) : option ApiCall :=
  let generatedTools :=
    Generator.generateAllTools Tables.TOOL_CATEGORIES Tables.SIYUAN_API_MAPPINGS in
  match List.find (λ t, bool_decide (Generator.name t = toolName)) generatedTools with
  | Some tool =>
      Some (Mapped (Generator.method (Generator.metadata tool))
                   (Generator.apiPath (Generator.metadata tool)))
  | None =>
      match JsMap.get legacyMappings toolName with
      | Some apiCall => Some apiCall
      | None =>
          if bool_decide (toolName ∈ objectPrototype) then Some Inherited
          else None
      end
  end.

Section WithHttp.
Context {B R : Type}.
(** [this.httpClient.request({ method, url, data })] for a method and a
    path: the body of the HTTP response, or the message of the error thrown.
    The arguments of the tool travel as [data] and are part of what the input
    stands for. *)
Context (request : option string → option string → Upstream B).
(** [response.data] on the body of the response: the field, or the message
    of the [TypeError] of reading a field of [null] or [undefined]. *)
Context (dataOf : B → Upstream R).

(** [makeAPICall(method, path, data)]. *)
Definition makeAPICall (method path : option string) : Upstream B :=
  match request method path with
  | Resolved body => Resolved body
  | Rejected message => Rejected ("SiYuan API error: " +:+ message)
  end.

(** [callTool(toolName, args)]. *)
Definition callTool (toolName : string) : Upstream R :=
  match getAPICallForTool toolName with
  | None => Rejected ("Unknown tool: " +:+ toolName)
  | Some apiCall =>
      match makeAPICall (callMethod apiCall) (callPath apiCall) with
      | Resolved response =>
          match dataOf response with
          | Resolved data => Resolved data
          | Rejected message => Rejected ("API call failed: " +:+ message)
          end
      | Rejected message => Rejected ("API call failed: " +:+ message)
      end
  end.

(** [readResource(uri)]. *)
Definition readResource (u : string) : Upstream R :=
  if decide (u = "siyuan://notebooks") then callTool "siyuan_list_notebooks"
  else if decide (u = "siyuan://workspace") then callTool "siyuan_get_conf"
  else Rejected ("Unknown resource URI: " +:+ u).

End WithHttp.
End Adapter.

(** ** The managers on the adapter

  [EnhancedMCPServer] builds [SiYuanToolsManager] and
  [SiYuanResourcesManager] on one adapter and one cache manager: the
  [apiAdapter.callTool] of a handler is [Adapter.callTool], with the tool
  name the handler passes. *)

Module Server.
Section WithHttp.
Context {B R V : Type}.
Context (request : option string → option string → Upstream B).
Context (dataOf : B → Upstream R).
Context (resultId insertedId : R → option string).

Abbreviation callTool := (Adapter.callTool request dataOf).
Abbreviation Handler :=
  (Tools.Args → Cache.CacheManager V → Tools.ToolResponse * Cache.CacheManager V).

Definition createDocument : Handler :=
  λ args s, Tools.createDocument resultId args (callTool "siyuan_create_doc_with_md") s.
Definition updateDocument : Handler :=
  λ args s, Tools.updateDocument args (callTool "siyuan_update_block") s.
Definition deleteDocument : Handler :=
  λ args s, Tools.deleteDocument args (callTool "siyuan_remove_doc") s.
Definition insertBlock : Handler :=
  λ args s, Tools.insertBlock insertedId args (callTool "siyuan_insert_block") s.
Definition updateBlock : Handler :=
  λ args s, Tools.updateBlock args (callTool "siyuan_update_block") s.
Definition deleteBlock : Handler :=
  λ args s, Tools.deleteBlock args (callTool "siyuan_delete_block") s.
Definition moveBlock : Handler :=
  λ args s, Tools.moveBlock args (callTool "siyuan_move_block") s.

(** The write tools as [setupTools] registers them. *)
Definition writeTools : list (string * Handler) :=
  [ ("create-document", createDocument);
    ("update-document", updateDocument);
    ("delete-document", deleteDocument);
    ("insert-block", insertBlock);
    ("update-block", updateBlock);
    ("delete-block", deleteBlock);
    ("move-block", moveBlock) ].

End WithHttp.

Section Resources.
Context {B R : Type}.
Context (request : option string → option string → Upstream B).
Context (dataOf : B → Upstream R).
Context (jsonPretty : Resources.Data R → string)
        (jsonStringifyLength : Resources.Data R → option N).
Context (kramdownOf : R → string) (notebooksLength : R → Z).
Context (parseInt : string → option Z) (numberToString : option Z → string).
Context (typeErrorMessage : string).

(** The name a resource handler passes to its first [callTool], and to its
    second when it has one. *)
Definition upstreamTool (req : Resources.Request) : string * option string :=
  match req with
  | Resources.Notebook _ => ("siyuan_get_notebook_conf", None)
  | Resources.Notebooks => ("siyuan_list_notebooks", None)
  | Resources.Document _ => ("siyuan_get_block_kramdown", None)
  | Resources.Block _ => ("siyuan_get_block_kramdown", None)
  | Resources.Search _ _ _ => ("siyuan_fulltext_search_block", None)
  | Resources.Workspace => ("siyuan_get_conf", Some "siyuan_list_notebooks")
  end.

(** A resource read as [setupResources] registers it. *)
Definition read (req : Resources.Request) (clk : Resources.Clock) (iso u : string)
    (s : Cache.CacheManager (Resources.Data R))
  : Resources.ResourceResponse * Cache.CacheManager (Resources.Data R) :=
  let up := Adapter.callTool request dataOf (upstreamTool req).1 in
  let up' :=
    match (upstreamTool req).2 with
    | Some toolName => Adapter.callTool request dataOf toolName
    | None => up
    end in
  Resources.handle jsonPretty jsonStringifyLength kramdownOf notebooksLength
    parseInt numberToString typeErrorMessage req clk iso u up up' s.

End Resources.
End Server.

(** ** Sample values

    Values for concrete runs: a JavaScript integer and the string
    ['x'.repeat(count)], with the length of their JSON text. *)

Module Sample.

Inductive Value : Type :=
| Num (n : Z)
| Xs (count : N).

Definition jsonStringifyLength (v : Value) : option N :=
  match v with
  | Num n => Some (N.of_nat (String.length (NilZero.string_of_int (Z.to_int n))))
  | Xs count => Some (count + 2)%N
  end.

Definition set := @Cache.set Value jsonStringifyLength.
Definition setAll := @Cache.setAll Value jsonStringifyLength.

End Sample.

(** ** Notions used in the statements about eviction and budgets *)

(** The keys in [ks] evicted one after the other. *)
Definition evictAll {V : Type} (ks : list string) (s : Cache.CacheManager V)
  : Cache.CacheManager V :=
  foldl (λ s k, Cache.evict k s) s ks.

(** The array [evictLeastRecentlyUsed] sorts and the number of entries it
    removes. *)
Definition lruOrder {V : Type} (s : Cache.CacheManager V)
  : list (string * Cache.CacheEntry V) :=
  JsArray.sort (λ a b, Cache.lastAccessed a.2 - Cache.lastAccessed b.2) (Cache.cache s).

Definition toRemove {V : Type} (s : Cache.CacheManager V) : nat :=
  Z.to_nat (Z.max 1 (Z.of_nat (length (Cache.cache s)) / 10)).

(** The sum of the sizes of the entries. *)
Definition total {V : Type} (m : list (string * Cache.CacheEntry V)) : Z :=
  foldr (λ p acc, Cache.size p.2 + acc) 0 m.

Definition sized {V : Type} (m : list (string * Cache.CacheEntry V)) : Prop :=
  Forall (λ p, 0 ≤ Cache.size p.2) m.

(** The invariant of a cache built by [set] calls: keys stored once, no
    negative size, at most [maxSize] entries. *)
Definition counted {V : Type} (s : Cache.CacheManager V) : Prop :=
  JsMap.wf (Cache.cache s) ∧ sized (Cache.cache s) ∧
  Z.of_nat (length (Cache.cache s)) ≤ Cache.maxSize (Cache.config s).

(** ** Notions used in the statements about the SSE gate *)

Definition authenticated (cs : Sse.SSEConnectionState) : bool :=
  Sse.authenticated (Sse.connection cs).

(** A flag computed from [authenticated] and [isAlive] alone, and one
    computed from [isAlive] alone. *)
Definition stable (f : Sse.SSEConnectionState → bool) : Prop :=
  ∀ cs1 cs2, authenticated cs1 = authenticated cs2 →
             Sse.isAlive cs1 = Sse.isAlive cs2 → f cs1 = f cs2.

Definition blind (f : Sse.SSEConnectionState → bool) : Prop :=
  ∀ cs1 cs2, Sse.isAlive cs1 = Sse.isAlive cs2 → f cs1 = f cs2.

(** [o'] holds no connection state but one that [o] held with the same
    flag. *)
Definition inherits (f : Sse.SSEConnectionState → bool)
    (o o' : option Sse.SSEConnectionState) : Prop :=
  ∀ cs', o' = Some cs' → ∃ cs, o = Some cs ∧ f cs' = f cs.

(** ** Sample runs *)

(** Scenario B with the clock left open: [set("a",1)] at [t1], [set("b",2)]
    at [t2], [get("a")] reading the clock at [t3] and [t3'], [set("c",3)] at
    [t4], on a new cache with [maxSize = 2]. *)
Definition scenarioB (t1 t2 t3 t3' t4 : Z) : Cache.CacheManager Sample.Value :=
  let s := Cache.new {| Cache.maxSize := 2; Cache.defaultTtl := 300000;
                        Cache.maxMemoryMB := 50; Cache.cleanupInterval := 60000 |} in
  let s := (Sample.set t1 "a" (Sample.Num 1) None s).2 in
  let s := (Sample.set t2 "b" (Sample.Num 2) None s).2 in
  let s := (Cache.get t3 t3' "a" s).2 in
  (Sample.set t4 "c" (Sample.Num 3) None s).2.

(** The cache of Scenario B before its last call: "a" and "b" fill it. *)
Definition sampleTwo : Cache.CacheManager Sample.Value :=
  let s := Cache.new {| Cache.maxSize := 2; Cache.defaultTtl := 300000;
                        Cache.maxMemoryMB := 50; Cache.cleanupInterval := 60000 |} in
  let s := (Sample.set 0 "a" (Sample.Num 1) None s).2 in
  let s := (Sample.set 1 "b" (Sample.Num 2) None s).2 in
  (Cache.get 2 2 "a" s).2.

(** A cache of twelve entries, accessed at times 1 to 12, with
    [maxSize = 12]. *)
Definition sampleFull : Cache.CacheManager Sample.Value :=
  Sample.setAll
    ((λ i : Z, (i, "k" +:+ NilZero.string_of_int (Z.to_int i), Sample.Num i, None))
       <$> [1; 2; 3; 4; 5; 6; 7; 8; 9; 10; 11; 12])
    (Cache.new {| Cache.maxSize := 12; Cache.defaultTtl := 300000;
                  Cache.maxMemoryMB := 50; Cache.cleanupInterval := 60000 |}).

(** A run of the block resource with stand-ins for the JSON functions: the
    block is fetched and cached at time 0, and read again at time 40000, when
    its 30 seconds have passed and the upstream call times out. *)
Definition sampleHandle :=
  Resources.handle (R := string) (λ _, "{}") (λ _, Some 40%N) (λ r, r) (λ _, 0)
    (λ _, None) (λ _, "NaN") "undefined is not iterable".

Definition sampleCached : Cache.CacheManager (Resources.Data string) :=
  (sampleHandle (Resources.Block "20240101-blk") (Resources.mkClock 0 0 0)
     "2024-01-01T00:00:00.000Z" "siyuan://block/20240101-blk"
     (Resolved "text") (Resolved "text") (Cache.new Cache.DEFAULT_CACHE_CONFIG)).2.

Definition sampleFailed :=
  sampleHandle (Resources.Block "20240101-blk") (Resources.mkClock 40000 40000 40001)
    "2024-01-01T00:00:40.000Z" "siyuan://block/20240101-blk"
    (Rejected "API call failed: timeout of 30000ms exceeded")
    (Rejected "API call failed: timeout of 30000ms exceeded") sampleCached.

(** A run of the server, with the same stand-ins and a SiYuan server that
    answers every request with [body], the [data] of a response being the
    response.  The document 20240101-doc is read as a document resource at
    time 0 and as a block resource at time 10, which caches its text under
    [document:20240101-doc] and [block:20240101-doc]; a block is then
    inserted into it with insert-block, and the document resource is read
    again at time 1000, when the text of the document has changed. *)
Definition sampleRead (body : string) :=
  Server.read (B := string) (R := string)
    (λ _ _, Resolved body) (λ response, Resolved response)
    (λ _, "{}") (λ _, Some 40%N) (λ r, r) (λ _, 0) (λ _, None) (λ _, "NaN")
    "undefined is not iterable".

Definition sampleServed : Cache.CacheManager (Resources.Data string) :=
  let s := Cache.new Cache.DEFAULT_CACHE_CONFIG in
  let s := (sampleRead "old text" (Resources.Document "20240101-doc")
              (Resources.mkClock 0 0 0) "2024-01-01T00:00:00.000Z"
              "siyuan://document/20240101-doc" s).2 in
  (sampleRead "old text" (Resources.Block "20240101-doc")
     (Resources.mkClock 10 10 10) "2024-01-01T00:00:00.010Z"
     "siyuan://block/20240101-doc" s).2.

Definition sampleInsertArgs : Tools.Args :=
  {| Tools.notebook := "nb"; Tools.path := "/20240101-doc.sy";
     Tools.markdown := "text"; Tools.documentId := "20240101-doc";
     Tools.id := "20240101-blk"; Tools.dataType := "markdown";
     Tools.data := "a new block"; Tools.parentID := "20240101-doc";
     Tools.previousID := None; Tools.name := "n" |}.

Definition sampleInsert :=
  Server.insertBlock (B := string) (R := string)
    (λ _ _, Resolved "[]") (λ response, Resolved response) (λ _, None)
    sampleInsertArgs sampleServed.

Definition sampleReread :=
  sampleRead "old text and a new block" (Resources.Document "20240101-doc")
    (Resources.mkClock 1000 1000 1000) "2024-01-01T00:00:01.000Z"
    "siyuan://document/20240101-doc" sampleInsert.2.

(** ** Runs of a cache manager *)

(** The calls made on a cache manager: its public methods and the callback
    of its cleanup timer. *)
Inductive CacheCall (V : Type) : Type :=
| CallGet (now now' : Z) (k : string)
| CallSet (now : Z) (k : string) (v : V) (t : option Z)
| CallHas (now : Z) (k : string)
| CallDelete (k : string)
| CallClear
| CallCleanup (clock : nat → Z).
Arguments CallGet {V}.
Arguments CallSet {V}.
Arguments CallHas {V}.
Arguments CallDelete {V}.
Arguments CallClear {V}.
Arguments CallCleanup {V}.

Definition cacheCall {V : Type} (jsonStringifyLength : V → option N)
    (c : CacheCall V) (s : Cache.CacheManager V) : Cache.CacheManager V :=
  match c with
  | CallGet now now' k => (Cache.get now now' k s).2
  | CallSet now k v t => (Cache.set jsonStringifyLength now k v t s).2
  | CallHas now k => (Cache.has now k s).2
  | CallDelete k => (Cache.delete k s).2
  | CallClear => Cache.clear s
  | CallCleanup clock => Cache.cleanup clock s
  end.

(** The cache manager after a sequence of calls on a new one. *)
Definition cacheAfter {V : Type} (jsonStringifyLength : V → option N)
    (cfg : Cache.CacheConfig) (calls : list (CacheCall V)) : Cache.CacheManager V :=
  foldl (λ s c, cacheCall jsonStringifyLength c s) (Cache.new cfg) calls.

(** The [get] calls of a run made after its last [clear]. *)
Fixpoint getsSinceClear {V : Type} (calls : list (CacheCall V)) (n : Z) : Z :=
  match calls with
  | [] => n
  | CallGet _ _ _ :: rest => getsSinceClear rest (n + 1)
  | CallClear :: rest => getsSinceClear rest 0
  | _ :: rest => getsSinceClear rest n
  end.

(** The keys of the entries a [cleanup] finds expired, [entries] being the
    entries left to visit at turn [i] of its loop. *)
Fixpoint expiredKeys {V : Type} (clock : nat → Z) (i : nat)
    (entries : list (string * Cache.CacheEntry V)) : list string :=
  match entries with
  | [] => []
  | (k, entry) :: rest =>
      if Cache.isExpired (clock i) entry
      then k :: expiredKeys clock (S i) rest
      else expiredKeys clock (S i) rest
  end.

(** ** Notions used in the statements about the SSE transport *)

(** Whether a [sendMessage] to the connection writes: the connection is
    registered and alive and its stream takes the write. *)
Definition sendable (envs : string → Sse.Env) (t : Sse.SSETransport) (c : string)
  : bool :=
  match Sse.connections t !! c with
  | Some cs => Sse.isAlive cs && Sse.writable (envs c)
  | None => false
  end.

(** The connection state a successful write leaves: [lastActivity] is the
    clock of the write. *)
Definition refreshed (env : Sse.Env) (cs : Sse.SSEConnectionState)
  : Sse.SSEConnectionState :=
  Sse.with_connection (Sse.active env (Sse.connection cs)) cs.

(** The state of a connection after a [sendMessage] addressed to it. *)
Definition sent (env : Sse.Env) (o : option Sse.SSEConnectionState)
  : option Sse.SSEConnectionState :=
  match o with
  | Some cs =>
      if Sse.isAlive cs then
        if Sse.writable env then Some (refreshed env cs) else None
      else Some cs
  | None => None
  end.

(** ** Notions used in the statements about the security manager *)

Abbreviation limitOf m :=
  (Types.RateLimiting.requestsPerMinute (Types.rateLimiting (Security.settings m))).
Abbreviation limiting m :=
  (Types.RateLimiting.enabled (Types.rateLimiting (Security.settings m))).

(** The reply of [validateRequest] to a request over the limit. *)
Definition tooManyRequests : Security.Action :=
  Security.Reply 429 (-32000) "Rate limit exceeded" (Some "Too many requests").

(** A run of [validateRequest] calls, each with its clock, the outcome of
    its [next] and its request, with what each call did in the order of the
    calls. *)
Fixpoint validateAll (jwtVerify : string → string → option string)
    (requests : list (Security.Clock * option string * Security.Request))
    (m : Security.SecurityManager)
  : list (list Security.Action) * Security.SecurityManager :=
  match requests with
  | [] => ([], m)
  | (clk, nextThrows, req) :: rest =>
      let '(actions, m) := Security.validateRequest jwtVerify clk nextThrows req m in
      let '(outcomes, m) := validateAll jwtVerify rest m in
      (actions :: outcomes, m)
  end.

(** ** Runs of the cache users of the server *)

(** The calls that reach the cache manager of the server: a read of one of
    the six resources and a call of one of the seven write tools, by the name
    it is registered under. *)
Inductive ServerCall : Type :=
| ReadResource (req : Resources.Request) (clk : Resources.Clock) (iso u : string)
| CallTool (tool : string) (args : Tools.Args).

Section ServerRuns.
Context {B R : Type}.
Context (request : option string → option string → Upstream B).
Context (dataOf : B → Upstream R).
Context (resultId insertedId : R → option string).
Context (jsonPretty : Resources.Data R → string)
        (jsonStringifyLength : Resources.Data R → option N).
Context (kramdownOf : R → string) (notebooksLength : R → Z).
Context (parseInt : string → option Z) (numberToString : option Z → string).
Context (typeErrorMessage : string).

Definition serverRead :=
  Server.read request dataOf jsonPretty jsonStringifyLength kramdownOf
    notebooksLength parseInt numberToString typeErrorMessage.

(** The cache manager after one call; a tool name that is not registered
    reaches no handler. *)
Definition serverCall (c : ServerCall) (s : Cache.CacheManager (Resources.Data R))
  : Cache.CacheManager (Resources.Data R) :=
  match c with
  | ReadResource req clk iso u => (serverRead req clk iso u s).2
  | CallTool tool args =>
      match JsMap.get (Server.writeTools request dataOf resultId insertedId) tool with
      | Some handler => (handler args s).2
      | None => s
      end
  end.

(** The cache manager of a server after a sequence of calls, from the one
    its constructor builds. *)
Definition serverAfter (cfg : Cache.CacheConfig) (calls : list ServerCall)
  : Cache.CacheManager (Resources.Data R) :=
  foldl (λ s c, serverCall c s) (Cache.new cfg) calls.

End ServerRuns.

(** Membership in an explicit list. *)
Ltac in_list := repeat first [apply list_elem_of_here | apply list_elem_of_further].

(** The cache holds no entry under the key of the workspace resource. *)
Abbreviation noWorkspaceEntry s :=
  (JsMap.get (Cache.cache s) "workspace:info" = None).

(** ** Tactics for concrete runs *)

(** Runs one operation on a concrete cache whose timestamps are
    variables; the comparisons are settled by [lia] from the context. *)
Ltac run_cache :=
  repeat (cbv -[Z.sub Z_le_dec Z_ge_dec Z_gt_dec Z_lt_dec];
          match goal with
          | |- context [Z_le_dec ?a ?b] => destruct (Z_le_dec a b); try lia
          | |- context [Z_ge_dec ?a ?b] => destruct (Z_ge_dec a b); try lia
          | |- context [Z_gt_dec ?a ?b] => destruct (Z_gt_dec a b); try lia
          | |- context [Z_lt_dec ?a ?b] => destruct (Z_lt_dec a b); try lia
          end);
  cbv -[Z.sub Z_le_dec Z_ge_dec Z_gt_dec Z_lt_dec].

(** The innermost operation of the goal, whose cache is already explicit,
    is run and replaced by its outcome. *)
Ltac step_cache :=
  match goal with
  | |- context [Sample.set ?t ?k ?v ?o (Cache.mkCache ?m ?cfg ?st)] =>
      let H := fresh in
      eassert (H : Sample.set t k v o (Cache.mkCache m cfg st) = (_, _))
        by (run_cache; reflexivity);
      rewrite H; cbn [fst snd]; clear H
  | |- context [Cache.get ?t ?t' ?k (Cache.mkCache ?m ?cfg ?st)] =>
      let H := fresh in
      eassert (H : Cache.get t t' k (Cache.mkCache m cfg st) = (_, _))
        by (run_cache; reflexivity);
      rewrite H; cbn [fst snd]; clear H
  end.

(** * Properties *)

(** ** The insertion-ordered map *)

Section JsMapFacts.
Context {A : Type}.
Implicit Types (m : list (string * A)) (k : string) (a : A).

Lemma JsMap_get_set_eq m k a : JsMap.get (JsMap.set m k a) k = Some a.
Proof.
  induction m as [|[k' a'] m IH]; simpl.
  - by rewrite decide_True.
  - destruct (decide (k' = k)); simpl.
    + by rewrite decide_True.
    + by rewrite decide_False.
Qed.

Lemma JsMap_get_set_ne m k k' a :
  k ≠ k' → JsMap.get (JsMap.set m k a) k' = JsMap.get m k'.
Proof.
  intros Hne. induction m as [|[k0 a0] m IH]; simpl.
  - by rewrite decide_False.
  - destruct (decide (k0 = k)) as [->|]; simpl.
    + by rewrite !decide_False.
    + by rewrite IH.
Qed.

Lemma JsMap_get_delete_eq m k : JsMap.get (JsMap.delete m k) k = None.
Proof.
  unfold JsMap.delete. induction m as [|[k' a'] m IH]; [done|].
  rewrite filter_cons. simpl. destruct (decide (k' ≠ k)); simpl; [|done].
  by rewrite decide_False.
Qed.

Lemma JsMap_get_delete_ne m k k' :
  k ≠ k' → JsMap.get (JsMap.delete m k) k' = JsMap.get m k'.
Proof.
  intros Hne. unfold JsMap.delete. induction m as [|[k0 a0] m IH]; [done|].
  rewrite filter_cons. simpl. destruct (decide (k0 ≠ k)) as [|Heq]; simpl.
  - by rewrite IH.
  - apply dec_stable in Heq as ->. by rewrite decide_False.
Qed.

Lemma JsMap_get_Some_elem m k a : JsMap.get m k = Some a → (k, a) ∈ m.
Proof.
  induction m as [|[k' a'] m IH]; simpl; [done|].
  destruct (decide (k' = k)) as [->|]; intros H.
  - injection H as ->. left.
  - right. auto.
Qed.

Lemma JsMap_get_None m k : JsMap.get m k = None ↔ k ∉ JsMap.keys m.
Proof.
  unfold JsMap.keys. induction m as [|[k' a'] m IH]; simpl.
  - split; [intros _; apply not_elem_of_nil | done].
  - rewrite not_elem_of_cons. destruct (decide (k' = k)) as [->|].
    + split; [done | intros [[] _]; done].
    + rewrite IH. split; [by split | by intros [_ ?]].
Qed.

Lemma JsMap_get_is_Some m k : is_Some (JsMap.get m k) ↔ k ∈ JsMap.keys m.
Proof.
  rewrite <-not_eq_None_Some, JsMap_get_None.
  split; [apply dec_stable | auto].
Qed.

Lemma JsMap_elem_get m k a :
  JsMap.wf m → (k, a) ∈ m → JsMap.get m k = Some a.
Proof.
  unfold JsMap.wf, JsMap.keys. induction m as [|[k' a'] m IH]; simpl.
  - intros _ H. by apply elem_of_nil in H.
  - rewrite NoDup_cons. intros [Hk Hm] [H|H]%elem_of_cons.
    + injection H as -> ->. by rewrite decide_True.
    + destruct (decide (k' = k)) as [->|]; [|auto].
      destruct Hk. apply list_elem_of_fmap. by exists (k, a).
Qed.

Lemma JsMap_keys_delete m k :
  JsMap.keys (JsMap.delete m k) = filter (λ k', k' ≠ k) (JsMap.keys m).
Proof.
  unfold JsMap.keys, JsMap.delete. induction m as [|[k' a'] m IH]; [done|].
  rewrite fmap_cons, !filter_cons. simpl.
  destruct (decide (k' ≠ k)); [rewrite fmap_cons; f_equal|]; apply IH.
Qed.

Lemma JsMap_wf_delete m k : JsMap.wf m → JsMap.wf (JsMap.delete m k).
Proof. unfold JsMap.wf. rewrite JsMap_keys_delete. apply NoDup_filter. Qed.

Lemma JsMap_keys_set m k a :
  JsMap.keys (JsMap.set m k a) =
  if decide (k ∈ JsMap.keys m) then JsMap.keys m else JsMap.keys m ++ [k].
Proof.
  unfold JsMap.keys. induction m as [|[k' a'] m IH].
  - destruct (decide _) as [H|]; [by apply elem_of_nil in H | done].
  - cbn [JsMap.set]. destruct (decide (k' = k)) as [->|Hne].
    + rewrite !fmap_cons. cbn [fst]. rewrite decide_True by left. done.
    + rewrite !fmap_cons. cbn [fst]. rewrite IH.
      destruct (decide (k ∈ m.*1)) as [H1|H1].
      * rewrite decide_True by (by right). done.
      * rewrite decide_False; [done|]. intros [->|?]%elem_of_cons; done.
Qed.

Lemma JsMap_wf_set m k a : JsMap.wf m → JsMap.wf (JsMap.set m k a).
Proof.
  unfold JsMap.wf. rewrite JsMap_keys_set. destruct (decide _); [done|].
  intros H. apply NoDup_app. split_and!; [done | | apply NoDup_singleton].
  intros x Hx ->%list_elem_of_singleton. done.
Qed.

Lemma JsMap_length_set m k a :
  length (JsMap.set m k a) =
  if decide (k ∈ JsMap.keys m) then length m else S (length m).
Proof.
  rewrite <-!(length_fmap fst). change (length (JsMap.keys (JsMap.set m k a)) =
    if decide (k ∈ JsMap.keys m) then length (JsMap.keys m)
    else S (length (JsMap.keys m))).
  rewrite JsMap_keys_set. destruct (decide _); [done|].
  rewrite length_app. simpl. lia.
Qed.

Lemma JsMap_delete_subseteq m k : JsMap.delete m k ⊆ m.
Proof. intros p. unfold JsMap.delete. rewrite list_elem_of_filter. by intros [_ ?]. Qed.

Lemma JsMap_delete_absent m k : k ∉ JsMap.keys m → JsMap.delete m k = m.
Proof.
  unfold JsMap.keys, JsMap.delete. induction m as [|[k' a'] m IH]; [done|].
  rewrite fmap_cons, not_elem_of_cons. intros [Hne Hm].
  rewrite filter_cons. simpl. rewrite decide_True by done. by rewrite IH.
Qed.

End JsMapFacts.

(** ** Reading the cache *)

Section CacheReads.
Context {V : Type}.
Implicit Types (s : Cache.CacheManager V) (k : string) (entry : Cache.CacheEntry V).

(** C3.  TTL expiry on read.  For an entry stored under [k]: when its age
    exceeds its TTL ([now - timestamp > ttl]), [get(k)] returns absent,
    the entry is gone from the map afterwards and the miss counter has gone
    up by one (the hit counter is unchanged), whatever sweeps have or have
    not run; when the entry is not expired, [get(k)] returns its value and
    the hit counter has gone up by one (the miss counter is unchanged). *)
Theorem get_expiry_on_read s k entry now now' :
  JsMap.get (Cache.cache s) k = Some entry →
  let r := Cache.get now now' k s in
  (now - Cache.timestamp entry > Cache.ttl entry →
     r.1 = None ∧
     JsMap.get (Cache.cache r.2) k = None ∧
     Cache.misses (Cache.stats r.2) = Cache.misses (Cache.stats s) + 1 ∧
     Cache.hits (Cache.stats r.2) = Cache.hits (Cache.stats s)) ∧
  (¬ now - Cache.timestamp entry > Cache.ttl entry →
     r.1 = Some (Cache.value entry) ∧
     JsMap.get (Cache.cache r.2) k = Some (Cache.touch now' entry) ∧
     Cache.hits (Cache.stats r.2) = Cache.hits (Cache.stats s) + 1 ∧
     Cache.misses (Cache.stats r.2) = Cache.misses (Cache.stats s)).
Proof.
  intros Hget r. subst r. unfold Cache.get. rewrite Hget.
  unfold Cache.isExpired. split; intros Hage.
  - rewrite bool_decide_eq_true_2 by done. simpl.
    split_and!; [done | apply JsMap_get_delete_eq | done | done].
  - rewrite bool_decide_eq_false_2 by done. simpl.
    split_and!; [done | apply JsMap_get_set_eq | done | done].
Qed.

(** A read leaves the entries of the other keys as they were. *)
Lemma get_other_keys s k k' now now' :
  k ≠ k' →
  JsMap.get (Cache.cache (Cache.get now now' k s).2) k' = JsMap.get (Cache.cache s) k'.
Proof.
  intros Hne. unfold Cache.get. destruct (JsMap.get (Cache.cache s) k) as [entry|]; [|done].
  destruct (Cache.isExpired now entry); simpl.
  - by apply JsMap_get_delete_ne.
  - by apply JsMap_get_set_ne.
Qed.

(** C9.  [has] only observes.  [has(k)] is true exactly when an entry is
    stored under [k] and is not expired, and the cache manager after the call
    is the one before it: no counter, no [accessCount] or [lastAccessed] has
    changed and no entry is removed, expired or not. *)
Theorem has_observation_only s k now :
  (Cache.has now k s).2 = s ∧
  ((Cache.has now k s).1 = true ↔
   ∃ entry, JsMap.get (Cache.cache s) k = Some entry ∧
            ¬ now - Cache.timestamp entry > Cache.ttl entry).
Proof.
  unfold Cache.has. destruct (JsMap.get (Cache.cache s) k) as [entry|] eqn:Hget; simpl.
  - split; [done|]. unfold Cache.isExpired. rewrite negb_true_iff, bool_decide_eq_false.
    split.
    + intros H. by exists entry.
    + by intros (entry' & [= <-] & H).
  - split; [done|]. split; [done|]. by intros (entry & ? & _).
Qed.

End CacheReads.

(** Scenario A: an entry stored at time 0 with a TTL of 1000 is absent at
    1100 and served at 1000. *)
Lemma get_expiry_on_read_witness :
  let s : Cache.CacheManager Sample.Value :=
    (Sample.set 0 "doc:1" (Sample.Num 7) (Some 1000)
       (Cache.new Cache.DEFAULT_CACHE_CONFIG)).2 in
  (Cache.get 1100 1100 "doc:1" s).1 = None ∧
  (Cache.get 1000 1000 "doc:1" s).1 = Some (Sample.Num 7).
Proof.
  intros s.
  pose proof (get_expiry_on_read s "doc:1"
    {| Cache.key := "doc:1"; Cache.value := Sample.Num 7; Cache.timestamp := 0;
       Cache.ttl := 1000; Cache.accessCount := 1; Cache.lastAccessed := 0;
       Cache.size := 2 |} 1100 1100 eq_refl) as [Hexpired _].
  pose proof (get_expiry_on_read s "doc:1"
    {| Cache.key := "doc:1"; Cache.value := Sample.Num 7; Cache.timestamp := 0;
       Cache.ttl := 1000; Cache.accessCount := 1; Cache.lastAccessed := 0;
       Cache.size := 2 |} 1000 1000 eq_refl) as [_ Hfresh].
  split.
  - apply Hexpired. simpl. lia.
  - apply Hfresh. simpl. lia.
Defined.

(** ** The session registry *)

Section Sessions.
Context {Body : Type} (isInitializeRequest : Body → bool).
Implicit Types (sessions : gmap string Http.SessionInfo) (sid : string).

(** C5.  Unknown-session rejection.  A POST whose session header names a
    session that is not in the registry, or that has no session header (a
    missing or empty value) and whose body is not an initialization request,
    is answered with status 400 and a JSON-RPC error of code -32000, and the
    registry after the request is the registry before it. *)
Theorem unknown_session_rejected (o : Http.Oracle) (req : Http.Request) sessions :
  (∃ sid, Http.sessionIdHeader req = Some sid ∧ sid ≠ EmptyString ∧
          sessions !! sid = None) ∨
  ((Http.sessionIdHeader req = None ∨ Http.sessionIdHeader req = Some EmptyString) ∧
   isInitializeRequest (Http.body req) = false) →
  Http.handleClientToServerRequest isInitializeRequest o req sessions =
  (Http.JsonRpcError 400 (-32000)
     "Bad Request: No valid session ID provided or not an initialization request",
   sessions).
Proof.
  unfold Http.handleClientToServerRequest, Http.known.
  intros [(sid & -> & Hne & Hnone) | [[-> | ->] Hinit]].
  - unfold Http.truthy. rewrite bool_decide_eq_true_2 by done.
    rewrite Hnone. done.
  - simpl. by rewrite Hinit.
  - simpl. by rewrite Hinit.
Qed.

Lemma cleanupStep_lookup_ne t closeThrows sessions (e : string * Http.SessionInfo) sid :
  e.1 ≠ sid → Http.cleanupStep t closeThrows sessions e !! sid = sessions !! sid.
Proof.
  intros Hne. unfold Http.cleanupStep, Http.terminateSession.
  destruct (decide _); [|done].
  destruct (sessions !! e.1); [|done].
  destruct (closeThrows e.1); [done|]. simpl. by rewrite lookup_delete_ne.
Qed.

Lemma cleanupStep_lookup_None t closeThrows sessions e sid :
  sessions !! sid = None → Http.cleanupStep t closeThrows sessions e !! sid = None.
Proof.
  intros Hnone. destruct (decide (e.1 = sid)) as [Heq|Hne].
  - unfold Http.cleanupStep, Http.terminateSession.
    destruct (decide _); [|done]. rewrite Heq, Hnone. done.
  - by rewrite cleanupStep_lookup_ne.
Qed.

Lemma cleanup_fold_None t closeThrows l sessions sid :
  sessions !! sid = None →
  foldl (Http.cleanupStep t closeThrows) sessions l !! sid = None.
Proof.
  revert sessions. induction l as [|e l IH]; intros sessions Hnone; [done|].
  simpl. apply IH. by apply cleanupStep_lookup_None.
Qed.

(** The loop removes [sid] when one of the entries it visits is a stale
    [sid] whose teardown does not throw, and otherwise leaves it alone. *)
Lemma cleanup_fold_removed t closeThrows l sessions sid info :
  (sid, info) ∈ l →
  t - Http.lastActivity info > Http.maxAge →
  closeThrows sid = None →
  foldl (Http.cleanupStep t closeThrows) sessions l !! sid = None.
Proof.
  intros Hin Hstale Hclose. revert sessions.
  induction l as [|e l IH]; intros sessions; [by apply elem_of_nil in Hin|].
  apply elem_of_cons in Hin as [<-|Hin]; [|by apply IH].
  simpl. apply cleanup_fold_None.
  unfold Http.cleanupStep, Http.terminateSession. simpl.
  rewrite decide_True by done.
  destruct (sessions !! sid) eqn:Hs; [|done].
  rewrite Hclose. simpl. apply lookup_delete_eq.
Qed.

Lemma cleanup_fold_kept t closeThrows l sessions sid :
  (∀ info, (sid, info) ∈ l →
           ¬ t - Http.lastActivity info > Http.maxAge ∨ is_Some (closeThrows sid)) →
  foldl (Http.cleanupStep t closeThrows) sessions l !! sid = sessions !! sid.
Proof.
  revert sessions. induction l as [|e l IH]; intros sessions Hkeep; [done|].
  simpl. rewrite IH.
  - destruct (decide (e.1 = sid)) as [Heq|Hne]; [|by apply cleanupStep_lookup_ne].
    destruct e as [sid' info]. simpl in Heq. subst sid'.
    unfold Http.cleanupStep, Http.terminateSession. simpl.
    destruct (Hkeep info ltac:(left)) as [Hfresh | [msg Hmsg]].
    + by rewrite decide_False.
    + destruct (decide _); [|done].
      destruct (sessions !! sid) eqn:Hs; [rewrite Hmsg|]; simpl; by rewrite Hs.
  - intros info Hin. apply Hkeep. by right.
Qed.

(** C7, as the code has it.  The periodic sweep handles every registered
    session by its age [t - lastActivity]: a session whose age exceeds 30
    minutes goes through [terminateSession], the teardown of an explicit
    termination, and is left out of the registry when that teardown completes;
    when the teardown throws, the error is swallowed and the session stays
    registered; a session that is not older than 30 minutes stays as it is.
    Whether the teardown of any other session throws changes none of this. *)
Theorem cleanup_expires_inactive (t : Z) (closeThrows : string → option string)
    sessions sid info :
  sessions !! sid = Some info →
  Http.cleanup t closeThrows sessions !! sid =
    (if decide (t - Http.lastActivity info > 30 * 60 * 1000)
     then (Http.terminateSession closeThrows sid sessions).2 !! sid
     else Some info) ∧
  (t - Http.lastActivity info > 30 * 60 * 1000 → closeThrows sid = None →
   Http.cleanup t closeThrows sessions !! sid = None) ∧
  (t - Http.lastActivity info > 30 * 60 * 1000 → is_Some (closeThrows sid) →
   Http.cleanup t closeThrows sessions !! sid = Some info).
Proof.
  intros Hsid.
  assert (Hin : (sid, info) ∈ map_to_list sessions) by by apply elem_of_map_to_list.
  assert (Hremoved : t - Http.lastActivity info > 30 * 60 * 1000 →
            closeThrows sid = None →
            Http.cleanup t closeThrows sessions !! sid = None).
  { intros Hstale Hclose. by eapply cleanup_fold_removed. }
  assert (Hkept : ¬ t - Http.lastActivity info > 30 * 60 * 1000 ∨ is_Some (closeThrows sid) →
            Http.cleanup t closeThrows sessions !! sid = Some info).
  { intros Hkeep. unfold Http.cleanup. rewrite cleanup_fold_kept; [done|].
    intros info' Hin'. apply elem_of_map_to_list in Hin'.
    rewrite Hsid in Hin'. by injection Hin' as <-. }
  split_and!; [|done|auto].
  unfold Http.terminateSession. rewrite Hsid.
  destruct (decide _) as [Hstale|Hfresh]; [|auto].
  destruct (closeThrows sid) as [msg|] eqn:Hclose; simpl.
  - rewrite Hkept; [done | right; by exists msg].
  - rewrite lookup_delete_eq. auto.
Qed.

(** The sweep registers nothing. *)
Lemma cleanup_adds_nothing (t : Z) closeThrows sessions sid :
  sessions !! sid = None → Http.cleanup t closeThrows sessions !! sid = None.
Proof. apply cleanup_fold_None. Qed.

End Sessions.

(** A POST with an identifier that names no session, one session being
    registered. *)
Lemma unknown_session_rejected_witness :
  Http.handleClientToServerRequest (λ b : bool, b)
    {| Http.now := 5; Http.created := 5; Http.uuid := "u-1";
       Http.creationThrows := false; Http.forwarding := Http.Handled |}
    {| Http.sessionIdHeader := Some "nonexistent-id"; Http.body := true |}
    {[ "u-0" := {| Http.id := "u-0"; Http.createdAt := 1; Http.lastActivity := 2 |} ]}
  = (Http.JsonRpcError 400 (-32000)
       "Bad Request: No valid session ID provided or not an initialization request",
     {[ "u-0" := {| Http.id := "u-0"; Http.createdAt := 1; Http.lastActivity := 2 |} ]}).
Proof.
  apply unknown_session_rejected. left. exists "nonexistent-id".
  split_and!; [reflexivity | discriminate | by vm_compute].
Defined.

(** A session idle for 30 minutes and a millisecond, whose teardown
    completes. *)
Lemma cleanup_expires_inactive_witness :
  Http.cleanup 1800001 (λ _, None)
    {[ "u-0" := {| Http.id := "u-0"; Http.createdAt := 0; Http.lastActivity := 0 |} ]}
    !! "u-0" = None.
Proof.
  eapply (cleanup_expires_inactive 1800001 (λ _, None) _ "u-0"
            {| Http.id := "u-0"; Http.createdAt := 0; Http.lastActivity := 0 |}).
  - by vm_compute.
  - simpl. lia.
  - reflexivity.
Defined.

(** C7 as stated fails: a session idle for more than 30 minutes whose
    teardown throws is still in the registry after the sweep. *)
Lemma cleanup_keeps_session_whose_teardown_throws :
  let info := {| Http.id := "u-0"; Http.createdAt := 0; Http.lastActivity := 0 |} in
  let sessions : gmap string Http.SessionInfo := {[ "u-0" := info ]} in
  1800001 - Http.lastActivity info > Http.maxAge ∧
  Http.cleanup 1800001 (λ _, Some "close failed") sessions !! "u-0" = Some info.
Proof. split; [by vm_compute | by vm_compute]. Qed.

(** ** The SSE authentication gate *)

Section SseGate.
Implicit Types (t : Sse.SSETransport) (c : string) (cs : Sse.SSEConnectionState).

Lemma stable_authenticated : stable authenticated.
Proof. by intros cs1 cs2. Qed.

Lemma stable_isAlive : stable Sse.isAlive.
Proof. by intros cs1 cs2. Qed.

Lemma blind_isAlive : blind Sse.isAlive.
Proof. by intros cs1 cs2. Qed.

Section Flag.
Context (f : Sse.SSEConnectionState → bool) (Hf : stable f).

Lemma inherits_refl o : inherits f o o.
Proof. intros cs' ->. by exists cs'. Qed.

Lemma inherits_trans o1 o2 o3 :
  inherits f o1 o2 → inherits f o2 o3 → inherits f o1 o3.
Proof.
  intros H12 H23 cs3 H3. destruct (H23 cs3 H3) as (cs2 & H2 & Hf2).
  destruct (H12 cs2 H2) as (cs1 & H1 & Hf1). exists cs1. by rewrite Hf2.
Qed.

Lemma inherits_None o : inherits f o None.
Proof. by intros cs'. Qed.

Lemma closeConnection_inherits c' t c :
  inherits f (Sse.connections t !! c)
             (Sse.connections (Sse.closeConnection c' t) !! c).
Proof.
  unfold Sse.closeConnection. destruct (Sse.connections t !! c') eqn:Hc'.
  - simpl. destruct (decide (c' = c)) as [->|Hne].
    + rewrite lookup_delete_eq. apply inherits_None.
    + rewrite lookup_delete_ne by done. apply inherits_refl.
  - apply inherits_refl.
Qed.

Lemma insert_inherits c' cs0 cs1 t c :
  Sse.connections t !! c' = Some cs0 → f cs1 = f cs0 →
  inherits f (Sse.connections t !! c) (<[c' := cs1]> (Sse.connections t) !! c).
Proof.
  intros Hc' Hsame. destruct (decide (c' = c)) as [->|Hne].
  - rewrite lookup_insert_eq. intros cs' [= <-]. by exists cs0.
  - rewrite lookup_insert_ne by done. apply inherits_refl.
Qed.

Lemma sendMessage_inherits env c' message t c :
  inherits f (Sse.connections t !! c)
             (Sse.connections (Sse.sendMessage env c' message t).1.2 !! c).
Proof.
  unfold Sse.sendMessage. destruct (Sse.connections t !! c') as [cs0|] eqn:Hc'.
  - destruct (Sse.isAlive cs0) eqn:Halive; simpl; [|apply inherits_refl].
    destruct (Sse.writable env); simpl; [|apply closeConnection_inherits].
    apply (insert_inherits c' cs0); [done|]. by apply Hf.
  - apply inherits_refl.
Qed.

Lemma closeAllConnections_inherits t c :
  inherits f (Sse.connections t !! c)
             (Sse.connections (Sse.closeAllConnections t) !! c).
Proof.
  unfold Sse.closeAllConnections.
  generalize ((map_to_list (Sse.connections t)).*1). intros l. revert t.
  induction l as [|c' l IH]; intros t; [apply inherits_refl|].
  simpl. eapply inherits_trans; [apply (closeConnection_inherits c')|apply IH].
Qed.

Lemma handleAuthentication_inherits env c' message t c :
  c' ≠ c ∨ blind f →
  inherits f (Sse.connections t !! c)
             (Sse.connections (Sse.handleAuthentication env c' message t).1 !! c).
Proof.
  intros Hok. unfold Sse.handleAuthentication.
  destruct (Sse.connections t !! c') as [cs0|] eqn:Hc'; [|apply inherits_refl].
  match goal with |- context [Sse.sendMessage env c' ?m ?t1] =>
    pose proof (sendMessage_inherits env c' m t1 c) as Hsend;
    destruct (Sse.sendMessage env c' m t1) as [[b t2] effects] end.
  simpl in *. eapply inherits_trans; [|apply Hsend].
  destruct Hok as [Hne|Hblind].
  - rewrite lookup_insert_ne by done. apply inherits_refl.
  - apply (insert_inherits c' cs0); [done|]. by apply Hblind.
Qed.

(** Processing a message gives [c] no flag it did not have, unless the
    message is an authentication request for [c] and the flag looks at
    [authenticated]. *)
Lemma processIncomingMessage_inherits env c' message t c :
  (c' = c → Sse.isAuth message = false ∨ blind f) →
  inherits f (Sse.connections t !! c)
             (Sse.connections (Sse.processIncomingMessage env c' message t).1 !! c).
Proof.
  intros Hgate. unfold Sse.processIncomingMessage.
  destruct (Sse.connections t !! c') as [cs0|] eqn:Hc'; [|apply inherits_refl].
  set (t1 := Sse.with_connections _ t).
  assert (Ht1 : inherits f (Sse.connections t !! c) (Sse.connections t1 !! c)).
  { subst t1. simpl. apply (insert_inherits c' cs0); [done|]. by apply Hf. }
  assert (Hsent : ∀ m, inherits f (Sse.connections t !! c)
            (Sse.connections (Sse.sendMessage env c' m t1).1.2 !! c)).
  { intros m. eapply inherits_trans; [apply Ht1 | apply sendMessage_inherits]. }
  destruct (Sse.isAuth message) eqn:Hauth.
  { eapply inherits_trans; [apply Ht1 | apply handleAuthentication_inherits].
    destruct (decide (c' = c)) as [Heq|Hne]; [|by left].
    destruct (Hgate Heq); [done | by right]. }
  simpl. destruct (_ && _).
  { specialize (Hsent (Sse.authenticationRequired env message)).
    by destruct (Sse.sendMessage _ _ _ _) as [[b t2] effects]. }
  destruct (Sse.messageHandlers _ !! Sse.typeName (Sse.type message))
    as [handler|]; [|exact Ht1].
  destruct (handler message) as [result|reason];
    (destruct (bool_decide _); [|exact Ht1]);
    match goal with |- context [Sse.sendMessage env c' ?m t1] =>
      specialize (Hsent m); by destruct (Sse.sendMessage env c' m t1) as [[b t2] effects] end.
Qed.

End Flag.
(** The state found under [c] after [handleConnection] is the new,
    unauthenticated and live one, or one that was there before. *)
Lemma handleConnection_lookup env address t c cs' :
  Sse.connections (Sse.handleConnection env address t).1 !! c = Some cs' →
  (c = Sse.newConnectionId env ∧ authenticated cs' = false ∧ Sse.isAlive cs' = true) ∨
  (c ≠ Sse.newConnectionId env ∧
   ∃ cs, Sse.connections t !! c = Some cs ∧
         authenticated cs' = authenticated cs ∧ Sse.isAlive cs' = Sse.isAlive cs).
Proof.
  unfold Sse.handleConnection.
  set (created := {| Sse.connection := _; Sse.isAlive := true; Sse.pingInterval := false |}).
  set (t1 := Sse.with_connections _ t).
  set (message := Sse.mkMessage _ _ _ _ _).
  pose proof (sendMessage_inherits authenticated stable_authenticated env
                (Sse.newConnectionId env) message t1 c) as Hauth.
  pose proof (sendMessage_inherits Sse.isAlive stable_isAlive env
                (Sse.newConnectionId env) message t1 c) as Halive.
  destruct (Sse.sendMessage env (Sse.newConnectionId env) message t1) as [[b t2] effects].
  simpl in *. destruct (decide (Sse.newConnectionId env = c)) as [Heq|Hne].
  - rewrite Heq, lookup_alter_eq. rewrite Heq, lookup_insert_eq in Hauth, Halive.
    destruct (Sse.connections t2 !! c) as [cs2|] eqn:H2; [|done].
    intros [= <-]. left.
    destruct (Hauth cs2 eq_refl) as (? & [= <-] & Ha).
    destruct (Halive cs2 eq_refl) as (? & [= <-] & Hl). done.
  - rewrite lookup_alter_ne by done. rewrite lookup_insert_ne in Hauth, Halive by done.
    intros H2. right. split; [done|].
    destruct (Hauth cs' H2) as (cs & Hcs & Ha).
    destruct (Halive cs' H2) as (? & Hcs2 & Hl).
    exists cs. rewrite Hcs in Hcs2. injection Hcs2 as <-. done.
Qed.

(** What a call can leave under [c]: a live new connection that is not
    authenticated, a state with the flags of the one before, or, after an
    authentication request for [c], a state as alive as the one before. *)
Lemma call_lookup (x : Sse.Call) t c cs' :
  Sse.connections (Sse.call x t).1 !! c = Some cs' →
  (authenticated cs' = false ∧ Sse.isAlive cs' = true) ∨
  ∃ cs, Sse.connections t !! c = Some cs ∧ Sse.isAlive cs' = Sse.isAlive cs ∧
        (authenticated cs' = authenticated cs ∨
         ∃ env message, x = Sse.ProcessIncomingMessage env c message ∧
                        Sse.isAuth message = true).
Proof.
  assert (Hboth : inherits authenticated (Sse.connections t !! c)
                    (Sse.connections (Sse.call x t).1 !! c) →
                  inherits Sse.isAlive (Sse.connections t !! c)
                    (Sse.connections (Sse.call x t).1 !! c) →
                  Sse.connections (Sse.call x t).1 !! c = Some cs' →
                  ∃ cs, Sse.connections t !! c = Some cs ∧
                        Sse.isAlive cs' = Sse.isAlive cs ∧
                        (authenticated cs' = authenticated cs ∨
                         ∃ env message, x = Sse.ProcessIncomingMessage env c message ∧
                                        Sse.isAuth message = true)).
  { intros Ha Hl Hcs'. destruct (Ha cs' Hcs') as (cs & Hcs & Hsame).
    destruct (Hl cs' Hcs') as (? & Hcs2 & Hlive).
    rewrite Hcs in Hcs2. injection Hcs2 as <-. exists cs. auto. }
  destruct x as [env address|env c' message|env c' message|c'| |messageType handler].
  - simpl. intros Hcs'.
    apply handleConnection_lookup in Hcs' as [(_ & ? & ?)|(_ & cs & ? & ? & ?)]; [by left|].
    right. exists cs. auto.
  - destruct (decide (c' = c ∧ Sse.isAuth message = true)) as [[-> Hauth]|Hno].
    + simpl. intros Hcs'. right.
      destruct (processIncomingMessage_inherits Sse.isAlive stable_isAlive
                  env c message t c (λ _, or_intror blind_isAlive) cs' Hcs')
        as (cs & Hcs & Hl).
      exists cs. split_and!; [done..|]. right. eauto.
    + intros Hcs'. right. apply Hboth; [| |done]; simpl.
      * apply processIncomingMessage_inherits; [apply stable_authenticated|].
        intros ->. left. destruct (Sse.isAuth message); [|done]. by destruct Hno.
      * apply processIncomingMessage_inherits; [apply stable_isAlive|].
        intros _. right. apply blind_isAlive.
  - intros Hcs'. right. apply Hboth; [| |done]; simpl.
    + pose proof (sendMessage_inherits authenticated stable_authenticated env c' message t c).
      by destruct (Sse.sendMessage env c' message t) as [[b t2] effects].
    + pose proof (sendMessage_inherits Sse.isAlive stable_isAlive env c' message t c).
      by destruct (Sse.sendMessage env c' message t) as [[b t2] effects].
  - intros Hcs'. right. apply Hboth; [| |done]; apply closeConnection_inherits.
  - intros Hcs'. right. apply Hboth; [| |done]; apply closeAllConnections_inherits.
  - intros Hcs'. right. apply Hboth; [| |done]; apply inherits_refl.
Qed.

(** Every connection of the map is alive and, as long as no authentication
    request came in on it, not authenticated. *)
Lemma after_unauthenticated (calls : list Sse.Call) c cs :
  Sse.connections (Sse.after calls) !! c = Some cs →
  Sse.isAlive cs = true ∧
  ((∀ env message, Sse.ProcessIncomingMessage env c message ∈ calls →
                   Sse.isAuth message = false) →
   authenticated cs = false).
Proof.
  unfold Sse.after. revert cs.
  induction calls as [|x calls IH] using rev_ind; intros cs.
  - simpl. by rewrite lookup_empty.
  - rewrite foldl_app. simpl. intros Hcs.
    apply call_lookup in Hcs as [[Ha Hl] | (cs0 & H0 & Hl & Hauth)]; [done|].
    destruct (IH cs0 H0) as [Hl0 Ha0]. split; [congruence|].
    intros Hnever. destruct Hauth as [Ha | (env & m & -> & Hauth)].
    + rewrite Ha. apply Ha0. intros env m Hin.
      apply (Hnever env m). apply elem_of_app. by left.
    + rewrite (Hnever env m) in Hauth; [done|].
      apply elem_of_app. right. by apply list_elem_of_singleton.
Qed.

(** A message is written only to the connection it is sent to, and it is
    written when the connection is registered, alive and writable. *)
Lemma sendMessage_effects env c' message t :
  (Sse.sendMessage env c' message t).2 = [] ∨
  (Sse.sendMessage env c' message t).2 = [Sse.Written c' message].
Proof.
  unfold Sse.sendMessage. destruct (Sse.connections t !! c') as [cs0|]; [|by left].
  destruct (Sse.isAlive cs0); simpl; [|by left].
  destruct (Sse.writable env); simpl; [by right | by left].
Qed.

Lemma sendMessage_delivered env c' message t cs :
  Sse.connections t !! c' = Some cs → Sse.isAlive cs = true →
  Sse.writable env = true →
  (Sse.sendMessage env c' message t).2 = [Sse.Written c' message].
Proof. intros Hc Halive Hw. unfold Sse.sendMessage. by rewrite Hc, Halive, Hw. Qed.

(** What the gate does with a request of an unauthenticated connection. *)
Lemma gate_effects env c message t cs :
  Sse.connections t !! c = Some cs → authenticated cs = false →
  Sse.type message = Sse.request → Sse.isAuth message = false →
  ∃ t1, Sse.connections t1 !! c =
          Some (Sse.with_connection (Sse.active env (Sse.connection cs)) cs) ∧
        (Sse.processIncomingMessage env c message t).2 =
        (Sse.sendMessage env c (Sse.authenticationRequired env message) t1).2.
Proof.
  intros Hcs Ha Htype Hauth. unfold Sse.processIncomingMessage.
  rewrite Hcs, Hauth. simpl. unfold authenticated in Ha. rewrite Ha, Htype. simpl.
  match goal with |- context [Sse.sendMessage env c _ ?t1] => exists t1 end.
  split; [simpl; apply lookup_insert_eq|].
  by destruct (Sse.sendMessage _ _ _ _) as [[b t2] effects].
Qed.

(** An authentication request marks the connection it came in on. *)
Lemma authentication_marks env c message t cs' :
  Sse.isAuth message = true →
  Sse.connections (Sse.processIncomingMessage env c message t).1 !! c = Some cs' →
  authenticated cs' = true.
Proof.
  intros Hauth. unfold Sse.processIncomingMessage.
  destruct (Sse.connections t !! c) as [cs0|] eqn:Hc.
  - rewrite Hauth. unfold Sse.handleAuthentication. simpl. rewrite lookup_insert_eq.
    match goal with |- context [Sse.sendMessage env c ?m ?t1] =>
      pose proof (sendMessage_inherits authenticated stable_authenticated env c m t1 c) as Hsend;
      destruct (Sse.sendMessage env c m t1) as [[b t2] effects] end.
    simpl in *. rewrite lookup_insert_eq in Hsend. intros Hcs'.
    by destruct (Hsend cs' Hcs') as (? & [= <-] & ->).
  - simpl. by rewrite Hc.
Qed.

End SseGate.

(** C8.  The SSE authentication gate.  [handleConnection] registers the new
    connection with [authenticated = false].  Take any sequence of calls on a
    new transport in which no request with method [auth] was processed for
    connection [c]: if [c] is registered, it is not authenticated, and a
    request [message] for [c] whose method is not [auth] reaches no message
    handler; all the transport does for it is to answer with the error
    -32001 "Authentication required", which it does whenever [c] is
    registered and the write succeeds, and [c] is still not authenticated
    afterwards.  A request with method [auth], on the other hand, leaves [c]
    authenticated. *)
Theorem sse_authentication_gate (calls : list Sse.Call) (env : Sse.Env)
    (c : string) (message : Sse.SSEMessage) :
  (∀ env' m', Sse.ProcessIncomingMessage env' c m' ∈ calls →
              ¬ (Sse.type m' = Sse.request ∧ Sse.method (Sse.data m') = Some "auth")) →
  Sse.type message = Sse.request →
  Sse.method (Sse.data message) ≠ Some "auth" →
  let t := Sse.after calls in
  let r := Sse.processIncomingMessage env c message t in
  let answer :=
    Sse.Written c
      {| Sse.messageId := Sse.newMessageId env; Sse.type := Sse.error;
         Sse.correlationId := Some (Sse.messageId message);
         Sse.timestamp := Sse.now env;
         Sse.data := Sse.ErrorData (-32001) "Authentication required"
                       "Please authenticate before making requests" |} in
  (∀ env' address t' cs,
     Sse.connections (Sse.handleConnection env' address t').1
       !! Sse.newConnectionId env' = Some cs →
     Sse.authenticated (Sse.connection cs) = false) ∧
  (∀ cs, Sse.connections t !! c = Some cs →
         Sse.authenticated (Sse.connection cs) = false) ∧
  (∀ x, x ∈ r.2 → x = answer) ∧
  (is_Some (Sse.connections t !! c) → Sse.writable env = true → r.2 = [answer]) ∧
  (∀ cs, Sse.connections r.1 !! c = Some cs →
         Sse.authenticated (Sse.connection cs) = false) ∧
  (∀ env' m' t' cs,
     Sse.type m' = Sse.request → Sse.method (Sse.data m') = Some "auth" →
     Sse.connections (Sse.processIncomingMessage env' c m' t').1 !! c = Some cs →
     Sse.authenticated (Sse.connection cs) = true).
Proof.
  intros Hnever Htype Hmethod t r answer.
  assert (HisAuth : ∀ m, ¬ (Sse.type m = Sse.request ∧
                           Sse.method (Sse.data m) = Some "auth") →
                         Sse.isAuth m = false).
  { intros m Hm. unfold Sse.isAuth. apply andb_false_iff.
    rewrite !bool_decide_eq_false.
    destruct (decide (Sse.type m = Sse.request)); [right|left]; naive_solver. }
  assert (Hnever' : ∀ env' m', Sse.ProcessIncomingMessage env' c m' ∈ calls →
                               Sse.isAuth m' = false) by eauto.
  assert (Hmsg : Sse.isAuth message = false).
  { apply HisAuth. by intros [_ ?]. }
  assert (Hbefore : ∀ cs, Sse.connections t !! c = Some cs →
                          Sse.isAlive cs = true ∧ authenticated cs = false).
  { intros cs Hcs. destruct (after_unauthenticated calls c cs Hcs). auto. }
  split_and!.
  - intros env' address t' cs Hcs.
    by apply handleConnection_lookup in Hcs as [(_ & ? & _)|(? & _)].
  - intros cs Hcs. by apply Hbefore.
  - intros x Hx. subst r. unfold Sse.processIncomingMessage in Hx.
    destruct (Sse.connections t !! c) as [cs|] eqn:Hcs.
    + destruct (Hbefore cs eq_refl) as [Hl Ha].
      destruct (gate_effects env c message t cs Hcs Ha Htype Hmsg) as (t1 & _ & Heff).
      unfold Sse.processIncomingMessage in Heff. rewrite Hcs in Heff. rewrite Heff in Hx.
      destruct (sendMessage_effects env c (Sse.authenticationRequired env message) t1)
        as [Hnil|Hone]; [rewrite Hnil in Hx; by apply elem_of_nil in Hx|].
      rewrite Hone in Hx. by apply list_elem_of_singleton in Hx.
    + by apply elem_of_nil in Hx.
  - intros [cs Hcs] Hw. destruct (Hbefore cs Hcs) as [Hl Ha].
    destruct (gate_effects env c message t cs Hcs Ha Htype Hmsg) as (t1 & Ht1 & Heff).
    subst r. rewrite Heff. by eapply sendMessage_delivered.
  - intros cs' Hcs'.
    destruct (processIncomingMessage_inherits authenticated stable_authenticated
                env c message t c (λ _, or_introl Hmsg) cs' Hcs') as (cs & Hcs & Hsame).
    unfold authenticated in Hsame. rewrite Hsame. by apply Hbefore.
  - intros env' m' t' cs Ht Hm. apply authentication_marks.
    unfold Sse.isAuth. by rewrite !bool_decide_eq_true_2.
Qed.

(** A connection is opened and a notification comes in on it; the request
    that follows is answered with the error. *)
Lemma sse_authentication_gate_witness :
  let env := {| Sse.now := 10; Sse.newConnectionId := "sse_1";
                Sse.newMessageId := "msg_1"; Sse.writable := true |} in
  let note := {| Sse.messageId := "n1"; Sse.type := Sse.notification;
                 Sse.correlationId := None; Sse.timestamp := 11;
                 Sse.data := Sse.FromClient None "hello" |} in
  let message := {| Sse.messageId := "m1"; Sse.type := Sse.request;
                    Sse.correlationId := None; Sse.timestamp := 12;
                    Sse.data := Sse.FromClient (Some "tools/list") "{}" |} in
  let calls := [Sse.OnMessage "request" (λ _, Resolved "done");
                Sse.HandleConnection env "10.0.0.7";
                Sse.ProcessIncomingMessage env "sse_1" note] in
  (Sse.processIncomingMessage env "sse_1" message (Sse.after calls)).2 =
  [Sse.Written "sse_1"
     {| Sse.messageId := "msg_1"; Sse.type := Sse.error;
        Sse.correlationId := Some "m1"; Sse.timestamp := 10;
        Sse.data := Sse.ErrorData (-32001) "Authentication required"
                      "Please authenticate before making requests" |}].
Proof.
  intros env note message calls.
  assert (Hnever : ∀ env' m', Sse.ProcessIncomingMessage env' "sse_1" m' ∈ calls →
            ¬ (Sse.type m' = Sse.request ∧ Sse.method (Sse.data m') = Some "auth")).
  { intros env' m' Hin [Htype _]. subst calls.
    apply elem_of_cons in Hin as [Hin|Hin]; [discriminate|].
    apply elem_of_cons in Hin as [Hin|Hin]; [discriminate|].
    apply list_elem_of_singleton in Hin. injection Hin as -> ->. discriminate. }
  destruct (sse_authentication_gate calls env "sse_1" message Hnever eq_refl)
    as (_ & _ & _ & Hanswer & _); [discriminate|].
  apply Hanswer; [eexists; vm_compute; reflexivity | reflexivity].
Defined.

(** ** Invalidation by the write tools *)

Section WriteTools.
Context {V R : Type} (resultId insertedId : R → option string).
Implicit Types (s : Cache.CacheManager V) (k : string).

Lemma JsMap_get_deletes (m : list (string * Cache.CacheEntry V)) (ks : list string) k :
  JsMap.get (foldl JsMap.delete m ks) k =
  if decide (k ∈ ks) then None else JsMap.get m k.
Proof.
  revert m. induction ks as [|k' ks IH]; intros m.
  - destruct (decide _) as [H|]; [by apply elem_of_nil in H | done].
  - cbn [foldl]. rewrite IH. destruct (decide (k ∈ ks)) as [Hin|Hout].
    + rewrite decide_True; [done | by right].
    + destruct (decide (k' = k)) as [->|Hne].
      * rewrite decide_True by left. apply JsMap_get_delete_eq.
      * rewrite decide_False by (intros [->|?]%elem_of_cons; done).
        by apply JsMap_get_delete_ne.
Qed.

(** A key without an entry reads as absent. *)
Lemma get_absent s k now now' :
  JsMap.get (Cache.cache s) k = None → (Cache.get now now' k s).1 = None.
Proof. intros H. unfold Cache.get. by rewrite H. Qed.

(** C2, as the code has it.  Each document or block write tool, when the
    upstream call succeeds, deletes the keys it enumerates by hand,
    [Tools.invalidated], and nothing else: a following [get] of such a key is
    a miss and every other key keeps its entry.  When the upstream call
    throws, the tool answers with [isError] and leaves the cache manager as
    it was. *)
Theorem write_tools_invalidate (tool : string)
    (handler : Tools.Args → Upstream R → Cache.CacheManager V →
               Tools.ToolResponse * Cache.CacheManager V) :
  (tool, handler) ∈ Tools.writeTools resultId insertedId →
  (∀ args result s,
     let r := handler args (Resolved result) s in
     Tools.isError r.1 = false ∧
     Cache.cache r.2 = foldl JsMap.delete (Cache.cache s) (Tools.invalidated tool args) ∧
     Cache.stats r.2 = Cache.stats s ∧
     (∀ k now now', k ∈ Tools.invalidated tool args → (Cache.get now now' k r.2).1 = None) ∧
     (∀ k, k ∉ Tools.invalidated tool args →
           JsMap.get (Cache.cache r.2) k = JsMap.get (Cache.cache s) k)) ∧
  (∀ args message s,
     let r := handler args (Rejected message) s in
     Tools.isError r.1 = true ∧ r.2 = s).
Proof.
  intros Hin.
  assert (Hkeys : ∀ args result s,
            Tools.isError (handler args (Resolved result) s).1 = false ∧
            Cache.cache (handler args (Resolved result) s).2 =
              foldl JsMap.delete (Cache.cache s) (Tools.invalidated tool args) ∧
            Cache.stats (handler args (Resolved result) s).2 = Cache.stats s).
  { unfold Tools.writeTools in Hin.
    repeat (apply elem_of_cons in Hin as [[= -> ->]|Hin]; [by intros|]).
    by apply elem_of_nil in Hin. }
  split.
  - intros args result s r. destruct (Hkeys args result s) as (Herr & Hcache & Hstats).
    split_and!; [done..| |].
    + intros k now now' Hk. apply get_absent. subst r. rewrite Hcache.
      rewrite JsMap_get_deletes. by rewrite decide_True.
    + intros k Hk. subst r. rewrite Hcache, JsMap_get_deletes. by rewrite decide_False.
  - unfold Tools.writeTools in Hin.
    repeat (apply elem_of_cons in Hin as [[= -> ->]|Hin]; [by intros|]).
    by apply elem_of_nil in Hin.
Qed.

End WriteTools.

(** insert-block, the write tool whose upstream call the adapter resolves,
    on the server that has the parent cached as a block resource. *)
Lemma write_tools_invalidate_witness :
  JsMap.has (Cache.cache sampleServed) "block:20240101-doc" = true ∧
  Tools.isError sampleInsert.1 = false ∧
  (Cache.get 1000 1000 "block:20240101-doc" sampleInsert.2).1 = None.
Proof.
  assert (Hcall : Adapter.callTool (λ _ _, Resolved "[]")
                    (λ response : string, Resolved response) "siyuan_insert_block" =
                  Resolved "[]") by (vm_compute; reflexivity).
  destruct (write_tools_invalidate (V := Resources.Data string) (R := string)
              (λ _, None) (λ _, None) "insert-block" (Tools.insertBlock (λ _, None)))
    as [Hok _].
  - unfold Tools.writeTools. do 3 right. left.
  - destruct (Hok sampleInsertArgs "[]" sampleServed) as (Herr & _ & _ & Hmiss & _).
    split; [vm_compute; reflexivity|].
    unfold sampleInsert, Server.insertBlock. rewrite Hcall.
    split; [exact Herr|]. apply Hmiss. left.
Defined.

(** C2 as stated fails.  The text of a document read as a document resource
    is cached under [document:<id>].  insert-block with that document as the
    parent succeeds and deletes [block:<id>] and [block-children:<id>] only:
    the entry [document:<id>] is still stored, and a read of the document
    resource made within its minute is answered from it with the text the
    document had before the insertion, where a read that finds no entry is
    answered with the new text. *)
Lemma insert_block_leaves_stale_document :
  Tools.isError sampleInsert.1 = false ∧
  JsMap.has (Cache.cache sampleInsert.2) "document:20240101-doc" = true ∧
  Resources.text sampleReread.1 = Some "old text" ∧
  Resources.text
    (sampleRead "old text and a new block" (Resources.Document "20240101-doc")
       (Resources.mkClock 1000 1000 1000) "2024-01-01T00:00:01.000Z"
       "siyuan://document/20240101-doc"
       (Cache.new Cache.DEFAULT_CACHE_CONFIG)).1 = Some "old text and a new block".
Proof. split_and!; vm_compute; reflexivity. Qed.

(** ** Resource handlers and failed fetches *)

Section FailedFetch.
Context {R : Type}.
Context (jsonPretty : Resources.Data R → string)
        (jsonStringifyLength : Resources.Data R → option N).
Context (kramdownOf : R → string) (notebooksLength : R → Z).
Context (parseInt : string → option Z) (numberToString : option Z → string).
Context (typeErrorMessage : string).
Implicit Types (s : Cache.CacheManager (Resources.Data R)) (k : string).

Lemma append_assoc (a b c : string) : (a +:+ b) +:+ c = a +:+ (b +:+ c).
Proof.
  induction a as [|x a IH]; [done|].
  change (String x ((a +:+ b) +:+ c) = String x (a +:+ (b +:+ c))). by rewrite IH.
Qed.

(** A [get] that misses leaves the map without the key it looked up, and
    otherwise as it was. *)
Lemma get_miss_cache s k now now' :
  (Cache.get now now' k s).1 = None →
  Cache.cache (Cache.get now now' k s).2 = JsMap.delete (Cache.cache s) k.
Proof.
  unfold Cache.get. destruct (JsMap.get (Cache.cache s) k) as [entry|] eqn:Hget.
  - by destruct (Cache.isExpired now entry).
  - intros _. simpl. symmetry. apply JsMap_delete_absent. by apply JsMap_get_None.
Qed.

(** C6, as the code has it.  When the cache has no live entry for the
    resource and an upstream call of its handler throws, the handler answers
    with a plain-text error that ends with the message of the exception and
    stores nothing: the map after the handler is the map before it without the
    key of the resource, whose entry, if there was one, had expired and was
    dropped by the lookup; every other key keeps its entry, and a map that
    had no entry under the key is unchanged. *)
Theorem failed_fetch_not_cached (req : Resources.Request) (clk : Resources.Clock)
    (iso u : string) (up up' : Upstream R) s (message : string) :
  (Cache.get (Resources.checked clk) (Resources.touched clk)
     (Resources.cacheKey parseInt numberToString req) s).1 = None →
  Resources.upstreamThrows req up up' = Some message →
  let key := Resources.cacheKey parseInt numberToString req in
  let r := Resources.handle jsonPretty jsonStringifyLength kramdownOf
             notebooksLength parseInt numberToString typeErrorMessage
             req clk iso u up up' s in
  (∃ prefix, Resources.text r.1 = Some (prefix +:+ message)) ∧
  Resources.mimeType r.1 = "text/plain" ∧
  Cache.cache r.2 = JsMap.delete (Cache.cache s) key ∧
  JsMap.get (Cache.cache r.2) key = None ∧
  (∀ k, k ≠ key → JsMap.get (Cache.cache r.2) k = JsMap.get (Cache.cache s) k) ∧
  (JsMap.get (Cache.cache s) key = None → Cache.cache r.2 = Cache.cache s).
Proof.
  intros Hmiss Hthrows key r.
  assert (Hstate : ∃ prefix,
            r = ({| Resources.href := u; Resources.text := Some (prefix +:+ message);
                    Resources.mimeType := "text/plain" |},
                 (Cache.get (Resources.checked clk) (Resources.touched clk) key s).2)).
  { subst r key. pose proof (get_miss_cache s _ _ _ Hmiss) as Hcache.
    destruct req;
      unfold Resources.handle, Resources.handleNotebookResource,
        Resources.handleNotebooksListResource, Resources.handleDocumentResource,
        Resources.handleBlockResource, Resources.handleSearchResource,
        Resources.handleWorkspaceResource;
      cbn [Resources.cacheKey] in *;
      destruct (Cache.get _ _ _ s) as [o s1]; cbn [fst snd] in *; subst o;
      destruct up as [result|reason]; cbn [Resources.upstreamThrows] in Hthrows.
    all: try discriminate.
    all: try (destruct up' as [result'|reason']; [discriminate|]).
    all: injection Hthrows as ->; unfold Resources.plain;
      rewrite <-?append_assoc; eexists; reflexivity. }
  destruct Hstate as (prefix & ->). simpl.
  rewrite (get_miss_cache s key _ _ Hmiss).
  split_and!; [by exists prefix | done | done | apply JsMap_get_delete_eq | |].
  - intros k Hk. by apply JsMap_get_delete_ne.
  - intros Hnone. apply JsMap_delete_absent. by apply JsMap_get_None.
Qed.

End FailedFetch.

(** The failed fetch of the sample run. *)
Lemma failed_fetch_not_cached_witness :
  JsMap.get (Cache.cache sampleFailed.2) "block:20240101-blk" = None.
Proof.
  unfold sampleFailed, sampleHandle.
  eapply (failed_fetch_not_cached _ _ _ _ _ _ _ (Resources.Block "20240101-blk")).
  - by vm_compute.
  - reflexivity.
Defined.

(** C6 as stated fails: the cache held the block, expired, before the failed
    fetch and is empty after it. *)
Lemma failed_fetch_drops_expired_entry :
  JsMap.has (Cache.cache sampleCached) "block:20240101-blk" = true ∧
  Cache.cache sampleFailed.2 = [] ∧
  Cache.cache sampleFailed.2 ≠ Cache.cache sampleCached.
Proof. split_and!; [by vm_compute | by vm_compute | by vm_compute]. Qed.

(** ** Sorting with a comparator that follows a rank *)

Section SortFacts.
Context {A : Type} (cmp : A → A → Z) (rank : A → Z).
Context (Hcmp : ∀ a b, cmp a b ≤ 0 ↔ rank a ≤ rank b).

Lemma sort_insert_perm x (l : list A) : JsArray.insert cmp x l ≡ₚ x :: l.
Proof.
  induction l as [|y l IH]; simpl; [done|].
  destruct (decide (cmp x y ≤ 0)); [done|]. rewrite IH. apply Permutation_swap.
Qed.

Lemma sort_perm (l : list A) : JsArray.sort cmp l ≡ₚ l.
Proof.
  induction l as [|x l IH]; simpl; [done|].
  rewrite sort_insert_perm. by rewrite IH.
Qed.

Lemma sort_length (l : list A) : length (JsArray.sort cmp l) = length l.
Proof. by rewrite sort_perm. Qed.

Lemma sort_insert_sorted x (l : list A) :
  StronglySorted (λ a b, rank a ≤ rank b) l →
  StronglySorted (λ a b, rank a ≤ rank b) (JsArray.insert cmp x l).
Proof.
  induction l as [|y l IH]; simpl; intros Hl.
  - repeat constructor.
  - apply StronglySorted_cons in Hl as [Hy Hl].
    destruct (decide (cmp x y ≤ 0)) as [Hle|Hgt].
    + apply Hcmp in Hle. apply StronglySorted_cons. split.
      * constructor; [done|]. eapply Forall_impl; [exact Hy|]. simpl. lia.
      * by apply StronglySorted_cons.
    + assert (rank y ≤ rank x) by (rewrite Hcmp in Hgt; lia).
      apply StronglySorted_cons. split; [|by apply IH].
      rewrite sort_insert_perm. by constructor.
Qed.

Lemma sort_sorted (l : list A) :
  StronglySorted (λ a b, rank a ≤ rank b) (JsArray.sort cmp l).
Proof.
  induction l as [|x l IH]; simpl; [constructor | by apply sort_insert_sorted].
Qed.

(** The first [n] elements of the sorted array rank no higher than the
    rest. *)
Lemma sort_take_drop (l : list A) (n : nat) a b :
  a ∈ take n (JsArray.sort cmp l) → b ∈ drop n (JsArray.sort cmp l) →
  rank a ≤ rank b.
Proof.
  intros Ha Hb. pose proof (sort_sorted l) as Hs.
  rewrite <-(take_drop n (JsArray.sort cmp l)) in Hs.
  by apply (StronglySorted_app_1_elem_of _ _ _ _ _ Hs).
Qed.

End SortFacts.

(** ** Eviction *)

Section Eviction.
Context {V : Type}.
Implicit Types (s : Cache.CacheManager V) (k : string)
  (m entries : list (string * Cache.CacheEntry V)) (ks : list string).

Lemma filter_all {A} (P : A → Prop) `{!∀ x, Decision (P x)} (l : list A) :
  (∀ x, x ∈ l → P x) → filter P l = l.
Proof.
  induction l as [|x l IH]; [done|]. intros HP.
  rewrite filter_cons_True by (apply HP; left).
  rewrite IH; [done|]. intros y Hy. apply HP. by right.
Qed.

Lemma filter_none {A} (P : A → Prop) `{!∀ x, Decision (P x)} (l : list A) :
  (∀ x, x ∈ l → ¬ P x) → filter P l = [].
Proof.
  induction l as [|x l IH]; [done|]. intros HP.
  rewrite filter_cons_False by (apply HP; left).
  apply IH. intros y Hy. apply HP. by right.
Qed.

Lemma evictAll_cache ks s :
  Cache.cache (evictAll ks s) = filter (λ p, p.1 ∉ ks) (Cache.cache s).
Proof.
  unfold evictAll. revert s. induction ks as [|k ks IH]; intros s.
  - simpl. symmetry. apply filter_all. intros p _. apply not_elem_of_nil.
  - cbn [foldl]. rewrite IH. simpl. unfold JsMap.delete.
    rewrite list_filter_filter. apply list_filter_iff. intros p.
    rewrite not_elem_of_cons. split; intros [? ?]; split; by auto.
Qed.

Lemma evictAll_config ks s : Cache.config (evictAll ks s) = Cache.config s.
Proof.
  unfold evictAll. revert s. induction ks as [|k ks IH]; intros s; [done|].
  cbn [foldl]. by rewrite IH.
Qed.

Lemma evictAll_stats ks s :
  Cache.evictions (Cache.stats (evictAll ks s)) =
    Cache.evictions (Cache.stats s) + Z.of_nat (length ks) ∧
  Cache.hits (Cache.stats (evictAll ks s)) = Cache.hits (Cache.stats s) ∧
  Cache.misses (Cache.stats (evictAll ks s)) = Cache.misses (Cache.stats s).
Proof.
  unfold evictAll. revert s. induction ks as [|k ks IH]; intros s.
  - simpl. split_and!; [lia | done | done].
  - cbn [foldl]. destruct (IH (Cache.evict k s)) as (-> & -> & ->).
    simpl. split_and!; [lia | done | done].
Qed.

(** The counting loop evicts the keys of [entries[i .. i+n-1]] when the
    array is long enough. *)
Lemma evictLoop_take entries (i n : nat) s :
  (i + n ≤ length entries)%nat →
  Cache.evictLoop entries i n s =
  (Cache.Normal (), evictAll (take n (drop i entries)).*1 s).
Proof.
  revert i s. induction n as [|n IH]; intros i s Hlen; [done|].
  simpl. destruct (entries !! i) as [[k e]|] eqn:Hi.
  - rewrite IH by lia. rewrite (drop_S _ _ _ Hi). done.
  - apply lookup_ge_None in Hi. lia.
Qed.

(** The memory loop evicts the keys of a prefix of [entries]. *)
Lemma pressureLoop_prefix entries (requiredSpace freedSpace : Z) s :
  ∃ n, Cache.pressureLoop entries requiredSpace freedSpace s =
       evictAll (take n entries).*1 s.
Proof.
  revert freedSpace s. induction entries as [|[k e] entries IH]; intros freedSpace s.
  - by exists 0%nat.
  - simpl. destruct (decide (freedSpace >= requiredSpace)).
    + by exists 0%nat.
    + destruct (IH (freedSpace + Cache.size e) (Cache.evict k s)) as [j ->].
      by exists (S j).
Qed.

End Eviction.

Section CountPressure.
Context {V : Type}.
Implicit Types (s : Cache.CacheManager V) (k : string)
  (m entries : list (string * Cache.CacheEntry V)) (ks : list string).

Lemma lru_rank (a b : string * Cache.CacheEntry V) :
  Cache.lastAccessed a.2 - Cache.lastAccessed b.2 ≤ 0 ↔
  Cache.lastAccessed a.2 ≤ Cache.lastAccessed b.2.
Proof. lia. Qed.

Lemma lruOrder_perm s : lruOrder s ≡ₚ Cache.cache s.
Proof. apply sort_perm. Qed.

Lemma lruOrder_length s : length (lruOrder s) = length (Cache.cache s).
Proof. apply sort_length. Qed.

Lemma toRemove_bounds s :
  Cache.cache s ≠ [] → (1 ≤ toRemove s ≤ length (Cache.cache s))%nat.
Proof.
  intros Hne. unfold toRemove.
  assert (1 ≤ Z.of_nat (length (Cache.cache s))).
  { destruct (Cache.cache s); [done | simpl; lia]. }
  assert (Z.of_nat (length (Cache.cache s)) / 10 ≤ Z.of_nat (length (Cache.cache s))).
  { apply Z.div_le_upper_bound; lia. }
  lia.
Qed.

(** On a cache that is not empty, [evictLeastRecentlyUsed] returns, having
    evicted the first [toRemove] keys of the sorted array. *)
Lemma evictLeastRecentlyUsed_evicts s :
  Cache.cache s ≠ [] →
  Cache.evictLeastRecentlyUsed s =
  (Cache.Normal (), evictAll (take (toRemove s) (lruOrder s)).*1 s).
Proof.
  intros Hne. unfold Cache.evictLeastRecentlyUsed. fold (lruOrder s).
  rewrite lruOrder_length. fold (toRemove s).
  rewrite evictLoop_take; [done|].
  rewrite lruOrder_length. pose proof (toRemove_bounds s Hne). lia.
Qed.

(** On an empty cache it throws, and evicts nothing. *)
Lemma evictLeastRecentlyUsed_empty s :
  Cache.cache s = [] → Cache.evictLeastRecentlyUsed s = (Cache.TypeError, s).
Proof. intros Hs. unfold Cache.evictLeastRecentlyUsed. by rewrite Hs. Qed.

Lemma evictAll_app ks1 ks2 s :
  evictAll (ks1 ++ ks2) s = evictAll ks2 (evictAll ks1 s).
Proof. unfold evictAll. apply foldl_app. Qed.

Lemma evictAll_get_evicted ks s k :
  k ∈ ks → JsMap.get (Cache.cache (evictAll ks s)) k = None.
Proof.
  intros Hk. apply JsMap_get_None. rewrite evictAll_cache.
  unfold JsMap.keys. intros ([k' e] & -> & Hp)%list_elem_of_fmap.
  apply list_elem_of_filter in Hp as [Hout _]. done.
Qed.

Lemma evictAll_get_other ks s k :
  k ∉ ks → JsMap.get (Cache.cache (evictAll ks s)) k = JsMap.get (Cache.cache s) k.
Proof.
  unfold evictAll. revert s. induction ks as [|k' ks IH]; intros s Hk; [done|].
  apply not_elem_of_cons in Hk as [Hne Hk]. cbn [foldl]. rewrite IH by done.
  simpl. by apply JsMap_get_delete_ne.
Qed.

Lemma evictAll_wf ks s : JsMap.wf (Cache.cache s) → JsMap.wf (Cache.cache (evictAll ks s)).
Proof.
  unfold evictAll. revert s. induction ks as [|k ks IH]; intros s Hwf; [done|].
  cbn [foldl]. apply IH. simpl. by apply JsMap_wf_delete.
Qed.

Lemma evictAll_length ks s :
  (length (Cache.cache (evictAll ks s)) ≤ length (Cache.cache s))%nat.
Proof. rewrite evictAll_cache. apply length_filter. Qed.

(** What [ensureSpace] does: it throws before evicting anything, which
    takes an empty cache at or over [maxSize], or it returns after evicting
    some keys, the first [toRemove] of the sorted array among them when the
    cache was at or over [maxSize]. *)
Lemma ensureSpace_evicts (newEntrySize : Z) s :
  (Cache.cache s = [] ∧ Z.of_nat (length (Cache.cache s)) >= Cache.maxSize (Cache.config s) ∧
   Cache.ensureSpace newEntrySize s = (Cache.TypeError, s)) ∨
  ∃ ks, Cache.ensureSpace newEntrySize s = (Cache.Normal (), evictAll ks s) ∧
        (Z.of_nat (length (Cache.cache s)) >= Cache.maxSize (Cache.config s) →
         Cache.cache s ≠ [] ∧
         ∃ ks', ks = (take (toRemove s) (lruOrder s)).*1 ++ ks').
Proof.
  unfold Cache.ensureSpace.
  destruct (decide (Z.of_nat (length (Cache.cache s)) >= Cache.maxSize (Cache.config s)))
    as [Hfull|Hroom].
  - destruct (decide (Cache.cache s = [])) as [Hempty|Hne].
    + left. by rewrite evictLeastRecentlyUsed_empty.
    + right. rewrite evictLeastRecentlyUsed_evicts by done.
      set (ks1 := (take (toRemove s) (lruOrder s)).*1).
      destruct (decide _).
      * unfold Cache.evictByMemoryPressure.
        match goal with |- context [Cache.pressureLoop ?e ?r ?f ?s1] =>
          destruct (pressureLoop_prefix e r f s1) as [j ->] end.
        eexists. rewrite <-evictAll_app. split; [done|]. intros _. eauto.
      * exists (ks1 ++ []). rewrite evictAll_app. split; [done|]. intros _. eauto.
  - right. destruct (decide _).
    + unfold Cache.evictByMemoryPressure.
      match goal with |- context [Cache.pressureLoop ?e ?r ?f ?s1] =>
        destruct (pressureLoop_prefix e r f s1) as [j ->] end.
      eexists. split; [done|]. intros Hfull. done.
    + exists []. split; [done|]. intros Hfull. done.
Qed.

End CountPressure.

Section LeastRecentlyUsed.
Context {V : Type} (jsonStringifyLength : V → option N).
Implicit Types (s : Cache.CacheManager V) (k : string)
  (m entries : list (string * Cache.CacheEntry V)) (ks : list string).

Lemma filter_two_out {A} (P : A → Prop) `{!∀ x, Decision (P x)}
    `{!EqDecision A} (l : list A) x y :
  x ≠ y → x ∈ l → y ∈ l → ¬ P x → ¬ P y →
  (length (filter P l) + 2 ≤ length l)%nat.
Proof.
  intros Hxy Hx Hy HPx HPy.
  assert (Hin : y ∈ filter (λ z, z ≠ x) l) by (apply list_elem_of_filter; auto).
  pose proof (length_filter_lt (λ z, z ≠ x) l x Hx (λ H, H eq_refl)) as H1.
  pose proof (length_filter_lt P _ y Hin HPy) as H2.
  rewrite list_filter_filter_l in H2 by (intros z HPz ->; done). lia.
Qed.

(** The first element of the sorted array is an entry of the cache accessed
    no later than any other. *)
Lemma lruOrder_head s :
  Cache.cache s ≠ [] →
  ∃ victim, head (lruOrder s) = Some victim ∧ victim ∈ Cache.cache s ∧
            victim ∈ take (toRemove s) (lruOrder s) ∧
            ∀ e, e ∈ Cache.cache s →
                 Cache.lastAccessed victim.2 ≤ Cache.lastAccessed e.2.
Proof.
  intros Hne. pose proof (toRemove_bounds s Hne) as Hm.
  pose proof (lruOrder_perm s) as Hperm.
  pose proof (sort_sorted _ (λ p : string * Cache.CacheEntry V, Cache.lastAccessed p.2)
                lru_rank (Cache.cache s)) as Hsorted.
  fold (lruOrder s) in Hsorted.
  destruct (lruOrder s) as [|victim rest] eqn:Horder.
  { apply Permutation_nil_l in Hperm. done. }
  exists victim. split_and!; [done | | |].
  - rewrite <-Hperm. left.
  - destruct (toRemove s); [lia | left].
  - intros e He. rewrite <-Hperm in He.
    apply StronglySorted_cons in Hsorted as [Hall _].
    apply elem_of_cons in He as [->|He]; [done|].
    by apply (proj1 (Forall_forall _ _) Hall).
Qed.

Lemma filter_take_drop (l : list (string * Cache.CacheEntry V)) (n : nat) :
  NoDup l.*1 → filter (λ p, p.1 ∉ (take n l).*1) l = drop n l.
Proof.
  intros Hnodup.
  transitivity (filter (λ p, p.1 ∉ (take n l).*1) (take n l ++ drop n l));
    [by rewrite take_drop|].
  rewrite <-(take_drop n l), fmap_app in Hnodup.
  apply NoDup_app in Hnodup as (_ & Hdisjoint & _).
  rewrite filter_app. rewrite filter_none, filter_all; [done| |].
  - intros p Hp Hin. apply (Hdisjoint p.1 Hin). by apply list_elem_of_fmap_2.
  - intros p Hp Hout. apply Hout. by apply list_elem_of_fmap_2.
Qed.

(** What is left after the count-based eviction is the rest of the sorted
    array. *)
Lemma lru_kept s :
  JsMap.wf (Cache.cache s) →
  Cache.cache (evictAll (take (toRemove s) (lruOrder s)).*1 s) ≡ₚ
  drop (toRemove s) (lruOrder s).
Proof.
  intros Hwf. rewrite evictAll_cache.
  rewrite <-filter_take_drop by by rewrite lruOrder_perm.
  apply filter_Permutation. symmetry. apply lruOrder_perm.
Qed.

(** [set] throws before changing anything, which takes an empty cache with
    [maxSize <= 0], or stores the entry after the evictions of
    [ensureSpace]. *)
Lemma set_evicts (now : Z) k (v : V) (t : option Z) s :
  let entry := {| Cache.key := k; Cache.value := v; Cache.timestamp := now;
                  Cache.ttl := Cache.entryTtl t s; Cache.accessCount := 1;
                  Cache.lastAccessed := now;
                  Cache.size := Cache.estimateSize jsonStringifyLength v |} in
  (Cache.cache s = [] ∧ Z.of_nat (length (Cache.cache s)) >= Cache.maxSize (Cache.config s) ∧
   Cache.set jsonStringifyLength now k v t s = (Cache.TypeError, s)) ∨
  ∃ ks, Cache.set jsonStringifyLength now k v t s =
          (Cache.Normal (),
           Cache.with_cache (JsMap.set (Cache.cache (evictAll ks s)) k entry)
             (evictAll ks s)) ∧
        (Z.of_nat (length (Cache.cache s)) >= Cache.maxSize (Cache.config s) →
         Cache.cache s ≠ [] ∧
         ∃ ks', ks = (take (toRemove s) (lruOrder s)).*1 ++ ks').
Proof.
  intros entry. unfold Cache.set.
  destruct (ensureSpace_evicts (Cache.estimateSize jsonStringifyLength v) s)
    as [(Hempty & Hfull & ->) | (ks & -> & Hks)]; [by left|].
  right. by exists ks.
Qed.

Lemma evictAll_keys ks s :
  JsMap.keys (Cache.cache (evictAll ks s)) =
  filter (λ k, k ∉ ks) (JsMap.keys (Cache.cache s)).
Proof.
  rewrite evictAll_cache. unfold JsMap.keys.
  induction (Cache.cache s) as [|[k e] m IH]; [done|].
  rewrite fmap_cons, !filter_cons. simpl.
  destruct (decide (k ∉ ks)); [rewrite fmap_cons; f_equal|]; apply IH.
Qed.

Lemma evictAll_length_keys ks s :
  length (Cache.cache (evictAll ks s)) =
  length (filter (λ k, k ∉ ks) (JsMap.keys (Cache.cache s))).
Proof. rewrite <-evictAll_keys. unfold JsMap.keys. by rewrite length_fmap. Qed.

(** C10.  Replacement at capacity still evicts.  In a cache that holds
    exactly [maxSize] entries, [set] with a key that is already stored
    returns after a count-based eviction that came before the insertion (the
    eviction counter has gone up), and an entry with the oldest
    [lastAccessed] is among the evicted.  The new entry is stored; the victim,
    when it is another key, is gone, and then the cache holds fewer entries
    than before.  In no case does it hold more. *)
Theorem replace_at_capacity_evicts (now : Z) k (v : V) (t : option Z) s :
  JsMap.wf (Cache.cache s) →
  Z.of_nat (length (Cache.cache s)) = Cache.maxSize (Cache.config s) →
  is_Some (JsMap.get (Cache.cache s) k) →
  ∃ victim s',
    victim ∈ Cache.cache s ∧
    (∀ e, e ∈ Cache.cache s → Cache.lastAccessed victim.2 ≤ Cache.lastAccessed e.2) ∧
    Cache.set jsonStringifyLength now k v t s = (Cache.Normal (), s') ∧
    Cache.evictions (Cache.stats s) + 1 ≤ Cache.evictions (Cache.stats s') ∧
    Cache.value <$> JsMap.get (Cache.cache s') k = Some v ∧
    (length (Cache.cache s') ≤ length (Cache.cache s))%nat ∧
    (victim.1 ≠ k →
       JsMap.get (Cache.cache s') victim.1 = None ∧
       (length (Cache.cache s') < length (Cache.cache s))%nat).
Proof.
  intros Hwf Hfull Hold.
  assert (Hne : Cache.cache s ≠ []).
  { intros Hempty. rewrite Hempty in Hold. by destruct Hold. }
  destruct (lruOrder_head s Hne) as (victim & _ & Hvictim & Htaken & Hmin).
  destruct (set_evicts now k v t s)
    as [(Hempty & _) | (ks & Hset & Hks)]; [done|].
  destruct Hks as (_ & ks' & ->); [lia|].
  set (ks := (take (toRemove s) (lruOrder s)).*1 ++ ks') in *.
  assert (Hvk : victim.1 ∈ ks).
  { apply elem_of_app. left. by apply list_elem_of_fmap_2. }
  assert (Hvkeys : victim.1 ∈ JsMap.keys (Cache.cache s)).
  { by apply list_elem_of_fmap_2. }
  assert (Hlen : length (JsMap.keys (Cache.cache s)) = length (Cache.cache s)).
  { unfold JsMap.keys. by rewrite length_fmap. }
  pose proof (length_filter_lt (λ k, k ∉ ks) _ victim.1 Hvkeys (λ H, H Hvk)) as Hlt.
  eexists victim, _. split_and!; [done | done | exact Hset | | | |]; simpl.
  - destruct (evictAll_stats ks s) as (-> & _). subst ks.
    rewrite length_app, length_fmap, length_take, lruOrder_length.
    pose proof (toRemove_bounds s Hne). lia.
  - by rewrite JsMap_get_set_eq.
  - rewrite JsMap_length_set, evictAll_length_keys. destruct (decide _); lia.
  - intros Hother. split.
    + rewrite JsMap_get_set_ne by done. by apply evictAll_get_evicted.
    + rewrite JsMap_length_set, evictAll_length_keys. destruct (decide _) as [Hin|Hout]; [lia|].
      rewrite evictAll_keys in Hout. apply JsMap_get_is_Some in Hold.
      assert (Hk : ¬ (k ∉ ks)) by (intros Hk; apply Hout; by apply list_elem_of_filter).
      pose proof (filter_two_out (λ k, k ∉ ks) (JsMap.keys (Cache.cache s))
                    victim.1 k Hother Hvkeys Hold (λ H, H Hvk) Hk). lia.
Qed.

End LeastRecentlyUsed.

Lemma scenarioB_refreshed (t1 t2 t3 t3' t4 : Z) :
  t3 - t1 ≤ 300000 → t2 < t3' →
  JsMap.keys (Cache.cache (scenarioB t1 t2 t3 t3' t4)) = ["a"; "c"] ∧
  Cache.evictions (Cache.stats (scenarioB t1 t2 t3 t3' t4)) = 1.
Proof.
  intros Hfresh Hlater. unfold scenarioB, Cache.new. cbv zeta.
  do 4 step_cache. done.
Qed.

(** C4, as the code has it.  When [set] finds the cache at or over
    [maxSize] (and not empty), it evicts before inserting: the entries split
    into the removed ones and the kept ones, the removed ones number
    [max(1, floor(n / 10))] for [n] entries, none of them was accessed later
    than a kept one, the eviction counter goes up by their number, and after
    the insertion none of their keys, the inserted key apart, is in the
    cache.  In Scenario B ([maxSize = 2]; [set a], [set b], [get a],
    [set c]), when "a" has not expired at the [get] and the [get] stamps "a"
    with a clock value later than the one [set b] read, "b" is evicted and
    "a" and "c" remain. *)
Theorem lru_count_eviction {V : Type} (jsonStringifyLength : V → option N)
    (s : Cache.CacheManager V) (now : Z) (k : string) (v : V) (t : option Z)
    (t1 t2 t3 t3' t4 : Z) :
  JsMap.wf (Cache.cache s) →
  Cache.cache s ≠ [] →
  Z.of_nat (length (Cache.cache s)) >= Cache.maxSize (Cache.config s) →
  t3 - t1 ≤ 300000 →
  t2 < t3' →
  (∃ removed kept s1 s',
     Cache.cache s ≡ₚ removed ++ kept ∧
     Z.of_nat (length removed) = Z.max 1 (Z.of_nat (length (Cache.cache s)) / 10) ∧
     (∀ r e, r ∈ removed → e ∈ kept →
             Cache.lastAccessed r.2 ≤ Cache.lastAccessed e.2) ∧
     Cache.evictLeastRecentlyUsed s = (Cache.Normal (), s1) ∧
     Cache.cache s1 ≡ₚ kept ∧
     Cache.evictions (Cache.stats s1) =
       Cache.evictions (Cache.stats s) + Z.of_nat (length removed) ∧
     Cache.set jsonStringifyLength now k v t s = (Cache.Normal (), s') ∧
     (∀ r, r ∈ removed → r.1 ≠ k → JsMap.get (Cache.cache s') r.1 = None)) ∧
  JsMap.keys (Cache.cache (scenarioB t1 t2 t3 t3' t4)) = ["a"; "c"].
Proof.
  intros Hwf Hne Hfull Hfresh Hlater. split; [|by apply scenarioB_refreshed].
  pose proof (toRemove_bounds s Hne) as Hm.
  destruct (set_evicts jsonStringifyLength now k v t s)
    as [(Hempty & _) | (ks & Hset & Hks)]; [done|].
  destruct (Hks Hfull) as (_ & ks' & ->).
  exists (take (toRemove s) (lruOrder s)), (drop (toRemove s) (lruOrder s)).
  eexists _, _. split_and!.
  - by rewrite take_drop, lruOrder_perm.
  - rewrite length_take, lruOrder_length. unfold toRemove in *. lia.
  - intros r e Hr He.
    by apply (sort_take_drop _ (λ p : string * Cache.CacheEntry V, Cache.lastAccessed p.2)
                lru_rank (Cache.cache s) (toRemove s) r e).
  - by apply evictLeastRecentlyUsed_evicts.
  - by apply lru_kept.
  - destruct (evictAll_stats (take (toRemove s) (lruOrder s)).*1 s) as (-> & _).
    by rewrite length_fmap.
  - exact Hset.
  - intros r Hr Hother. simpl. rewrite JsMap_get_set_ne by done.
    apply evictAll_get_evicted, elem_of_app. left. by apply list_elem_of_fmap_2.
Qed.

(** Scenario B with a clock that advances, next to an insertion into the
    full cache of twelve. *)
Lemma lru_count_eviction_witness :
  JsMap.keys (Cache.cache (scenarioB 0 1 2 2 3)) = ["a"; "c"].
Proof.
  apply (lru_count_eviction Sample.jsonStringifyLength sampleFull 13 "k13"
           (Sample.Num 13) None 0 1 2 2 3).
  - unfold JsMap.wf. compute_done.
  - by vm_compute.
  - by vm_compute.
  - lia.
  - lia.
Defined.

(** C4 as stated fails.  Scenario B run within one millisecond: all four
    calls read the same clock value, the [get] leaves the [lastAccessed] of
    "a" where it was, the stable sort keeps insertion order, and "a" is
    evicted while "b" remains. *)
Lemma scenarioB_same_millisecond :
  JsMap.keys (Cache.cache (scenarioB 0 0 0 0 0)) = ["b"; "c"].
Proof. by vm_compute. Qed.

(** "a" is stored again in the full cache of Scenario B. *)
Lemma replace_at_capacity_evicts_witness :
  ∃ victim s',
    victim ∈ Cache.cache sampleTwo ∧
    (∀ e, e ∈ Cache.cache sampleTwo →
          Cache.lastAccessed victim.2 ≤ Cache.lastAccessed e.2) ∧
    Sample.set 3 "a" (Sample.Num 9) None sampleTwo = (Cache.Normal (), s') ∧
    Cache.evictions (Cache.stats sampleTwo) + 1 ≤ Cache.evictions (Cache.stats s') ∧
    Cache.value <$> JsMap.get (Cache.cache s') "a" = Some (Sample.Num 9) ∧
    (length (Cache.cache s') ≤ length (Cache.cache sampleTwo))%nat ∧
    (victim.1 ≠ "a" →
       JsMap.get (Cache.cache s') victim.1 = None ∧
       (length (Cache.cache s') < length (Cache.cache sampleTwo))%nat).
Proof.
  apply (replace_at_capacity_evicts Sample.jsonStringifyLength 3 "a" (Sample.Num 9)
           None sampleTwo).
  - unfold JsMap.wf. compute_done.
  - by vm_compute.
  - eexists. by vm_compute.
Defined.

(** Replacing "a" in the full cache of Scenario B evicts "b": one entry is
    left where there were two. *)
Example replace_evicts_other_key :
  JsMap.keys (Cache.cache sampleTwo) = ["a"; "b"] ∧
  JsMap.keys (Cache.cache (Sample.set 3 "a" (Sample.Num 9) None sampleTwo).2) = ["a"].
Proof. by vm_compute. Qed.

(** C1 fails on the code at a value too large for the budget.  A cache
    configured with [maxMemoryMB = 1] is given the string of 600000
    characters ['x'.repeat(600000)], whose estimated size is 1200004 bytes:
    [ensureSpace] finds nothing to evict, the entry is stored, and the sum of
    the sizes exceeds [maxMemoryBytes] = 1048576. *)
Theorem oversized_value_exceeds_budget :
  let s := Cache.new {| Cache.maxSize := 1000; Cache.defaultTtl := 300000;
                        Cache.maxMemoryMB := 1; Cache.cleanupInterval := 60000 |} in
  let s' := (Sample.set 0 "big" (Sample.Xs 600000) None s).2 in
  JsMap.keys (Cache.cache s') = ["big"] ∧
  Cache.getCurrentMemoryUsage s' = 1200004 ∧
  Cache.maxMemoryBytes s' = 1048576 ∧
  ¬ Cache.getCurrentMemoryUsage s' ≤ Cache.maxMemoryBytes s'.
Proof. by vm_compute. Qed.

(** ** The budgets *)

Section Budget.
Context {V : Type} (jsonStringifyLength : V → option N).
Implicit Types (s : Cache.CacheManager V) (k : string)
  (m entries : list (string * Cache.CacheEntry V)) (ks : list string).

Lemma usage_total s : Cache.getCurrentMemoryUsage s = total (Cache.cache s).
Proof.
  unfold Cache.getCurrentMemoryUsage.
  assert (H : ∀ m a, foldl (λ sum p, sum + Cache.size p.2) a m = a + total m).
  { intros m. induction m as [|p m IH]; intros a; simpl; [lia|]. rewrite IH. lia. }
  rewrite H. lia.
Qed.

Lemma total_app m1 m2 : total (m1 ++ m2) = total m1 + total m2.
Proof. induction m1 as [|p m1 IH]; simpl; [done|]. rewrite IH. lia. Qed.

Lemma total_perm m1 m2 : m1 ≡ₚ m2 → total m1 = total m2.
Proof. induction 1; simpl; lia. Qed.

Lemma total_nonneg m : sized m → 0 ≤ total m.
Proof. induction 1; simpl; lia. Qed.

Lemma total_filter (P : string * Cache.CacheEntry V → Prop)
    `{!∀ p, Decision (P p)} m :
  sized m → total (filter P m) ≤ total m.
Proof.
  induction 1 as [|p m Hp Hm IH]; [done|].
  rewrite filter_cons. destruct (decide (P p)); simpl; lia.
Qed.

Lemma sized_filter (P : string * Cache.CacheEntry V → Prop)
    `{!∀ p, Decision (P p)} m : sized m → sized (filter P m).
Proof.
  induction 1 as [|p m Hp Hm IH]; [constructor|].
  rewrite filter_cons. destruct (decide (P p)); [by constructor | done].
Qed.

Lemma estimateSize_nonneg (v : V) : 0 ≤ Cache.estimateSize jsonStringifyLength v.
Proof. unfold Cache.estimateSize. destruct (jsonStringifyLength v); lia. Qed.

Lemma total_set m k (e : Cache.CacheEntry V) :
  sized m → total (JsMap.set m k e) ≤ total m + Cache.size e.
Proof.
  induction 1 as [|[k' e'] m Hp Hm IH]; simpl; [lia|].
  destruct (decide (k' = k)); simpl in *; lia.
Qed.

Lemma sized_set m k (e : Cache.CacheEntry V) :
  sized m → 0 ≤ Cache.size e → sized (JsMap.set m k e).
Proof.
  intros Hm He. induction Hm as [|[k' e'] m Hp Hm IH]; simpl.
  - by repeat constructor.
  - destruct (decide (k' = k)); by constructor.
Qed.

(** The memory loop stops at the end of the array or when it has freed the
    space asked for. *)
Lemma pressureLoop_freed entries (requiredSpace freedSpace : Z) s :
  ∃ n, Cache.pressureLoop entries requiredSpace freedSpace s =
         evictAll (take n entries).*1 s ∧
       (take n entries = entries ∨
        freedSpace + total (take n entries) >= requiredSpace).
Proof.
  revert freedSpace s. induction entries as [|[k e] entries IH]; intros freedSpace s.
  - exists 0%nat. split; [done | by left].
  - simpl. destruct (decide (freedSpace >= requiredSpace)).
    + exists 0%nat. split; [done|]. right. simpl. lia.
    + destruct (IH (freedSpace + Cache.size e) (Cache.evict k s)) as (j & -> & Hj).
      exists (S j). split; [done|]. simpl. destruct Hj as [-> | Hj]; [by left|].
      right. lia.
Qed.

(** After [evictByMemoryPressure] the cache is empty or lighter by at least
    the space asked for. *)
Lemma evictByMemoryPressure_frees (requiredSpace : Z) s :
  JsMap.wf (Cache.cache s) → sized (Cache.cache s) →
  let s' := Cache.evictByMemoryPressure requiredSpace s in
  (∃ ks, s' = evictAll ks s) ∧
  (Cache.cache s' = [] ∨ total (Cache.cache s') + requiredSpace ≤ total (Cache.cache s)).
Proof.
  intros Hwf Hsized. unfold Cache.evictByMemoryPressure.
  set (entries := JsArray.sort _ (Cache.cache s)).
  assert (Hperm : entries ≡ₚ Cache.cache s) by apply sort_perm.
  destruct (pressureLoop_freed entries requiredSpace 0 s) as (n & Hloop & Hn).
  simpl. rewrite Hloop. split; [by eexists|].
  assert (Hkept : Cache.cache (evictAll (take n entries).*1 s) ≡ₚ drop n entries).
  { rewrite evictAll_cache. rewrite <-filter_take_drop by by rewrite Hperm.
    by apply filter_Permutation. }
  destruct Hn as [Hall | Hfreed].
  - left. apply Permutation_nil_r. rewrite Hkept.
    rewrite <-(take_drop n entries) in Hall at 2.
    rewrite <-(app_nil_r (take n entries)) in Hall at 1.
    by apply app_inv_head in Hall as <-.
  - right. rewrite (total_perm _ _ Hkept), <-(total_perm _ _ Hperm).
    rewrite <-(take_drop n entries) at 2. rewrite total_app. lia.
Qed.

Lemma evictAll_sized ks s : sized (Cache.cache s) → sized (Cache.cache (evictAll ks s)).
Proof. rewrite evictAll_cache. apply sized_filter. Qed.

Lemma evictAll_total ks s :
  sized (Cache.cache s) → total (Cache.cache (evictAll ks s)) ≤ total (Cache.cache s).
Proof. rewrite evictAll_cache. apply total_filter. Qed.

(** Entry count.  Whatever the key, the value and the sizes, a [set] call on
    a cache with at most [maxSize] entries leaves at most [maxSize]
    entries. *)
Lemma set_counted (now : Z) k (v : V) (t : option Z) s :
  counted s → counted (Cache.set jsonStringifyLength now k v t s).2.
Proof.
  intros (Hwf & Hsized & Hcount).
  destruct (set_evicts jsonStringifyLength now k v t s)
    as [(_ & _ & ->) | (ks & -> & Hks)]; [done|].
  unfold counted. simpl. split_and!.
  - by apply JsMap_wf_set, evictAll_wf.
  - apply sized_set; [by apply evictAll_sized | apply estimateSize_nonneg].
  - rewrite evictAll_config, JsMap_length_set.
    pose proof (evictAll_length ks s) as Hle.
    destruct (decide (Z.of_nat (length (Cache.cache s)) >= Cache.maxSize (Cache.config s)))
      as [Hfull|Hroom]; [|destruct (decide _); lia].
    destruct (Hks Hfull) as (Hne & ks' & ->).
    destruct (lruOrder_head s Hne) as (victim & _ & Hvictim & Htaken & _).
    assert (Hlt : (length (Cache.cache (evictAll
                     ((take (toRemove s) (lruOrder s)).*1 ++ ks') s))
                   < length (Cache.cache s))%nat).
    { rewrite evictAll_cache. apply (length_filter_lt _ _ victim Hvictim).
      intros Hout. apply Hout, elem_of_app. left. by apply list_elem_of_fmap_2. }
    destruct (decide _); lia.
Qed.

(** Memory.  A [set] call whose value fits the budget on its own keeps the
    sum of the sizes within [maxMemoryBytes]. *)
Lemma set_within_memory (now : Z) k (v : V) (t : option Z) s :
  counted s →
  Cache.getCurrentMemoryUsage s ≤ Cache.maxMemoryBytes s →
  Cache.estimateSize jsonStringifyLength v ≤ Cache.maxMemoryBytes s →
  let s' := (Cache.set jsonStringifyLength now k v t s).2 in
  Cache.getCurrentMemoryUsage s' ≤ Cache.maxMemoryBytes s' ∧
  Cache.maxMemoryBytes s' = Cache.maxMemoryBytes s.
Proof.
  intros (Hwf & Hsized & _) Hmem Hfit. rewrite usage_total in Hmem.
  unfold Cache.set, Cache.ensureSpace.
  set (r := if decide _ then Cache.evictLeastRecentlyUsed s else (Cache.Normal (), s)).
  assert (Hr : r = (Cache.TypeError, s) ∨ ∃ ks, r = (Cache.Normal (), evictAll ks s)).
  { subst r. destruct (decide _); [|right; by exists []].
    destruct (decide (Cache.cache s = [])) as [Hempty|Hne].
    - left. by apply evictLeastRecentlyUsed_empty.
    - right. rewrite evictLeastRecentlyUsed_evicts by done. by eexists. }
  destruct Hr as [-> | (ks & ->)]; simpl; [by rewrite usage_total|].
  set (s1 := evictAll ks s).
  assert (Hwf1 : JsMap.wf (Cache.cache s1)) by by apply evictAll_wf.
  assert (Hsized1 : sized (Cache.cache s1)) by by apply evictAll_sized.
  assert (Hmem1 : total (Cache.cache s1) ≤ Cache.maxMemoryBytes s).
  { pose proof (evictAll_total ks s Hsized). fold s1 in H. lia. }
  assert (Hmax1 : Cache.maxMemoryBytes s1 = Cache.maxMemoryBytes s).
  { unfold Cache.maxMemoryBytes, s1. by rewrite evictAll_config. }
  pose proof (estimateSize_nonneg v) as Hsize.
  destruct (decide (Cache.getCurrentMemoryUsage s1 + _ > Cache.maxMemoryBytes s1))
    as [Hover|Hunder]; simpl; rewrite usage_total in *; simpl.
  - destruct (evictByMemoryPressure_frees
                (Cache.estimateSize jsonStringifyLength v) s1 Hwf1 Hsized1)
      as [(ks2 & Hs2) Hfreed].
    set (s2 := Cache.evictByMemoryPressure _ s1) in *.
    assert (Hmax2 : Cache.maxMemoryBytes s2 = Cache.maxMemoryBytes s).
    { rewrite Hs2. unfold Cache.maxMemoryBytes. rewrite evictAll_config. exact Hmax1. }
    assert (Hsized2 : sized (Cache.cache s2)) by (rewrite Hs2; by apply evictAll_sized).
    change (Cache.maxMemoryBytes (Cache.with_cache ?m s2)) with (Cache.maxMemoryBytes s2).
    rewrite Hmax2. split; [|done].
    etransitivity; [by apply total_set|]. simpl.
    destruct Hfreed as [-> | Hfreed]; [simpl; lia | lia].
  - change (Cache.maxMemoryBytes (Cache.with_cache ?m s1)) with (Cache.maxMemoryBytes s1).
    rewrite Hmax1. split; [|done].
    etransitivity; [by apply total_set|]. simpl. lia.
Qed.

End Budget.

(** The budgets over a sequence of [set] calls on a new cache: the number of
    entries never exceeds [maxSize], whatever is stored, and the sum of the
    sizes stays within [maxMemoryBytes] as long as every value fits the budget
    on its own.  The statement is about the state after all the calls of any
    sequence, hence about the state after each call. *)
Theorem budget_when_values_fit {V : Type} (jsonStringifyLength : V → option N)
    (cfg : Cache.CacheConfig) (calls : list (Z * string * V * option Z)) :
  0 ≤ Cache.maxSize cfg →
  0 ≤ Cache.maxMemoryMB cfg →
  let s := Cache.setAll jsonStringifyLength calls (Cache.new cfg) in
  Z.of_nat (length (Cache.cache s)) ≤ Cache.maxSize cfg ∧
  ((∀ c, c ∈ calls →
         Cache.estimateSize jsonStringifyLength c.1.2 ≤ Cache.maxMemoryMB cfg * 1024 * 1024) →
   Cache.getCurrentMemoryUsage s ≤ Cache.maxMemoryMB cfg * 1024 * 1024).
Proof.
  intros Hsize Hmem. unfold Cache.setAll.
  assert (Hinv : ∀ s0, counted s0 → Cache.config s0 = cfg →
            let s := foldl (λ s c, (Cache.set jsonStringifyLength c.1.1.1 c.1.1.2
                                      c.1.2 c.2 s).2) s0 calls in
            counted s ∧ Cache.config s = cfg ∧
            (Cache.getCurrentMemoryUsage s0 ≤ Cache.maxMemoryBytes s0 →
             (∀ c, c ∈ calls →
                   Cache.estimateSize jsonStringifyLength c.1.2 ≤
                   Cache.maxMemoryMB cfg * 1024 * 1024) →
             Cache.getCurrentMemoryUsage s ≤ Cache.maxMemoryBytes s)).
  { induction calls as [|c calls IH]; intros s0 Hcounted Hcfg; [done|].
    cbn [foldl].
    pose proof (set_counted jsonStringifyLength c.1.1.1 c.1.1.2 c.1.2 c.2 s0 Hcounted)
      as Hcounted'.
    assert (Hcfg' : Cache.config (Cache.set jsonStringifyLength c.1.1.1 c.1.1.2
                                    c.1.2 c.2 s0).2 = cfg).
    { destruct (set_evicts jsonStringifyLength c.1.1.1 c.1.1.2 c.1.2 c.2 s0)
        as [(_ & _ & ->) | (ks & -> & _)]; [done|]. simpl. by rewrite evictAll_config. }
    destruct (IH _ Hcounted' Hcfg') as (Hc & Hg & Hm). split_and!; [done..|].
    intros Hmem0 Hfit. apply Hm.
    - apply set_within_memory; [done..|].
      unfold Cache.maxMemoryBytes. rewrite Hcfg. apply Hfit. left.
    - intros c' Hc'. apply Hfit. by right. }
  destruct (Hinv (Cache.new cfg)) as ((_ & _ & Hcount) & Hcfg & Hmemory).
  { split_and!; [apply NoDup_nil_2 | constructor | simpl; lia]. }
  { done. }
  rewrite Hcfg in Hcount. split; [done|]. intros Hfit.
  unfold Cache.maxMemoryBytes in Hmemory. rewrite Hcfg in Hmemory.
  apply Hmemory; [|done]. simpl. unfold Cache.getCurrentMemoryUsage. simpl. lia.
Qed.

(** ** Round trips of the cache manager *)

Section CacheRoundTrips.
Context {V : Type} (jsonStringifyLength : V → option N).
Implicit Types (s : Cache.CacheManager V) (k : string) (entry : Cache.CacheEntry V).

(** X1: round trip of [set] and [get].  On a cache manager whose [maxSize] is
    positive, [set(key, value, ttl)] returns normally whatever the cache held
    (evictions included), and a [get] or a [has] of the key made while no
    more than the time to live of the entry has passed since the [set]
    ([ttl], or [defaultTtl] when [ttl] is missing or 0) returns the value,
    respectively [true]. *)
Theorem set_then_get (now now1 now2 : Z) k (v : V) (t : option Z) s :
  0 < Cache.maxSize (Cache.config s) →
  now1 - now ≤ Cache.entryTtl t s →
  ∃ s',
    Cache.set jsonStringifyLength now k v t s = (Cache.Normal (), s') ∧
    (Cache.get now1 now2 k s').1 = Some v ∧
    (Cache.has now1 k s').1 = true.
Proof.
  intros Hsize Hfresh.
  destruct (set_evicts jsonStringifyLength now k v t s)
    as [(Hempty & Hfull & _) | (ks & Hset & _)].
  { rewrite Hempty in Hfull. simpl in Hfull. lia. }
  eexists. split; [exact Hset|].
  unfold Cache.get, Cache.has. simpl. rewrite JsMap_get_set_eq.
  unfold Cache.isExpired. simpl.
  rewrite bool_decide_eq_false_2 by lia. done.
Qed.

Lemma get_entry_kept s k k0 entry now now' :
  (∀ e, JsMap.get (Cache.cache s) k = Some e →
        Cache.timestamp e = Cache.timestamp entry ∧ Cache.ttl e = Cache.ttl entry) →
  ∀ e, JsMap.get (Cache.cache (Cache.get now now' k0 s).2) k = Some e →
       Cache.timestamp e = Cache.timestamp entry ∧ Cache.ttl e = Cache.ttl entry.
Proof.
  intros Hinv e. destruct (decide (k0 = k)) as [->|Hne].
  - unfold Cache.get. destruct (JsMap.get (Cache.cache s) k) as [e0|] eqn:Hget.
    + destruct (Cache.isExpired now e0); simpl.
      * by rewrite JsMap_get_delete_eq.
      * rewrite JsMap_get_set_eq. intros [= <-]. simpl. by apply Hinv.
    + simpl. by rewrite Hget.
  - rewrite get_other_keys by done. apply Hinv.
Qed.

(** X2: the time to live of an entry runs from its [set] and reading does not
    renew it.  When the entry stored under a key is expired at time [now]
    ([now - timestamp > ttl]), a [get] of the key at [now] is a miss
    whatever [get] calls, of this key or of others and at whatever times,
    were made in between. *)
Theorem reads_do_not_extend_ttl s k entry (reads : list (Z * Z * string)) now now' :
  JsMap.get (Cache.cache s) k = Some entry →
  now - Cache.timestamp entry > Cache.ttl entry →
  let s' := foldl (λ s r, (Cache.get r.1.1 r.1.2 r.2 s).2) s reads in
  (Cache.get now now' k s').1 = None.
Proof.
  intros Hget Hold s'.
  assert (Hinv : ∀ e, JsMap.get (Cache.cache s') k = Some e →
            Cache.timestamp e = Cache.timestamp entry ∧ Cache.ttl e = Cache.ttl entry).
  { subst s'. assert (H0 : ∀ e, JsMap.get (Cache.cache s) k = Some e →
            Cache.timestamp e = Cache.timestamp entry ∧ Cache.ttl e = Cache.ttl entry).
    { intros e He. rewrite Hget in He. by injection He as <-. }
    clear Hget. revert s H0. induction reads as [|r reads IH]; intros s H0; [done|].
    cbn [foldl]. apply IH. by apply get_entry_kept. }
  unfold Cache.get. destruct (JsMap.get (Cache.cache s') k) as [e|] eqn:He; [|done].
  destruct (Hinv e eq_refl) as [Hts Httl].
  unfold Cache.isExpired. rewrite bool_decide_eq_true_2 by lia. done.
Qed.

(** X3: [delete(key)] returns whether the key was stored; after it a [get] or
    a [has] of the key is a miss at any time, the entries of the other keys
    are what they were and the counters are unchanged. *)
Theorem delete_then_miss s k :
  let r := Cache.delete k s in
  (r.1 = true ↔ k ∈ JsMap.keys (Cache.cache s)) ∧
  (∀ now now', (Cache.get now now' k r.2).1 = None) ∧
  (∀ now, (Cache.has now k r.2).1 = false) ∧
  (∀ k', k' ≠ k → JsMap.get (Cache.cache r.2) k' = JsMap.get (Cache.cache s) k') ∧
  Cache.stats r.2 = Cache.stats s.
Proof.
  simpl. split_and!.
  - unfold JsMap.has. rewrite bool_decide_eq_true. apply JsMap_get_is_Some.
  - intros now now'. unfold Cache.get. simpl. by rewrite JsMap_get_delete_eq.
  - intros now. unfold Cache.has. simpl. by rewrite JsMap_get_delete_eq.
  - intros k' Hne. by apply JsMap_get_delete_ne.
  - done.
Qed.

End CacheRoundTrips.

(** A value stored for a second and read at the last millisecond of its
    life. *)
Lemma set_then_get_witness :
  ∃ s',
    Sample.set 0 "doc:1" (Sample.Num 7) (Some 1000)
      (Cache.new Cache.DEFAULT_CACHE_CONFIG) = (Cache.Normal (), s') ∧
    (Cache.get 1000 1000 "doc:1" s').1 = Some (Sample.Num 7) ∧
    (Cache.has 1000 "doc:1" s').1 = true.
Proof.
  apply (set_then_get Sample.jsonStringifyLength 0 1000 1000 "doc:1"
           (Sample.Num 7) (Some 1000) (Cache.new Cache.DEFAULT_CACHE_CONFIG));
    by vm_compute.
Defined.

(** An entry of one second read twice within its life and once after. *)
Lemma reads_do_not_extend_ttl_witness :
  let s := (Sample.set 0 "doc:1" (Sample.Num 7) (Some 1000)
              (Cache.new Cache.DEFAULT_CACHE_CONFIG)).2 in
  let s' := (Cache.get 900 900 "doc:1" (Cache.get 500 500 "doc:1" s).2).2 in
  (Cache.get 1001 1001 "doc:1" s').1 = None.
Proof.
  intros s.
  apply (reads_do_not_extend_ttl s "doc:1"
           {| Cache.key := "doc:1"; Cache.value := Sample.Num 7;
              Cache.timestamp := 0; Cache.ttl := 1000; Cache.accessCount := 1;
              Cache.lastAccessed := 0; Cache.size := 2 |}
           [(500, 500, "doc:1"); (900, 900, "doc:1")] 1001 1001);
    by vm_compute.
Defined.

(** ** The cleanup timer of the cache manager *)

Section CacheCleanup.
Context {V : Type}.
Implicit Types (s : Cache.CacheManager V) (k : string)
  (entries m : list (string * Cache.CacheEntry V)).

Lemma cleanupLoop_filter clock (i : nat) entries (removed : Z) s :
  let r := Cache.cleanupLoop clock i entries removed s in
  r.1 = removed + Z.of_nat (length (expiredKeys clock i entries)) ∧
  Cache.cache r.2 = filter (λ p, p.1 ∉ expiredKeys clock i entries) (Cache.cache s) ∧
  Cache.config r.2 = Cache.config s ∧ Cache.stats r.2 = Cache.stats s.
Proof.
  revert i removed s. induction entries as [|[k e] entries IH]; intros i removed s.
  - simpl. split_and!; [lia | | done | done].
    symmetry. apply filter_all. intros p _. apply not_elem_of_nil.
  - simpl. destruct (Cache.isExpired (clock i) e).
    + destruct (IH (S i) (removed + 1) (Cache.with_cache (JsMap.delete (Cache.cache s) k) s))
        as (-> & -> & -> & ->). simpl. split_and!; [lia | | done | done].
      unfold JsMap.delete. rewrite list_filter_filter. apply list_filter_iff.
      intros p. rewrite not_elem_of_cons. tauto.
    + apply IH.
Qed.

Lemma expiredKeys_elem clock (i : nat) entries k :
  k ∈ expiredKeys clock i entries ↔
  ∃ j e, entries !! j = Some (k, e) ∧ Cache.isExpired (clock (i + j)%nat) e = true.
Proof.
  revert i. induction entries as [|[k' e'] entries IH]; intros i; simpl.
  - split; [by intros ?%elem_of_nil | by intros (j & e & ? & _)].
  - assert (Hrest : k ∈ expiredKeys clock (S i) entries ↔
              ∃ j e, ((k', e') :: entries) !! S j = Some (k, e) ∧
                     Cache.isExpired (clock (i + S j)%nat) e = true).
    { rewrite IH. by setoid_rewrite Nat.add_succ_r. }
    destruct (Cache.isExpired (clock i) e') eqn:Hexp.
    + rewrite elem_of_cons, Hrest. split.
      * intros [-> | (j & e & Hj & He)]; [|by exists (S j), e].
        exists 0%nat, e'. by rewrite Nat.add_0_r.
      * intros ([|j] & e & Hj & He); [left | right; by exists j, e].
        simpl in Hj. by injection Hj as -> ->.
    + rewrite Hrest. split.
      * intros (j & e & Hj & He). by exists (S j), e.
      * intros ([|j] & e & Hj & He); [|by exists j, e].
        simpl in Hj. injection Hj as -> ->. rewrite Nat.add_0_r in He. congruence.
Qed.

Lemma JsMap_get_filter_keys m (ks : list string) k :
  JsMap.get (filter (λ p, p.1 ∉ ks) m) k =
  if decide (k ∈ ks) then None else JsMap.get m k.
Proof.
  induction m as [|[k' e'] m IH]; simpl.
  - by destruct (decide _).
  - rewrite filter_cons. simpl. destruct (decide (k' ∉ ks)) as [Hout|Hin]; simpl.
    + destruct (decide (k' = k)) as [->|Hne]; [by rewrite decide_False | done].
    + rewrite IH. destruct (decide (k ∈ ks)); [done|].
      rewrite decide_False; [done|]. intros ->. done.
Qed.

Lemma JsMap_lookup_get m (j : nat) k (e : Cache.CacheEntry V) :
  JsMap.wf m → m !! j = Some (k, e) → JsMap.get m k = Some e.
Proof.
  intros Hwf Hj. apply JsMap_elem_get; [done|]. by eapply list_elem_of_lookup_2.
Qed.

Lemma JsMap_get_lookup m k (e : Cache.CacheEntry V) :
  JsMap.get m k = Some e → ∃ j, m !! j = Some (k, e).
Proof. intros H%JsMap_get_Some_elem. by apply list_elem_of_lookup_1. Qed.

Lemma wf_lookup_inj m (i j : nat) k (e e' : Cache.CacheEntry V) :
  JsMap.wf m → m !! i = Some (k, e) → m !! j = Some (k, e') → i = j.
Proof.
  intros Hwf Hi Hj. apply (NoDup_lookup (JsMap.keys m) i j k Hwf).
  - unfold JsMap.keys. by rewrite list_lookup_fmap, Hi.
  - unfold JsMap.keys. by rewrite list_lookup_fmap, Hj.
Qed.

(** What [cleanup] leaves: the entries it did not find expired, the
    configuration and the counters of reads and evictions. *)
Lemma cleanup_cache clock s :
  Cache.cache (Cache.cleanup clock s) =
    filter (λ p, p.1 ∉ expiredKeys clock 0 (Cache.cache s)) (Cache.cache s) ∧
  Cache.config (Cache.cleanup clock s) = Cache.config s ∧
  Cache.hits (Cache.stats (Cache.cleanup clock s)) = Cache.hits (Cache.stats s) ∧
  Cache.misses (Cache.stats (Cache.cleanup clock s)) = Cache.misses (Cache.stats s) ∧
  Cache.evictions (Cache.stats (Cache.cleanup clock s)) = Cache.evictions (Cache.stats s) ∧
  Cache.cleanups (Cache.stats (Cache.cleanup clock s)) =
    Cache.cleanups (Cache.stats s) +
    (if decide (expiredKeys clock 0 (Cache.cache s) = []) then 0 else 1).
Proof.
  unfold Cache.cleanup.
  pose proof (cleanupLoop_filter clock 0 (Cache.cache s) 0 s) as Hloop.
  destruct (Cache.cleanupLoop clock 0 (Cache.cache s) 0 s) as [removed s1].
  simpl in Hloop. destruct Hloop as (Hremoved & Hcache & Hconfig & Hstats).
  destruct (expiredKeys clock 0 (Cache.cache s)) as [|k0 ks'] eqn:Hks.
  - rewrite decide_False by (simpl in Hremoved; lia). rewrite decide_True by done.
    rewrite Hstats. split_and!; [done..|lia].
  - rewrite decide_True by (simpl in Hremoved; lia). rewrite decide_False by done.
    simpl. rewrite Hstats. done.
Qed.

Lemma cleanup_get clock s (i : nat) k e :
  JsMap.wf (Cache.cache s) →
  Cache.cache s !! i = Some (k, e) →
  JsMap.get (Cache.cache (Cache.cleanup clock s)) k =
    if Cache.isExpired (clock i) e then None else Some e.
Proof.
  intros Hwf Hi. destruct (cleanup_cache clock s) as (-> & _).
  rewrite JsMap_get_filter_keys, (JsMap_lookup_get _ _ _ _ Hwf Hi).
  destruct (Cache.isExpired (clock i) e) eqn:Hexp.
  - rewrite decide_True; [done|]. apply expiredKeys_elem. by exists i, e.
  - rewrite decide_False; [done|]. intros (j & e' & Hj & He')%expiredKeys_elem.
    simpl in He'. assert (i = j) as -> by by eapply wf_lookup_inj.
    rewrite Hi in Hj. injection Hj as <-. congruence.
Qed.

Lemma cleanup_get_None clock s k :
  JsMap.get (Cache.cache s) k = None →
  JsMap.get (Cache.cache (Cache.cleanup clock s)) k = None.
Proof.
  intros Hk. destruct (cleanup_cache clock s) as (-> & _).
  rewrite JsMap_get_filter_keys. by destruct (decide _).
Qed.

(** X4: the callback of the cleanup timer removes the entries it finds
    expired and nothing else.  The entry at position [i] of the map is kept
    as it is unless [isExpired] holds for it at the clock reading made for
    it, in which case its key is gone; no key is added; the configuration and
    the hit, miss and eviction counters are unchanged; and [cleanups] goes up
    by one exactly when an entry was removed.  The map holds no key twice. *)
Theorem cleanup_removes_expired clock s :
  JsMap.wf (Cache.cache s) →
  let s' := Cache.cleanup clock s in
  (∀ (i : nat) k e, Cache.cache s !! i = Some (k, e) →
     JsMap.get (Cache.cache s') k =
       if Cache.isExpired (clock i) e then None else Some e) ∧
  (∀ k, JsMap.get (Cache.cache s) k = None → JsMap.get (Cache.cache s') k = None) ∧
  Cache.config s' = Cache.config s ∧
  Cache.hits (Cache.stats s') = Cache.hits (Cache.stats s) ∧
  Cache.misses (Cache.stats s') = Cache.misses (Cache.stats s) ∧
  Cache.evictions (Cache.stats s') = Cache.evictions (Cache.stats s) ∧
  ((Cache.cache s' = Cache.cache s ∧
    Cache.cleanups (Cache.stats s') = Cache.cleanups (Cache.stats s)) ∨
   ((∃ (i : nat) k e, Cache.cache s !! i = Some (k, e) ∧
                      Cache.isExpired (clock i) e = true) ∧
    Cache.cleanups (Cache.stats s') = Cache.cleanups (Cache.stats s) + 1)).
Proof.
  intros Hwf s'. subst s'.
  destruct (cleanup_cache clock s) as (Hcache & Hconfig & Hhits & Hmisses & Hev & Hcl).
  split_and!; [|by apply cleanup_get_None|done..|].
  - intros i k e Hi. by apply cleanup_get.
  - rewrite Hcl, Hcache. destruct (expiredKeys clock 0 (Cache.cache s)) as [|k0 ks'] eqn:Hks.
    + left. rewrite decide_True by done. split; [|lia].
      apply filter_all. intros p _. apply not_elem_of_nil.
    + right. rewrite decide_False by done. split; [|done].
      assert (Hk0 : k0 ∈ expiredKeys clock 0 (Cache.cache s)) by (rewrite Hks; left).
      apply expiredKeys_elem in Hk0 as (j & e & Hj & He). by exists j, k0, e.
Qed.

(** X5: a cleanup does not show in what is read.  A [get] or a [has] made
    at a time that is not before the clock readings of a cleanup returns what
    it would have returned had the cleanup not run. *)
Theorem cleanup_transparent clock s k now now' :
  JsMap.wf (Cache.cache s) →
  (∀ i, clock i ≤ now) →
  (Cache.get now now' k (Cache.cleanup clock s)).1 = (Cache.get now now' k s).1 ∧
  (Cache.has now k (Cache.cleanup clock s)).1 = (Cache.has now k s).1.
Proof.
  intros Hwf Hclock. unfold Cache.get, Cache.has.
  destruct (JsMap.get (Cache.cache s) k) as [e|] eqn:Hget.
  - destruct (JsMap_get_lookup _ _ _ Hget) as [i Hi].
    rewrite (cleanup_get clock s i k e Hwf Hi).
    destruct (Cache.isExpired (clock i) e) eqn:Hexp;
      [|by destruct (Cache.isExpired now e)].
    assert (Hnow : Cache.isExpired now e = true).
    { unfold Cache.isExpired in *. apply bool_decide_eq_true in Hexp.
      apply bool_decide_eq_true. specialize (Hclock i). lia. }
    by rewrite Hnow.
  - by rewrite (cleanup_get_None clock s k Hget).
Qed.

End CacheCleanup.

(** The sweep of [sampleTwo] a millisecond after the default five minutes
    of its first entry: "a", stored at 0, goes and "b", stored at 1, stays. *)
Lemma cleanup_removes_expired_witness :
  let s' := Cache.cleanup (λ _, 300001) sampleTwo in
  JsMap.keys (Cache.cache sampleTwo) = ["a"; "b"] ∧
  JsMap.get (Cache.cache s') "a" = None ∧
  JsMap.get (Cache.cache s') "b" = JsMap.get (Cache.cache sampleTwo) "b" ∧
  Cache.config s' = Cache.config sampleTwo.
Proof.
  intros s'.
  assert (Hwf : JsMap.wf (Cache.cache sampleTwo))
    by (apply (bool_decide_unpack _); vm_compute; exact I).
  destruct (cleanup_removes_expired (λ _, 300001) sampleTwo Hwf)
    as (Hget & _ & Hconfig & _).
  split; [reflexivity|]. split; [|split; [|exact Hconfig]].
  - eapply (eq_trans (Hget 0%nat "a" _ eq_refl)). reflexivity.
  - eapply (eq_trans (Hget 1%nat "b" _ eq_refl)). reflexivity.
Defined.

(** A read after the same sweep sees what a read without it sees. *)
Lemma cleanup_transparent_witness :
  (Cache.get 300001 300001 "a" (Cache.cleanup (λ _, 300001) sampleTwo)).1 =
    (Cache.get 300001 300001 "a" sampleTwo).1 ∧
  (Cache.has 300001 "a" (Cache.cleanup (λ _, 300001) sampleTwo)).1 =
    (Cache.has 300001 "a" sampleTwo).1.
Proof.
  apply (cleanup_transparent (λ _, 300001) sampleTwo "a" 300001 300001).
  - apply (bool_decide_unpack _). vm_compute. exact I.
  - intros _. by vm_compute.
Defined.

(** ** Runs of the cache manager *)

Section CacheRuns.
Context {V : Type} (jsonStringifyLength : V → option N).
Implicit Types (s : Cache.CacheManager V) (k : string)
  (m : list (string * Cache.CacheEntry V)).

Lemma total_set_same m k (e e' : Cache.CacheEntry V) :
  JsMap.get m k = Some e → Cache.size e' = Cache.size e →
  total (JsMap.set m k e') = total m.
Proof.
  intros Hget Hsize. induction m as [|[k0 e0] m IH]; simpl in *; [done|].
  destruct (decide (k0 = k)) as [->|Hne]; simpl.
  - injection Hget as ->. lia.
  - rewrite IH by done. done.
Qed.

Lemma wf_filter (P : string * Cache.CacheEntry V → Prop) `{!∀ p, Decision (P p)} m :
  JsMap.wf m → JsMap.wf (filter P m).
Proof.
  unfold JsMap.wf, JsMap.keys. intros Hwf.
  eapply (sublist_NoDup _ m.*1); [|exact Hwf || apply fmap_sublist, sublist_filter];
    [apply fmap_sublist, sublist_filter || exact Hwf].
Qed.

Lemma sized_get m k (e : Cache.CacheEntry V) :
  sized m → JsMap.get m k = Some e → 0 ≤ Cache.size e.
Proof.
  intros Hsized Hget%JsMap_get_Some_elem.
  by apply (proj1 (Forall_forall _ _) Hsized (k, e)).
Qed.

(** A read keeps the invariant and the sum of the sizes does not grow. *)
Lemma get_counted s k now now' :
  counted s →
  counted (Cache.get now now' k s).2 ∧
  Cache.config (Cache.get now now' k s).2 = Cache.config s ∧
  total (Cache.cache (Cache.get now now' k s).2) ≤ total (Cache.cache s).
Proof.
  intros (Hwf & Hsized & Hcount). unfold Cache.get, counted.
  destruct (JsMap.get (Cache.cache s) k) as [e|] eqn:Hget; [|simpl; split_and!; done || lia].
  destruct (Cache.isExpired now e); simpl.
  - split_and!; [by apply JsMap_wf_delete | by apply sized_filter | | done |
                 by apply total_filter].
    pose proof (length_filter (λ p : string * Cache.CacheEntry V, p.1 ≠ k) (Cache.cache s)).
    unfold JsMap.delete. lia.
  - split_and!; [by apply JsMap_wf_set | | | done |].
    + apply sized_set; [done|]. simpl. by eapply sized_get.
    + rewrite JsMap_length_set, decide_True; [done|].
      apply JsMap_get_is_Some. by eexists.
    + by rewrite (total_set_same _ _ e).
Qed.

Lemma delete_counted s k :
  counted s →
  counted (Cache.delete k s).2 ∧
  total (Cache.cache (Cache.delete k s).2) ≤ total (Cache.cache s).
Proof.
  intros (Hwf & Hsized & Hcount). unfold counted. simpl.
  split_and!; [by apply JsMap_wf_delete | by apply sized_filter | | by apply total_filter].
  pose proof (length_filter (λ p : string * Cache.CacheEntry V, p.1 ≠ k) (Cache.cache s)).
  unfold JsMap.delete. lia.
Qed.

Lemma cleanup_counted clock s :
  counted s →
  counted (Cache.cleanup clock s) ∧
  total (Cache.cache (Cache.cleanup clock s)) ≤ total (Cache.cache s).
Proof.
  intros (Hwf & Hsized & Hcount). unfold counted.
  destruct (cleanup_cache clock s) as (-> & -> & _).
  split_and!; [by apply wf_filter | by apply sized_filter | | by apply total_filter].
  pose proof (length_filter (λ p : string * Cache.CacheEntry V,
                p.1 ∉ expiredKeys clock 0 (Cache.cache s)) (Cache.cache s)). lia.
Qed.

Lemma set_config (now : Z) k (v : V) (t : option Z) s :
  Cache.config (Cache.set jsonStringifyLength now k v t s).2 = Cache.config s.
Proof.
  destruct (set_evicts jsonStringifyLength now k v t s)
    as [(_ & _ & ->) | (ks & -> & _)]; [done|]. simpl. by rewrite evictAll_config.
Qed.

(** X6: the budgets over every kind of call.  After any sequence of [get],
    [set], [has], [delete], [clear] and cleanup calls on a new cache manager
    whose [maxSize] and [maxMemoryMB] are not negative, no key is stored
    twice, there are at most [maxSize] entries, and, when every value
    passed to a [set] had an estimated size within [maxMemoryBytes], the
    sizes of the entries add up to at most [maxMemoryBytes]. *)
Theorem budget_over_all_calls (cfg : Cache.CacheConfig) (calls : list (CacheCall V)) :
  0 ≤ Cache.maxSize cfg →
  0 ≤ Cache.maxMemoryMB cfg →
  let s := cacheAfter jsonStringifyLength cfg calls in
  JsMap.wf (Cache.cache s) ∧
  Z.of_nat (length (Cache.cache s)) ≤ Cache.maxSize cfg ∧
  ((∀ now k v t, CallSet now k v t ∈ calls →
      Cache.estimateSize jsonStringifyLength v ≤ Cache.maxMemoryMB cfg * 1024 * 1024) →
   Cache.getCurrentMemoryUsage s ≤ Cache.maxMemoryMB cfg * 1024 * 1024).
Proof.
  intros Hsize Hmem. unfold cacheAfter.
  assert (Hinv : ∀ s0, counted s0 → Cache.config s0 = cfg →
            let s := foldl (λ s c, cacheCall jsonStringifyLength c s) s0 calls in
            counted s ∧ Cache.config s = cfg ∧
            (total (Cache.cache s0) ≤ Cache.maxMemoryMB cfg * 1024 * 1024 →
             (∀ now k v t, CallSet now k v t ∈ calls →
                Cache.estimateSize jsonStringifyLength v ≤
                Cache.maxMemoryMB cfg * 1024 * 1024) →
             total (Cache.cache s) ≤ Cache.maxMemoryMB cfg * 1024 * 1024)).
  { induction calls as [|c calls IH]; intros s0 Hcounted Hcfg; [done|].
    cbn [foldl].
    assert (Hstep : counted (cacheCall jsonStringifyLength c s0) ∧
              Cache.config (cacheCall jsonStringifyLength c s0) = cfg ∧
              (total (Cache.cache s0) ≤ Cache.maxMemoryMB cfg * 1024 * 1024 →
               (∀ now k v t, c = CallSet now k v t →
                  Cache.estimateSize jsonStringifyLength v ≤
                  Cache.maxMemoryMB cfg * 1024 * 1024) →
               total (Cache.cache (cacheCall jsonStringifyLength c s0)) ≤
               Cache.maxMemoryMB cfg * 1024 * 1024)).
    { destruct c as [now now' k | now k v t | now k | k | | clock]; simpl.
      - destruct (get_counted s0 k now now' Hcounted) as (? & -> & ?).
        split_and!; [done | done | lia].
      - split_and!; [by apply set_counted | by rewrite set_config |].
        intros Hm Hfit.
        pose proof (set_within_memory jsonStringifyLength now k v t s0 Hcounted) as Hset.
        rewrite !usage_total in Hset. unfold Cache.maxMemoryBytes in Hset.
        rewrite set_config, Hcfg in Hset.
        rewrite usage_total in Hset. apply Hset; [done|]. by eapply Hfit.
      - assert (Hhas : (Cache.has now k s0).2 = s0)
          by (unfold Cache.has; by destruct (JsMap.get _ _)).
        rewrite Hhas. done.
      - destruct (delete_counted s0 k Hcounted) as (? & ?).
        split_and!; [done | done | simpl in *; lia].
      - split_and!; [|done|simpl; lia].
        unfold counted. simpl. rewrite Hcfg.
        split_and!; [apply NoDup_nil_2 | constructor | simpl; lia].
      - destruct (cleanup_counted clock s0 Hcounted) as (? & ?).
        destruct (cleanup_cache clock s0) as (_ & -> & _).
        split_and!; [done | done | lia]. }
    destruct Hstep as (Hc1 & Hcfg1 & Hm1).
    destruct (IH _ Hc1 Hcfg1) as (Hc & Hg & Hm). split_and!; [done..|].
    intros Hm0 Hfit. apply Hm.
    - apply Hm1; [done|]. intros now k v t ->. eapply Hfit. left.
    - intros now k v t Hin. eapply Hfit. by right. }
  destruct (Hinv (Cache.new cfg)) as ((Hwf & _ & Hcount) & Hcfg & Hmemory).
  { split_and!; [apply NoDup_nil_2 | constructor | simpl; lia]. }
  { done. }
  rewrite Hcfg in Hcount. split_and!; [done..|]. intros Hfit.
  rewrite usage_total. apply Hmemory; [simpl; lia | done].
Qed.

(** X7: [hits + misses] is the number of [get] calls made since the last
    [clear] (since the construction when there was none): every [get] counts
    once, and [has], [set], [delete] and the cleanup count nothing. *)
Theorem reads_are_counted (cfg : Cache.CacheConfig) (calls : list (CacheCall V)) :
  let s := cacheAfter jsonStringifyLength cfg calls in
  Cache.hits (Cache.stats s) + Cache.misses (Cache.stats s) = getsSinceClear calls 0.
Proof.
  unfold cacheAfter.
  assert (Hinv : ∀ s0 n,
            Cache.hits (Cache.stats s0) + Cache.misses (Cache.stats s0) = n →
            let s := foldl (λ s c, cacheCall jsonStringifyLength c s) s0 calls in
            Cache.hits (Cache.stats s) + Cache.misses (Cache.stats s) =
            getsSinceClear calls n).
  { induction calls as [|c calls IH]; intros s0 n Hn; [done|].
    cbn [foldl]. destruct c as [now now' k | now k v t | now k | k | | clock];
      cbn [getsSinceClear]; apply IH; simpl.
    - unfold Cache.get. destruct (JsMap.get (Cache.cache s0) k) as [e|]; [|simpl; lia].
      destruct (Cache.isExpired now e); simpl; lia.
    - destruct (set_evicts jsonStringifyLength now k v t s0)
        as [(_ & _ & ->) | (ks & -> & _)]; [done|]. simpl.
      destruct (evictAll_stats ks s0) as (_ & -> & ->). done.
    - unfold Cache.has. by destruct (JsMap.get _ _).
    - done.
    - done.
    - destruct (cleanup_cache clock s0) as (_ & _ & -> & -> & _). done. }
  by apply Hinv.
Qed.

End CacheRuns.

(** A run of every kind of call on a cache of two entries and one
    megabyte. *)
Lemma budget_over_all_calls_witness :
  let cfg := {| Cache.maxSize := 2; Cache.defaultTtl := 300000;
                Cache.maxMemoryMB := 1; Cache.cleanupInterval := 60000 |} in
  let s := cacheAfter Sample.jsonStringifyLength cfg
             [CallSet 0 "a" (Sample.Num 1) None; CallSet 1 "b" (Sample.Num 2) None;
              CallGet 2 2 "a"; CallSet 3 "c" (Sample.Xs 500000) None;
              CallHas 4 "c"; CallCleanup (λ _, 5); CallDelete "a"; CallClear;
              CallSet 6 "d" (Sample.Num 4) (Some 1000)] in
  JsMap.wf (Cache.cache s) ∧
  Z.of_nat (length (Cache.cache s)) ≤ 2 ∧
  Cache.getCurrentMemoryUsage s ≤ 1048576.
Proof.
  intros cfg s.
  destruct (budget_over_all_calls Sample.jsonStringifyLength cfg
              [CallSet 0 "a" (Sample.Num 1) None; CallSet 1 "b" (Sample.Num 2) None;
               CallGet 2 2 "a"; CallSet 3 "c" (Sample.Xs 500000) None;
               CallHas 4 "c"; CallCleanup (λ _, 5); CallDelete "a"; CallClear;
               CallSet 6 "d" (Sample.Num 4) (Some 1000)])
    as (Hwf & Hcount & Hmemory); [by vm_compute | by vm_compute |].
  split; [exact Hwf|]. split; [exact Hcount|].
  apply Hmemory. intros now k v t Hin.
  repeat (apply elem_of_cons in Hin as [Heq|Hin];
          [first [discriminate Heq | injection Heq as _ _ -> _; by vm_compute]|]).
  by apply elem_of_nil in Hin.
Defined.

(** ** The routes of the session registry *)

Section SessionRoutes.
Context {Body : Type} (isInitializeRequest : Body → bool).
Implicit Types (sessions : gmap string Http.SessionInfo) (sid : string)
  (req : Http.Request (Body := Body)).

Lemma known_Some (h : option string) sessions sid info :
  h = Some sid → sid ≠ EmptyString → sessions !! sid = Some info →
  Http.known h sessions = Some (sid, info).
Proof.
  intros -> Hne Hsid. unfold Http.known, Http.truthy.
  rewrite bool_decide_eq_true_2 by done. by rewrite Hsid.
Qed.

Lemma known_None (h : option string) sessions sid :
  h = Some sid → sessions !! sid = None → Http.known h sessions = None.
Proof.
  intros -> Hsid. unfold Http.known. destruct (Http.truthy _); [|done].
  by rewrite Hsid.
Qed.

(** X8: a DELETE that carries the identifier of a registered session whose
    teardown completes answers 200 and removes the session, and none other;
    from then on a POST (an initialize request included), a GET or a DELETE
    that carries this identifier is answered 400 and leaves the registry as
    it is. *)
Theorem terminated_session_is_rejected (closeThrows : string → option string)
    req sessions sid :
  Http.sessionIdHeader req = Some sid → sid ≠ EmptyString →
  is_Some (sessions !! sid) → closeThrows sid = None →
  let r := Http.handleSessionTermination closeThrows req sessions in
  r = (Http.Text 200 "Session terminated successfully", delete sid sessions) ∧
  ∀ (o : Http.Oracle) (closeThrows' : string → option string) req',
    Http.sessionIdHeader req' = Some sid →
    Http.handleClientToServerRequest isInitializeRequest o req' r.2 =
      (Http.JsonRpcError 400 (-32000)
         "Bad Request: No valid session ID provided or not an initialization request",
       r.2) ∧
    Http.handleServerToClientRequest o req' r.2 =
      (Http.Text 400 "Invalid or missing session ID", r.2) ∧
    Http.handleSessionTermination closeThrows' req' r.2 =
      (Http.Text 400 "Invalid or missing session ID", r.2).
Proof.
  intros Hreq Hne [info Hsid] Hclose r.
  assert (Hr : r = (Http.Text 200 "Session terminated successfully", delete sid sessions)).
  { subst r. unfold Http.handleSessionTermination.
    rewrite (known_Some _ _ sid info Hreq Hne Hsid).
    unfold Http.terminateSession. by rewrite Hsid, Hclose. }
  split; [done|]. rewrite Hr. simpl. intros o closeThrows' req' Hreq'.
  assert (Hgone : Http.known (Http.sessionIdHeader req') (delete sid sessions) = None).
  { apply (known_None _ _ sid Hreq'). apply lookup_delete_eq. }
  unfold Http.handleClientToServerRequest, Http.handleServerToClientRequest,
    Http.handleSessionTermination.
  rewrite Hgone. split_and!; [|done|done].
  rewrite Hreq'. unfold Http.truthy. by rewrite bool_decide_eq_true_2.
Qed.

(** X9: an initialize POST without a session identifier, when building the
    session does not throw, registers one session under the new identifier,
    with [createdAt] and [lastActivity] the two clock readings
    [createNewSession] makes for them, and leaves the other sessions as they
    are; a later POST that carries this identifier is handed to the transport
    of the session, keeps [createdAt] and moves [lastActivity] to its own
    clock.  The identifier ([randomUUID()]) is not the empty string. *)
Theorem initialize_registers_session (o : Http.Oracle) req sessions :
  Http.truthy (Http.sessionIdHeader req) = false →
  isInitializeRequest (Http.body req) = true →
  Http.creationThrows o = false →
  Http.uuid o ≠ EmptyString →
  let r := Http.handleClientToServerRequest isInitializeRequest o req sessions in
  r.2 !! Http.uuid o =
    Some {| Http.id := Http.uuid o; Http.createdAt := Http.created o;
            Http.lastActivity := Http.now o |} ∧
  (∀ sid, sid ≠ Http.uuid o → r.2 !! sid = sessions !! sid) ∧
  ∀ (o' : Http.Oracle) req',
    Http.sessionIdHeader req' = Some (Http.uuid o) →
    Http.forwarding o' = Http.Handled →
    let r' := Http.handleClientToServerRequest isInitializeRequest o' req' r.2 in
    r'.1 = Http.ByTransport (Http.uuid o) ∧
    r'.2 !! Http.uuid o =
      Some {| Http.id := Http.uuid o; Http.createdAt := Http.created o;
              Http.lastActivity := Http.now o' |}.
Proof.
  intros Hfalsy Hinit Hcreate Huuid r.
  assert (Hknown : Http.known (Http.sessionIdHeader req) sessions = None).
  { unfold Http.known. destruct (Http.sessionIdHeader req); [|done]. by rewrite Hfalsy. }
  assert (Hr : r.2 = <[Http.uuid o :=
                 {| Http.id := Http.uuid o; Http.createdAt := Http.created o;
                    Http.lastActivity := Http.now o |}]> sessions).
  { subst r. unfold Http.handleClientToServerRequest. rewrite Hknown, Hfalsy, Hinit.
    unfold Http.createNewSession. by rewrite Hcreate. }
  rewrite Hr. split_and!.
  - apply lookup_insert_eq.
  - intros sid Hsid. by rewrite lookup_insert_ne.
  - intros o' req' Hreq' Hfwd r'. subst r'.
    unfold Http.handleClientToServerRequest.
    rewrite (known_Some _ _ (Http.uuid o) _ Hreq' Huuid (lookup_insert_eq _ _ _)).
    unfold Http.forward. rewrite Hfwd. simpl. split; [done|]. apply lookup_insert_eq.
Qed.

Lemma stop_fold_lookup closeThrows (l : list string) sessions sid :
  foldl (λ sessions sessionId,
           (Http.terminateSession closeThrows sessionId sessions).2) sessions l !! sid =
  if decide (sid ∈ l) then
    match closeThrows sid with Some _ => sessions !! sid | None => None end
  else sessions !! sid.
Proof.
  revert sessions. induction l as [|sid' l IH]; intros sessions.
  - by rewrite decide_False by apply not_elem_of_nil.
  - cbn [foldl]. rewrite IH.
    assert (Hstep : ∀ x, (Http.terminateSession closeThrows sid' sessions).2 !! x =
              if decide (x = sid') then
                match closeThrows sid' with Some _ => sessions !! x | None => None end
              else sessions !! x).
    { intros x. unfold Http.terminateSession.
      destruct (decide (x = sid')) as [->|Hx].
      - destruct (sessions !! sid') eqn:Hs; [|by destruct (closeThrows sid')].
        destruct (closeThrows sid'); simpl; [done|]. apply lookup_delete_eq.
      - destruct (sessions !! sid'); [|done].
        destruct (closeThrows sid'); simpl; [done|]. by rewrite lookup_delete_ne. }
    rewrite Hstep. destruct (decide (sid = sid')) as [->|Hne].
    + rewrite (decide_True (P := sid' ∈ sid' :: l)) by left.
      destruct (decide (sid' ∈ l)); by destruct (closeThrows sid').
    + destruct (decide (sid ∈ l)) as [Hin|Hout].
      * rewrite decide_True by (by right). done.
      * rewrite decide_False; [done|]. by intros [?|?]%elem_of_cons.
Qed.

(** X10: [stop()] does nothing on a manager that is not running.  On a running
    one it terminates every registered session, a session whose teardown
    throws staying registered and every other one being removed, and it
    clears [isRunning] when the HTTP server is set. *)
Theorem stop_terminates_sessions (closeThrows : string → option string)
    (listening : bool) sessions :
  Http.stop closeThrows false listening sessions = (false, sessions) ∧
  (Http.stop closeThrows true true sessions).1 = false ∧
  ∀ sid,
    (Http.stop closeThrows true listening sessions).2 !! sid =
    match closeThrows sid with
    | Some _ => sessions !! sid
    | None => None
    end.
Proof.
  split_and!; [done | done |]. intros sid. unfold Http.stop. simpl.
  rewrite stop_fold_lookup. destruct (decide _) as [Hin|Hout]; [done|].
  assert (Hnone : sessions !! sid = None).
  { destruct (sessions !! sid) as [info|] eqn:Hs; [|done]. destruct Hout.
    apply list_elem_of_fmap. exists (sid, info). split; [done|].
    by apply elem_of_map_to_list. }
  rewrite Hnone. by destruct (closeThrows sid).
Qed.

(** X11: a POST or a GET that carries the identifier of a registered session
    refreshes it: a sweep of the cleanup timer that runs no more than 30
    minutes after the clock of the request keeps the session, whose
    [lastActivity] is the clock of the request, however long the session had
    been idle before. *)
Theorem used_session_survives_sweep (o : Http.Oracle) req sessions sid
    (t : Z) (closeThrows : string → option string) :
  Http.sessionIdHeader req = Some sid → sid ≠ EmptyString →
  is_Some (sessions !! sid) →
  t - Http.now o ≤ 30 * 60 * 1000 →
  (∃ info,
     Http.cleanup t closeThrows
       (Http.handleClientToServerRequest isInitializeRequest o req sessions).2 !! sid
     = Some info ∧ Http.lastActivity info = Http.now o) ∧
  (∃ info,
     Http.cleanup t closeThrows
       (Http.handleServerToClientRequest o req sessions).2 !! sid
     = Some info ∧ Http.lastActivity info = Http.now o).
Proof.
  intros Hreq Hne [info Hsid] Hrecent.
  set (info' := {| Http.id := Http.id info; Http.createdAt := Http.createdAt info;
                   Http.lastActivity := Http.now o |}).
  assert (Hpost : (Http.handleClientToServerRequest isInitializeRequest o req sessions).2
                  = <[sid := info']> sessions).
  { unfold Http.handleClientToServerRequest.
    by rewrite (known_Some _ _ sid info Hreq Hne Hsid). }
  assert (Hget : (Http.handleServerToClientRequest o req sessions).2
                 = <[sid := info']> sessions).
  { unfold Http.handleServerToClientRequest.
    rewrite (known_Some _ _ sid info Hreq Hne Hsid).
    by destruct (Http.forwarding o) as [|[]]. }
  assert (Hkept : Http.cleanup t closeThrows (<[sid := info']> sessions) !! sid = Some info').
  { unfold Http.cleanup. rewrite cleanup_fold_kept; [apply lookup_insert_eq|].
    intros info0 Hin. apply elem_of_map_to_list in Hin.
    rewrite lookup_insert_eq in Hin. injection Hin as <-. left.
    unfold Http.maxAge. simpl. lia. }
  rewrite Hpost, Hget. split; by exists info'.
Qed.

End SessionRoutes.

(** A session terminated by DELETE and the POST that names it next. *)
Lemma terminated_session_is_rejected_witness :
  let sessions : gmap string Http.SessionInfo :=
    {[ "u-0" := {| Http.id := "u-0"; Http.createdAt := 1; Http.lastActivity := 2 |} ]} in
  let req := {| Http.sessionIdHeader := Some "u-0"; Http.body := false |} in
  let o := {| Http.now := 5; Http.created := 5; Http.uuid := "u-1";
              Http.creationThrows := false;
              Http.forwarding := Http.Handled |} in
  let r := Http.handleSessionTermination (λ _, None) req sessions in
  r = (Http.Text 200 "Session terminated successfully", delete "u-0" sessions) ∧
  Http.handleClientToServerRequest (λ b : bool, b) o req r.2 =
    (Http.JsonRpcError 400 (-32000)
       "Bad Request: No valid session ID provided or not an initialization request",
     r.2).
Proof.
  intros sessions req o r.
  destruct (terminated_session_is_rejected (λ b : bool, b) (λ _, None) req sessions
              "u-0" eq_refl) as [Hr Hafter];
    [discriminate | eexists; by vm_compute | reflexivity |].
  split; [exact Hr|].
  exact (proj1 (Hafter o (λ _, None) req eq_refl)).
Defined.

(** The first POST of a client and the one that follows with the session
    identifier it was given. *)
Lemma initialize_registers_session_witness :
  let o := {| Http.now := 5; Http.created := 4; Http.uuid := "u-1";
              Http.creationThrows := false;
              Http.forwarding := Http.Handled |} in
  let o' := {| Http.now := 9; Http.created := 9; Http.uuid := "u-2";
               Http.creationThrows := false;
               Http.forwarding := Http.Handled |} in
  let r := Http.handleClientToServerRequest (λ b : bool, b) o
             {| Http.sessionIdHeader := None; Http.body := true |} ∅ in
  let r' := Http.handleClientToServerRequest (λ b : bool, b) o'
              {| Http.sessionIdHeader := Some "u-1"; Http.body := false |} r.2 in
  r.2 !! "u-1" =
    Some {| Http.id := "u-1"; Http.createdAt := 4; Http.lastActivity := 5 |} ∧
  r'.1 = Http.ByTransport "u-1" ∧
  r'.2 !! "u-1" =
    Some {| Http.id := "u-1"; Http.createdAt := 4; Http.lastActivity := 9 |}.
Proof.
  intros o o' r r'.
  destruct (initialize_registers_session (λ b : bool, b) o
              {| Http.sessionIdHeader := None; Http.body := true |} ∅)
    as (Hnew & _ & Hnext); [reflexivity | reflexivity | reflexivity | discriminate |].
  split; [exact Hnew|].
  exact (Hnext o' {| Http.sessionIdHeader := Some "u-1"; Http.body := false |}
           eq_refl eq_refl).
Defined.

(** A session used at minute 40 and swept at minute 60. *)
Lemma used_session_survives_sweep_witness :
  let sessions : gmap string Http.SessionInfo :=
    {[ "u-0" := {| Http.id := "u-0"; Http.createdAt := 0; Http.lastActivity := 0 |} ]} in
  let req := {| Http.sessionIdHeader := Some "u-0"; Http.body := false |} in
  let o := {| Http.now := 2400000; Http.created := 2400000; Http.uuid := "u-1";
              Http.creationThrows := false;
              Http.forwarding := Http.Handled |} in
  ∃ info,
    Http.cleanup 3600000 (λ _, None)
      (Http.handleServerToClientRequest o req sessions).2 !! "u-0" = Some info ∧
    Http.lastActivity info = 2400000.
Proof.
  intros sessions req o.
  refine (proj2 (used_session_survives_sweep (λ b : bool, b) o req sessions "u-0"
                   3600000 (λ _, None) eq_refl _ _ _));
    [discriminate | eexists; by vm_compute | by vm_compute].
Defined.

(** ** Traffic on the SSE transport *)

Section SseTraffic.
Implicit Types (t : Sse.SSETransport) (c : string) (cs : Sse.SSEConnectionState)
  (env : Sse.Env) (message : Sse.SSEMessage).

(** What one [sendMessage] does, by the state of its connection. *)
Lemma sendMessage_cases env c message t :
  match Sse.connections t !! c with
  | None => Sse.sendMessage env c message t = (false, t, [])
  | Some cs =>
      if Sse.isAlive cs then
        if Sse.writable env then
          Sse.sendMessage env c message t =
          (true, Sse.with_connections (<[c := refreshed env cs]> (Sse.connections t)) t,
           [Sse.Written c message])
        else
          Sse.sendMessage env c message t =
          (false, Sse.with_connections (delete c (Sse.connections t)) t, [])
      else Sse.sendMessage env c message t = (false, t, [])
  end.
Proof.
  unfold Sse.sendMessage, Sse.closeConnection.
  destruct (Sse.connections t !! c) as [cs|] eqn:Hc; [|done].
  destruct (Sse.isAlive cs); simpl; [|done].
  by destruct (Sse.writable env).
Qed.

Lemma sendMessage_alive env c message t cs :
  Sse.connections t !! c = Some cs → Sse.isAlive cs = true →
  Sse.writable env = true →
  Sse.sendMessage env c message t =
  (true, Sse.with_connections (<[c := refreshed env cs]> (Sse.connections t)) t,
   [Sse.Written c message]).
Proof.
  intros Hc Halive Hw. pose proof (sendMessage_cases env c message t) as H.
  by rewrite Hc, Halive, Hw in H.
Qed.

Lemma sendMessage_handlers env c message t :
  Sse.messageHandlers (Sse.sendMessage env c message t).1.2 = Sse.messageHandlers t.
Proof.
  pose proof (sendMessage_cases env c message t) as H.
  destruct (Sse.connections t !! c) as [cs|]; [|by rewrite H].
  destruct (Sse.isAlive cs); [|by rewrite H].
  destruct (Sse.writable env); by rewrite H.
Qed.

Lemma sendMessage_other env c message t c' :
  c' ≠ c →
  Sse.connections (Sse.sendMessage env c message t).1.2 !! c' = Sse.connections t !! c'.
Proof.
  intros Hne. pose proof (sendMessage_cases env c message t) as H.
  destruct (Sse.connections t !! c) as [cs|]; [|by rewrite H].
  destruct (Sse.isAlive cs); [|by rewrite H].
  destruct (Sse.writable env); rewrite H; simpl.
  - by rewrite lookup_insert_ne.
  - by rewrite lookup_delete_ne.
Qed.

Lemma sendMessage_own env c message t :
  Sse.connections (Sse.sendMessage env c message t).1.2 !! c =
  sent env (Sse.connections t !! c).
Proof.
  pose proof (sendMessage_cases env c message t) as H. unfold sent.
  destruct (Sse.connections t !! c) as [cs|] eqn:Hc; [|by rewrite H].
  destruct (Sse.isAlive cs); [|by rewrite H].
  destruct (Sse.writable env); rewrite H; simpl.
  - apply lookup_insert_eq.
  - apply lookup_delete_eq.
Qed.

Lemma sendMessage_result envs c message t :
  (Sse.sendMessage (envs c) c message t).1.1 = sendable envs t c ∧
  (Sse.sendMessage (envs c) c message t).2 =
    if sendable envs t c then [Sse.Written c message] else [].
Proof.
  pose proof (sendMessage_cases (envs c) c message t) as H. unfold sendable.
  destruct (Sse.connections t !! c) as [cs|]; [|by rewrite H].
  destruct (Sse.isAlive cs); [|by rewrite H].
  destruct (Sse.writable (envs c)); by rewrite H.
Qed.

Lemma filter_ext_elem {A} (P Q : A → Prop) `{!∀ x, Decision (P x)}
    `{!∀ x, Decision (Q x)} (l : list A) :
  (∀ x, x ∈ l → P x ↔ Q x) → filter P l = filter Q l.
Proof.
  induction l as [|x l IH]; intros Hiff; [done|]. rewrite !filter_cons.
  rewrite IH by (intros y Hy; apply Hiff; by right).
  destruct (decide (P x)) as [HP|HP], (decide (Q x)) as [HQ|HQ]; try done.
  - destruct HQ. apply Hiff; [left | done].
  - destruct HP. apply Hiff; [left | done].
Qed.

Lemma broadcast_fold envs message (l : list string) (n : Z) t (effects : list Sse.Effect) :
  NoDup l →
  let r := foldl (Sse.broadcastStep envs message) (n, t, effects) l in
  r.1.1 = n + Z.of_nat (length (filter (λ c, sendable envs t c = true) l)) ∧
  r.2 = effects ++ ((λ c, Sse.Written c message) <$>
                      filter (λ c, sendable envs t c = true) l) ∧
  Sse.messageHandlers r.1.2 = Sse.messageHandlers t ∧
  ∀ c, Sse.connections r.1.2 !! c =
       if decide (c ∈ l) then sent (envs c) (Sse.connections t !! c)
       else Sse.connections t !! c.
Proof.
  revert n t effects. induction l as [|c0 l IH]; intros n t effects Hnodup.
  - cbn [foldl fst snd filter list_filter fmap list_fmap length].
    split_and!; [lia | by rewrite app_nil_r | done |].
    intros c. destruct (decide (c ∈ [])) as [H|]; [by apply elem_of_nil in H | done].
  - apply NoDup_cons in Hnodup as [Hc0 Hnodup]. cbn [foldl]. cbv zeta.
    remember (Sse.broadcastStep envs message (n, t, effects) c0) as acc eqn:Hacc.
    unfold Sse.broadcastStep in Hacc.
    destruct (sendMessage_result envs c0 message t) as [Hsent Hwritten].
    pose proof (sendMessage_handlers (envs c0) c0 message t) as Hh.
    pose proof (sendMessage_own (envs c0) c0 message t) as Hown.
    pose proof (λ c', sendMessage_other (envs c0) c0 message t c') as Hother.
    destruct (Sse.sendMessage (envs c0) c0 message t) as [[b t1] written].
    simpl in Hsent, Hwritten, Hh, Hown, Hother. subst b written acc.
    assert (Hsame : ∀ c, c ∈ l → sendable envs t1 c = sendable envs t c).
    { intros c Hc. unfold sendable. rewrite Hother; [done|]. by intros ->. }
    assert (Hfilter : filter (λ c, sendable envs t1 c = true) l =
                      filter (λ c, sendable envs t c = true) l).
    { apply filter_ext_elem. intros c Hc. by rewrite Hsame. }
    assert (Hconn : ∀ c,
              (if decide (c ∈ l) then sent (envs c) (Sse.connections t1 !! c)
               else Sse.connections t1 !! c) =
              (if decide (c ∈ c0 :: l) then sent (envs c) (Sse.connections t !! c)
               else Sse.connections t !! c)).
    { intros c. destruct (decide (c = c0)) as [->|Hne].
      - rewrite decide_False by done. rewrite decide_True by left. done.
      - rewrite Hother by done. destruct (decide (c ∈ l)) as [Hin|Hout].
        + rewrite decide_True by (by right). done.
        + rewrite decide_False; [done|]. by intros [?|?]%elem_of_cons. }
    rewrite filter_cons. destruct (sendable envs t c0) eqn:Hs.
    + rewrite decide_True by done.
      destruct (IH (n + 1) t1 (effects ++ [Sse.Written c0 message]) Hnodup)
        as (Hn & He & Hhs & Hcs).
      rewrite Hfilter in Hn, He. split_and!.
      * rewrite Hn. simpl. lia.
      * rewrite He. by rewrite <-app_assoc.
      * by rewrite Hhs.
      * intros c. rewrite Hcs. apply Hconn.
    + rewrite decide_False by done.
      destruct (IH n t1 (effects ++ []) Hnodup) as (Hn & He & Hhs & Hcs).
      rewrite Hfilter in Hn, He. split_and!.
      * done.
      * rewrite He. by rewrite app_nil_r.
      * by rewrite Hhs.
      * intros c. rewrite Hcs. apply Hconn.
Qed.

(** X12: [broadcastMessage] writes the message once to every connection that
    is registered, alive and whose stream takes the write, and to no other;
    it writes nothing else, the count it returns is the number of these
    writes, each connection is left as a [sendMessage] to it leaves it (its
    [lastActivity] refreshed, or the connection closed when the write threw),
    and the handlers are untouched. *)
Theorem broadcast_reaches_every_open_stream envs message t :
  let r := Sse.broadcastMessage envs message t in
  (∀ c, Sse.Written c message ∈ r.2 ↔ sendable envs t c = true) ∧
  NoDup r.2 ∧
  (∀ e, e ∈ r.2 → ∃ c, e = Sse.Written c message) ∧
  r.1.1 = Z.of_nat (length r.2) ∧
  (∀ c, Sse.connections r.1.2 !! c = sent (envs c) (Sse.connections t !! c)) ∧
  Sse.messageHandlers r.1.2 = Sse.messageHandlers t.
Proof.
  intros r. subst r. unfold Sse.broadcastMessage.
  set (l := (map_to_list (Sse.connections t)).*1).
  assert (Hnodup : NoDup l) by apply NoDup_fst_map_to_list.
  destruct (broadcast_fold envs message l 0 t [] Hnodup) as (Hn & He & Hh & Hcs).
  assert (Hsendable : ∀ c, sendable envs t c = true → c ∈ l).
  { intros c. unfold sendable. destruct (Sse.connections t !! c) as [cs|] eqn:Hc; [|done].
    intros _. apply list_elem_of_fmap. exists (c, cs). split; [done|].
    by apply elem_of_map_to_list. }
  rewrite He. simpl. split_and!.
  - intros c. rewrite list_elem_of_fmap. split.
    + intros (c' & [= <-] & Hc'). by apply list_elem_of_filter in Hc' as [? _].
    + intros Hc. exists c. split; [done|]. apply list_elem_of_filter. auto.
  - apply NoDup_fmap_2; [by intros c1 c2 [= ->]|]. by apply NoDup_filter.
  - intros e (c & -> & _)%list_elem_of_fmap. by exists c.
  - rewrite Hn, length_fmap. lia.
  - intros c. rewrite Hcs. destruct (decide (c ∈ l)) as [Hin|Hout]; [done|].
    destruct (Sse.connections t !! c) as [cs|] eqn:Hc; [|done].
    destruct Hout. apply list_elem_of_fmap. exists (c, cs). split; [done|].
    by apply elem_of_map_to_list.
  - done.
Qed.

(** [processIncomingMessage] stamps the connection before anything else. *)
Lemma processIncomingMessage_unknown env c message t :
  Sse.connections t !! c = None → Sse.processIncomingMessage env c message t = (t, []).
Proof. intros Hc. unfold Sse.processIncomingMessage. by rewrite Hc. Qed.

(** X13: a [sendMessage] to a live connection whose write throws returns
    [false], delivers nothing, unregisters the connection and leaves the
    other connections as they are; after it a [sendMessage] to the
    connection and a message that comes in on it do nothing. *)
Theorem failed_write_closes_connection env c message t cs :
  Sse.connections t !! c = Some cs → Sse.isAlive cs = true →
  Sse.writable env = false →
  let r := Sse.sendMessage env c message t in
  r.1.1 = false ∧ r.2 = [] ∧
  Sse.connections r.1.2 !! c = None ∧
  (∀ c', c' ≠ c → Sse.connections r.1.2 !! c' = Sse.connections t !! c') ∧
  ∀ env' message',
    Sse.sendMessage env' c message' r.1.2 = (false, r.1.2, []) ∧
    Sse.processIncomingMessage env' c message' r.1.2 = (r.1.2, []).
Proof.
  intros Hc Halive Hw r. subst r.
  pose proof (sendMessage_cases env c message t) as H.
  rewrite Hc, Halive, Hw in H. rewrite H. simpl.
  split_and!; [done | done | apply lookup_delete_eq | |].
  - intros c' Hne. by rewrite lookup_delete_ne.
  - intros env' message'. split.
    + pose proof (sendMessage_cases env' c message'
                    (Sse.with_connections (delete c (Sse.connections t)) t)) as H'.
      simpl in H'. by rewrite lookup_delete_eq in H'.
    + apply processIncomingMessage_unknown. simpl. apply lookup_delete_eq.
Qed.

Lemma closeAll_fold (l : list string) t :
  let t' := foldl (λ t connectionId, Sse.closeConnection connectionId t) t l in
  Sse.messageHandlers t' = Sse.messageHandlers t ∧
  ∀ c, Sse.connections t' !! c =
       if decide (c ∈ l) then None else Sse.connections t !! c.
Proof.
  revert t. induction l as [|c0 l IH]; intros t.
  - split; [done|]. intros c.
    destruct (decide (c ∈ [])) as [H|]; [by apply elem_of_nil in H | done].
  - cbn [foldl]. cbv zeta. destruct (IH (Sse.closeConnection c0 t)) as [Hh Hcs].
    assert (Hclose : Sse.messageHandlers (Sse.closeConnection c0 t) = Sse.messageHandlers t ∧
              ∀ c, Sse.connections (Sse.closeConnection c0 t) !! c =
                   if decide (c = c0) then None else Sse.connections t !! c).
    { unfold Sse.closeConnection. destruct (Sse.connections t !! c0) eqn:Hc0; simpl.
      - split; [done|]. intros c. destruct (decide (c = c0)) as [->|Hne].
        + apply lookup_delete_eq.
        + by rewrite lookup_delete_ne.
      - split; [done|]. intros c. by destruct (decide (c = c0)) as [->|Hne]. }
    destruct Hclose as [Hh0 Hcs0]. split; [by rewrite Hh|].
    intros c. rewrite Hcs, Hcs0. destruct (decide (c = c0)) as [->|Hne].
    + rewrite (decide_True (P := c0 ∈ c0 :: l)) by left. by destruct (decide _).
    + destruct (decide (c ∈ l)) as [Hin|Hout].
      * rewrite decide_True by (by right). done.
      * rewrite decide_False; [done|]. by intros [?|?]%elem_of_cons.
Qed.

(** X14: after [closeAllConnections()] no connection is registered,
    [getActiveConnectionCount()] is 0, the handlers are still registered and
    a broadcast reaches nobody: it returns 0 and writes nothing. *)
Theorem closeAllConnections_leaves_none envs message t :
  let t' := Sse.closeAllConnections t in
  Sse.connections t' = ∅ ∧
  Sse.getActiveConnectionCount t' = 0%nat ∧
  Sse.messageHandlers t' = Sse.messageHandlers t ∧
  Sse.broadcastMessage envs message t' = (0, t', []).
Proof.
  intros t'. subst t'. unfold Sse.closeAllConnections.
  destruct (closeAll_fold (map_to_list (Sse.connections t)).*1 t) as [Hh Hcs].
  set (t' := foldl _ t _) in *.
  assert (Hempty : Sse.connections t' = ∅).
  { apply map_eq. intros c. rewrite Hcs, lookup_empty.
    destruct (decide _) as [Hin|Hout]; [done|].
    destruct (Sse.connections t !! c) as [cs|] eqn:Hc; [|done].
    destruct Hout. apply list_elem_of_fmap. exists (c, cs). split; [done|].
    by apply elem_of_map_to_list. }
  split_and!; [done | | done |].
  - unfold Sse.getActiveConnectionCount. by rewrite Hempty, map_size_empty.
  - unfold Sse.broadcastMessage. by rewrite Hempty, map_to_list_empty.
Qed.

(** X15: any request whose method is [auth] authenticates, its content
    unread.  On a live connection with a writable stream such a request is
    answered with a response of [success: true] and the token
    [dummy-token-<connectionId>], and the connection is marked authenticated
    with that token; the request that follows on the connection reaches the
    handler registered for requests and is answered with the result of the
    handler, or with error -32603 when the handler throws. *)
Theorem authenticate_then_request env1 env2 c (auth message : Sse.SSEMessage) t cs
    (handler : Sse.Handler) :
  Sse.connections t !! c = Some cs → Sse.isAlive cs = true →
  Sse.isAuth auth = true →
  Sse.type message = Sse.request → Sse.isAuth message = false →
  Sse.messageHandlers t !! "request" = Some handler →
  Sse.writable env1 = true → Sse.writable env2 = true →
  let r1 := Sse.processIncomingMessage env1 c auth t in
  let r2 := Sse.processIncomingMessage env2 c message r1.1 in
  r1.2 = [Sse.Written c
            {| Sse.messageId := Sse.newMessageId env1; Sse.type := Sse.response;
               Sse.correlationId := Some (Sse.messageId auth);
               Sse.timestamp := Sse.now env1;
               Sse.data := Sse.AuthResult true ("dummy-token-" +:+ c) |}] ∧
  (∃ cs1, Sse.connections r1.1 !! c = Some cs1 ∧
          Sse.authenticated (Sse.connection cs1) = true ∧
          Sse.sessionToken (Sse.connection cs1) = Some ("dummy-token-" +:+ c)) ∧
  r2.2 = [Sse.Invoked c message;
          Sse.Written c
            {| Sse.messageId := Sse.newMessageId env2;
               Sse.type := match handler message with
                           | Resolved _ => Sse.response
                           | Rejected _ => Sse.error
                           end;
               Sse.correlationId := Some (Sse.messageId message);
               Sse.timestamp := Sse.now env2;
               Sse.data := match handler message with
                           | Resolved result => Sse.Result result
                           | Rejected reason =>
                               Sse.ErrorData (-32603) "Internal error" reason
                           end |}].
Proof.
  intros Hc Halive Hauth Htype Hnoauth Hhandler Hw1 Hw2 r1 r2.
  assert (Hr1 : ∃ cs1, Sse.connections r1.1 !! c = Some cs1 ∧
            Sse.authenticated (Sse.connection cs1) = true ∧
            Sse.sessionToken (Sse.connection cs1) = Some ("dummy-token-" +:+ c) ∧
            Sse.isAlive cs1 = true ∧
            Sse.messageHandlers r1.1 = Sse.messageHandlers t ∧
            r1.2 = [Sse.Written c
              {| Sse.messageId := Sse.newMessageId env1; Sse.type := Sse.response;
                 Sse.correlationId := Some (Sse.messageId auth);
                 Sse.timestamp := Sse.now env1;
                 Sse.data := Sse.AuthResult true ("dummy-token-" +:+ c) |}]).
  { subst r1 r2. unfold Sse.processIncomingMessage. rewrite Hc, Hauth.
    unfold Sse.handleAuthentication. simpl. rewrite lookup_insert_eq.
    erewrite sendMessage_alive; [|simpl; apply lookup_insert_eq|exact Halive|exact Hw1].
    simpl. rewrite lookup_insert_eq. eexists. split; [done|]. by simpl. }
  destruct Hr1 as (cs1 & Hcs1 & Hauth1 & Htoken & Halive1 & Hh1 & Heff1).
  split_and!; [done | by exists cs1 |].
  subst r2. destruct r1 as [t1 effects1]. simpl in Hcs1, Hh1 |- *.
  unfold Sse.processIncomingMessage. rewrite Hcs1, Hnoauth.
  cbn [Sse.connection Sse.with_connection Sse.active Sse.authenticated
       Sse.messageHandlers Sse.with_connections].
  rewrite Hauth1, Htype, Hh1. cbn [Sse.typeName negb andb].
  unfold Sse.Handler in *. rewrite Hhandler.
  rewrite !(bool_decide_eq_true_2 (Sse.request = Sse.request)) by done.
  destruct (handler message) as [result|reason].
  - by erewrite sendMessage_alive;
      [|simpl; apply lookup_insert_eq|exact Halive1|exact Hw2].
  - by erewrite sendMessage_alive;
      [|simpl; apply lookup_insert_eq|exact Halive1|exact Hw2].
Qed.

(** X16: the authentication gate covers requests only: a message of another
    type (response, notification, error) that comes in on a connection that
    never authenticated is passed to the handler registered for its type,
    and nothing is written to the connection. *)
Theorem gate_covers_requests_only env c message t cs (handler : Sse.Handler) :
  Sse.connections t !! c = Some cs →
  Sse.authenticated (Sse.connection cs) = false →
  Sse.type message ≠ Sse.request →
  Sse.messageHandlers t !! Sse.typeName (Sse.type message) = Some handler →
  (Sse.processIncomingMessage env c message t).2 = [Sse.Invoked c message].
Proof.
  intros Hc Hunauth Htype Hhandler. unfold Sse.processIncomingMessage.
  rewrite Hc. unfold Sse.isAuth.
  rewrite (bool_decide_eq_false_2 (Sse.type message = Sse.request)) by done. simpl.
  rewrite Hunauth. unfold Sse.Handler in *. rewrite Hhandler.
  by destruct (handler message).
Qed.

End SseTraffic.

(** A stream that was opened and then refuses a write. *)
Lemma failed_write_closes_connection_witness :
  let env := {| Sse.now := 10; Sse.newConnectionId := "sse_1";
                Sse.newMessageId := "msg_1"; Sse.writable := true |} in
  let broken := {| Sse.now := 20; Sse.newConnectionId := "sse_2";
                   Sse.newMessageId := "msg_2"; Sse.writable := false |} in
  let message := {| Sse.messageId := "m1"; Sse.type := Sse.notification;
                    Sse.correlationId := None; Sse.timestamp := 12;
                    Sse.data := Sse.Result "changed" |} in
  let t := Sse.after [Sse.HandleConnection env "10.0.0.7"] in
  let r := Sse.sendMessage broken "sse_1" message t in
  r.1.1 = false ∧ r.2 = [] ∧ Sse.connections r.1.2 !! "sse_1" = None ∧
  Sse.sendMessage env "sse_1" message r.1.2 = (false, r.1.2, []).
Proof.
  intros env broken message t r.
  edestruct (failed_write_closes_connection broken "sse_1" message t)
    as (Hsent & Heffects & Hgone & _ & Hafter);
    [vm_compute; reflexivity | reflexivity | reflexivity |].
  split; [exact Hsent|]. split; [exact Heffects|]. split; [exact Hgone|].
  exact (proj1 (Hafter env message)).
Defined.

(** A client that authenticates and then lists the tools. *)
Lemma authenticate_then_request_witness :
  let env := {| Sse.now := 10; Sse.newConnectionId := "sse_1";
                Sse.newMessageId := "msg_1"; Sse.writable := true |} in
  let env2 := {| Sse.now := 30; Sse.newConnectionId := "sse_2";
                 Sse.newMessageId := "msg_3"; Sse.writable := true |} in
  let auth := {| Sse.messageId := "m1"; Sse.type := Sse.request;
                 Sse.correlationId := None; Sse.timestamp := 11;
                 Sse.data := Sse.FromClient (Some "auth") "anything" |} in
  let message := {| Sse.messageId := "m2"; Sse.type := Sse.request;
                    Sse.correlationId := None; Sse.timestamp := 12;
                    Sse.data := Sse.FromClient (Some "tools/list") "{}" |} in
  let t := Sse.after [Sse.OnMessage "request" (λ _, Resolved "done");
                      Sse.HandleConnection env "10.0.0.7"] in
  let r1 := Sse.processIncomingMessage env "sse_1" auth t in
  (Sse.processIncomingMessage env2 "sse_1" message r1.1).2 =
  [Sse.Invoked "sse_1" message;
   Sse.Written "sse_1"
     {| Sse.messageId := "msg_3"; Sse.type := Sse.response;
        Sse.correlationId := Some "m2"; Sse.timestamp := 30;
        Sse.data := Sse.Result "done" |}].
Proof.
  intros env env2 auth message t r1.
  edestruct (authenticate_then_request env env2 "sse_1" auth message t)
    as (_ & _ & Hanswer);
    [vm_compute; reflexivity | reflexivity | reflexivity | reflexivity | reflexivity
    | vm_compute; reflexivity | reflexivity | reflexivity |].
  exact Hanswer.
Defined.

(** A notification from a client that never authenticated. *)
Lemma gate_covers_requests_only_witness :
  let env := {| Sse.now := 10; Sse.newConnectionId := "sse_1";
                Sse.newMessageId := "msg_1"; Sse.writable := true |} in
  let note := {| Sse.messageId := "n1"; Sse.type := Sse.notification;
                 Sse.correlationId := None; Sse.timestamp := 11;
                 Sse.data := Sse.FromClient (Some "tools/call") "{}" |} in
  let t := Sse.after [Sse.OnMessage "notification" (λ _, Resolved "done");
                      Sse.HandleConnection env "10.0.0.7"] in
  (Sse.processIncomingMessage env "sse_1" note t).2 = [Sse.Invoked "sse_1" note].
Proof.
  intros env note t.
  eapply (gate_covers_requests_only env "sse_1" note t);
    [vm_compute; reflexivity | reflexivity | discriminate | vm_compute; reflexivity].
Defined.

(** ** The security manager *)

Section RateLimit.
Context (jwtVerify : string → string → option string).
Implicit Types (m : Security.SecurityManager) (clientId : string).

(** One call, by the entry of the client. *)
Lemma checkRateLimit_entry now clientId m :
  limiting m = true →
  let entry :=
    match Security.rateLimitStore m !! clientId with
    | Some e =>
        if decide (now > Security.resetTime e)
        then {| Security.count := 1; Security.resetTime := now + Security.windowMs |}
        else {| Security.count := Security.count e + 1;
                Security.resetTime := Security.resetTime e |}
    | None => {| Security.count := 1; Security.resetTime := now + Security.windowMs |}
    end in
  Security.checkRateLimit now clientId m =
  (bool_decide (Security.count entry ≤ limitOf m),
   Security.with_store (<[clientId := entry]> (Security.rateLimitStore m)) m).
Proof.
  intros Hon. unfold Security.checkRateLimit. rewrite Hon. simpl.
  destruct (Security.rateLimitStore m !! clientId) as [e|]; simpl.
  - by destruct (decide (now > Security.resetTime e)).
  - unfold Security.windowMs. rewrite decide_False by lia. done.
Qed.

(** What [validateRequest] does to the rate limiter is what its
    [checkRateLimit] does, and it answers 429 exactly when that refuses. *)
Lemma validateRequest_limit clk nextThrows req m :
  let r := Security.validateRequest jwtVerify clk nextThrows req m in
  let c := Security.checkRateLimit (Security.limited clk)
             (Security.getClientIdentifier req) m in
  Security.rateLimitStore r.2 = Security.rateLimitStore c.2 ∧
  Security.settings r.2 = Security.settings m ∧
  Security.activeSessions r.2 = Security.activeSessions m ∧
  (c.1 = false → r.1 = [tooManyRequests]) ∧
  (c.1 = true → tooManyRequests ∉ r.1).
Proof.
  unfold Security.validateRequest.
  assert (Hc : Security.settings
                 (Security.checkRateLimit (Security.limited clk)
                    (Security.getClientIdentifier req) m).2 = Security.settings m ∧
               Security.activeSessions
                 (Security.checkRateLimit (Security.limited clk)
                    (Security.getClientIdentifier req) m).2 = Security.activeSessions m).
  { unfold Security.checkRateLimit. by destruct (negb _). }
  destruct (Security.checkRateLimit _ _ m) as [[] m1]; simpl in *.
  - destruct (Security.requiresAuthentication _); simpl.
    + destruct (Security.success _); simpl.
      * destruct nextThrows; simpl; split_and!; try done; try tauto.
        -- intros _ [?|[?|?%elem_of_nil]%elem_of_cons]%elem_of_cons; done.
        -- intros _ [?|?%elem_of_nil]%elem_of_cons; done.
      * split_and!; try done; try tauto.
        intros _ [?|?%elem_of_nil]%elem_of_cons; done.
    + destruct nextThrows; simpl; split_and!; try done; try tauto.
      * intros _ [?|[?|?%elem_of_nil]%elem_of_cons]%elem_of_cons; done.
      * intros _ [?|?%elem_of_nil]%elem_of_cons; done.
  - split_and!; try done; tauto.
Qed.

Lemma validateAll_window
    (requests : list (Security.Clock * option string * Security.Request))
    clientId m (e : Security.RateLimitEntry) :
  limiting m = true →
  Security.rateLimitStore m !! clientId = Some e →
  (∀ r, r ∈ requests → Security.getClientIdentifier r.2 = clientId) →
  (∀ r, r ∈ requests → Security.limited r.1.1 ≤ Security.resetTime e) →
  ∀ (i : nat) actions,
    (validateAll jwtVerify requests m).1 !! i = Some actions →
    (limitOf m < Security.count e + Z.of_nat (S i) → actions = [tooManyRequests]) ∧
    (Security.count e + Z.of_nat (S i) ≤ limitOf m → tooManyRequests ∉ actions).
Proof.
  revert m e. induction requests as [|[[clk nextThrows] req] requests IH];
    intros m e Hon He Hclient Htimes i actions; [done|].
  cbn [validateAll].
  pose proof (validateRequest_limit clk nextThrows req m) as Hv. cbv zeta in Hv.
  pose proof (Hclient (clk, nextThrows, req) ltac:(left)) as Hcl. simpl in Hcl.
  rewrite Hcl in Hv.
  rewrite (checkRateLimit_entry _ clientId m Hon) in Hv. cbv zeta in Hv.
  rewrite He in Hv.
  pose proof (Htimes (clk, nextThrows, req) ltac:(left)) as Hnow. simpl in Hnow.
  rewrite decide_False in Hv by lia. cbn [fst snd] in Hv.
  destruct (Security.validateRequest jwtVerify clk nextThrows req m) as [a m1].
  cbn [fst snd] in Hv. destruct Hv as (Hstore & Hsettings & _ & Hrefused & Hadmitted).
  set (e1 := {| Security.count := Security.count e + 1;
                Security.resetTime := Security.resetTime e |}) in *.
  assert (He1 : Security.rateLimitStore m1 !! clientId = Some e1).
  { rewrite Hstore. simpl. apply lookup_insert_eq. }
  assert (Hcount : Security.count e1 = Security.count e + 1) by done.
  assert (Hon1 : limiting m1 = true) by by rewrite Hsettings.
  specialize (IH m1 e1 Hon1 He1 (λ r Hr, Hclient r (list_elem_of_further _ _ _ Hr))
                (λ r Hr, Htimes r (list_elem_of_further _ _ _ Hr))).
  destruct (validateAll jwtVerify requests m1) as [outcomes m2]. cbn [fst snd] in *.
  destruct i as [|i]; simpl.
  - intros [= <-]. split; intros Hi.
    + apply Hrefused. apply bool_decide_eq_false. lia.
    + apply Hadmitted. apply bool_decide_eq_true. lia.
  - intros Hi. destruct (IH i actions Hi) as [H1 H2]. rewrite Hsettings in H1, H2.
    split; intros Hlim; [apply H1 | apply H2]; lia.
Qed.

(** X17: with rate limiting enabled, in a run of requests of one client that
    is not yet in the rate limit store, all made within the minute that
    follows the first, the first [requestsPerMinute] requests are not
    answered 429 and every later one is answered 429 (Rate limit exceeded)
    and nothing else: it is neither authenticated nor passed on. *)
Theorem requests_over_the_limit_get_429
    (first : Security.Clock * option string * Security.Request)
    (rest : list (Security.Clock * option string * Security.Request))
    clientId m :
  limiting m = true →
  Security.rateLimitStore m !! clientId = None →
  (∀ r, r ∈ first :: rest → Security.getClientIdentifier r.2 = clientId) →
  (∀ r, r ∈ rest →
        Security.limited r.1.1 ≤ Security.limited first.1.1 + 60 * 1000) →
  ∀ (i : nat) actions,
    (validateAll jwtVerify (first :: rest) m).1 !! i = Some actions →
    (limitOf m < Z.of_nat (S i) → actions = [tooManyRequests]) ∧
    (Z.of_nat (S i) ≤ limitOf m → tooManyRequests ∉ actions).
Proof.
  intros Hon Hfresh Hclient Htimes i actions.
  destruct first as [[clk nextThrows] req]. cbn [validateAll].
  pose proof (validateRequest_limit clk nextThrows req m) as Hv. cbv zeta in Hv.
  pose proof (Hclient (clk, nextThrows, req) ltac:(left)) as Hcl. simpl in Hcl.
  rewrite Hcl in Hv.
  rewrite (checkRateLimit_entry _ clientId m Hon) in Hv. cbv zeta in Hv.
  rewrite Hfresh in Hv. cbn [fst snd] in Hv.
  destruct (Security.validateRequest jwtVerify clk nextThrows req m) as [a m1].
  cbn [fst snd] in Hv. destruct Hv as (Hstore & Hsettings & _ & Hrefused & Hadmitted).
  set (e1 := {| Security.count := 1;
                Security.resetTime := Security.limited clk + Security.windowMs |}) in *.
  assert (He1 : Security.rateLimitStore m1 !! clientId = Some e1).
  { rewrite Hstore. simpl. apply lookup_insert_eq. }
  assert (Hcount : Security.count e1 = 1) by done.
  assert (Hon1 : limiting m1 = true) by by rewrite Hsettings.
  pose proof (validateAll_window rest clientId m1 e1 Hon1 He1
                (λ r Hr, Hclient r (list_elem_of_further _ _ _ Hr)) Htimes) as Hrest.
  destruct (validateAll jwtVerify rest m1) as [outcomes m2]. cbn [fst snd] in *.
  destruct i as [|i]; simpl.
  - intros [= <-]. split; intros Hi.
    + apply Hrefused. apply bool_decide_eq_false. lia.
    + apply Hadmitted. apply bool_decide_eq_true. lia.
  - intros Hi. destruct (Hrest i actions Hi) as [H1 H2]. rewrite Hsettings in H1, H2.
    split; intros Hlim; [apply H1 | apply H2]; lia.
Qed.

Lemma checkRateLimit_other now clientId m c :
  c ≠ clientId →
  Security.rateLimitStore (Security.checkRateLimit now clientId m).2 !! c =
  Security.rateLimitStore m !! c.
Proof.
  intros Hne. unfold Security.checkRateLimit. destruct (negb _); [done|].
  simpl. by rewrite lookup_insert_ne.
Qed.

(** The window of a client that was last seen before [now - 60s] is over
    at [now]. *)
Lemma validateAll_stale
    (requests : list (Security.Clock * option string * Security.Request))
    clientId (now : Z) m :
  (∀ e, Security.rateLimitStore m !! clientId = Some e → Security.resetTime e < now) →
  (∀ r, r ∈ requests → Security.getClientIdentifier r.2 = clientId →
        Security.limited r.1.1 + 60 * 1000 < now) →
  let m' := (validateAll jwtVerify requests m).2 in
  Security.settings m' = Security.settings m ∧
  ∀ e, Security.rateLimitStore m' !! clientId = Some e → Security.resetTime e < now.
Proof.
  revert m. induction requests as [|[[clk nextThrows] req] requests IH];
    intros m Hm Hseen; [done|].
  cbn [validateAll].
  pose proof (validateRequest_limit clk nextThrows req m) as Hv. cbv zeta in Hv.
  destruct (Security.validateRequest jwtVerify clk nextThrows req m) as [a m1].
  cbn [fst snd] in Hv. destruct Hv as (Hstore & Hsettings & _).
  assert (Hm1 : ∀ e, Security.rateLimitStore m1 !! clientId = Some e →
                     Security.resetTime e < now).
  { intros e. rewrite Hstore.
    destruct (decide (Security.getClientIdentifier req = clientId)) as [Heq|Hne].
    - rewrite Heq. pose proof (Hseen (clk, nextThrows, req) ltac:(left) Heq) as Hclk.
      simpl in Hclk. unfold Security.checkRateLimit.
      destruct (negb _); [apply Hm|]. simpl. rewrite lookup_insert_eq.
      intros [= <-]. simpl.
      destruct (Security.rateLimitStore m !! clientId) as [e0|] eqn:He0.
      + destruct (decide _); simpl; [unfold Security.windowMs; lia | by apply Hm].
      + unfold Security.windowMs. destruct (decide _); simpl; lia.
    - rewrite checkRateLimit_other by done. apply Hm. }
  specialize (IH m1 Hm1 (λ r Hr, Hseen r (list_elem_of_further _ _ _ Hr))).
  destruct (validateAll jwtVerify requests m1) as [outcomes m2]. cbn [fst snd] in *.
  destruct IH as [-> IH]. by split.
Qed.

(** X18: the window of the rate limiter ends.  When [requestsPerMinute] is
    at least 1, a request of a client that was not in the store at first and
    whose requests since are all more than a minute old is not answered 429,
    however many of them there were and whatever other clients did. *)
Theorem client_is_admitted_after_a_minute
    (requests : list (Security.Clock * option string * Security.Request))
    (clk : Security.Clock) (nextThrows : option string) (req : Security.Request) m :
  Security.rateLimitStore m !! Security.getClientIdentifier req = None →
  1 ≤ limitOf m →
  (∀ r, r ∈ requests →
        Security.getClientIdentifier r.2 = Security.getClientIdentifier req →
        Security.limited r.1.1 + 60 * 1000 < Security.limited clk) →
  tooManyRequests ∉
    (Security.validateRequest jwtVerify clk nextThrows req
       (validateAll jwtVerify requests m).2).1.
Proof.
  intros Hfresh Hlimit Hseen.
  destruct (validateAll_stale requests (Security.getClientIdentifier req)
              (Security.limited clk) m) as [Hsettings Hstale]; [|done|].
  { intros e. by rewrite Hfresh. }
  set (m' := (validateAll jwtVerify requests m).2) in *.
  destruct (validateRequest_limit clk nextThrows req m') as (_ & _ & _ & _ & Hadmitted).
  apply Hadmitted. unfold Security.checkRateLimit. destruct (negb _); [done|]. simpl.
  apply bool_decide_eq_true. rewrite Hsettings.
  destruct (Security.rateLimitStore m' !! _) as [e|] eqn:He; simpl.
  - rewrite decide_True by (specialize (Hstale e eq_refl); lia). simpl. lia.
  - unfold Security.windowMs. destruct (decide _); simpl; lia.
Qed.

Lemma authenticateRequest_ext now req m m' :
  Security.settings m' = Security.settings m →
  Security.activeSessions m' = Security.activeSessions m →
  Security.jwtSecret m' = Security.jwtSecret m →
  Security.authenticateRequest jwtVerify now req m' =
  Security.authenticateRequest jwtVerify now req m.
Proof.
  intros Hs Ha Hj. unfold Security.authenticateRequest, Security.validateSessionToken.
  by rewrite Hs, Ha, Hj.
Qed.

Lemma checkRateLimit_rest now clientId m :
  let m' := (Security.checkRateLimit now clientId m).2 in
  Security.settings m' = Security.settings m ∧
  Security.activeSessions m' = Security.activeSessions m ∧
  Security.jwtSecret m' = Security.jwtSecret m ∧
  Security.auditLogs m' = Security.auditLogs m.
Proof. unfold Security.checkRateLimit. by destruct (negb _). Qed.

(** The verdict and the client's entry after a [checkRateLimit] are those
    of the same call on the manager without the expired entries. *)
Lemma checkRateLimit_cleanup now now' clientId m :
  now ≤ now' →
  (Security.checkRateLimit now' clientId (Security.rateLimitCleanup now m)).1 =
  (Security.checkRateLimit now' clientId m).1.
Proof.
  intros Hle. unfold Security.checkRateLimit, Security.rateLimitCleanup. simpl.
  destruct (negb _); [done|]. simpl.
  destruct (Security.rateLimitStore m !! clientId) as [e|] eqn:He.
  - destruct (decide (now > Security.resetTime e)) as [Hexp|Hlive].
    + rewrite map_lookup_filter_None_2; [|right; intros e'; rewrite He; intros [= <-]; simpl; tauto].
      rewrite (decide_True (P := now' > Security.resetTime e)) by lia.
      by destruct (decide _).
    + erewrite map_lookup_filter_Some_2; [done | exact He | done].
  - rewrite map_lookup_filter_None_2; [done | by left].
Qed.

(** X19: the sweep of the rate limit store does not show in what a client is
    answered: what [validateRequest] does with a request made at a time that
    is not before the sweep is what it would have done had the sweep not
    run. *)
Theorem rate_limit_cleanup_is_transparent (now : Z) (clk : Security.Clock)
    (nextThrows : option string) (req : Security.Request) m :
  now ≤ Security.limited clk →
  (Security.validateRequest jwtVerify clk nextThrows req
     (Security.rateLimitCleanup now m)).1 =
  (Security.validateRequest jwtVerify clk nextThrows req m).1.
Proof.
  intros Hle. unfold Security.validateRequest.
  pose proof (checkRateLimit_cleanup now (Security.limited clk)
                (Security.getClientIdentifier req) m Hle) as Hverdict.
  pose proof (checkRateLimit_rest (Security.limited clk)
                (Security.getClientIdentifier req) m) as (Hs & Ha & Hj & _).
  pose proof (checkRateLimit_rest (Security.limited clk)
                (Security.getClientIdentifier req) (Security.rateLimitCleanup now m))
    as (Hs' & Ha' & Hj' & _).
  destruct (Security.checkRateLimit _ _ m) as [b m1].
  destruct (Security.checkRateLimit _ _ (Security.rateLimitCleanup now m)) as [b' m1'].
  simpl in *. subst b'. destruct b; simpl; [|done].
  rewrite (authenticateRequest_ext _ _ m1 m1') by congruence.
  destruct (Security.requiresAuthentication _); simpl.
  - destruct (Security.success _); simpl; [by destruct nextThrows | done].
  - by destruct nextThrows.
Qed.

Lemma logSecurityEvent_logs now event clientId details endpoint m :
  let entry := {| Types.timestamp := now; Types.event := event;
                  Types.client := clientId; Types.details := details;
                  Types.endpoint := endpoint |} in
  let m' := Security.logSecurityEvent now event clientId details endpoint m in
  (length (Security.auditLogs m) ≤ 1000 → length (Security.auditLogs m') ≤ 1000)%nat ∧
  last (Security.auditLogs m') = Some entry ∧
  Security.auditLogs m' `suffix_of` Security.auditLogs m ++ [entry] ∧
  Security.settings m' = Security.settings m ∧
  Security.activeSessions m' = Security.activeSessions m ∧
  Security.rateLimitStore m' = Security.rateLimitStore m.
Proof.
  intros entry m'. subst m'. unfold Security.logSecurityEvent. simpl. fold entry.
  split_and!; [| | |done..].
  - intros Hlen. destruct (decide _); [|rewrite length_app in *; simpl in *; lia].
    rewrite length_drop, length_app. simpl. lia.
  - destruct (decide _); [|apply last_snoc].
    rewrite drop_app_le by (rewrite length_app; simpl; lia). apply last_snoc.
  - destruct (decide _); [apply suffix_drop | done].
Qed.

Lemma validateRequest_logs clk nextThrows req m :
  let m' := (Security.validateRequest jwtVerify clk nextThrows req m).2 in
  (length (Security.auditLogs m) ≤ 1000 → length (Security.auditLogs m') ≤ 1000)%nat ∧
  ∃ entry, last (Security.auditLogs m') = Some entry ∧
           Types.client entry = Security.getClientIdentifier req ∧
           (Types.timestamp entry = Security.logged clk ∨
            Types.timestamp entry = Security.caught clk).
Proof.
  unfold Security.validateRequest.
  pose proof (checkRateLimit_rest (Security.limited clk)
                (Security.getClientIdentifier req) m) as (_ & _ & _ & Hlogs).
  destruct (Security.checkRateLimit _ _ m) as [b m1]. simpl in Hlogs. rewrite <-Hlogs.
  assert (Hone : ∀ event details endpoint,
            let m' := Security.logSecurityEvent (Security.logged clk) event
                        (Security.getClientIdentifier req) details endpoint m1 in
            (length (Security.auditLogs m1) ≤ 1000 → length (Security.auditLogs m') ≤ 1000)%nat ∧
            ∃ entry, last (Security.auditLogs m') = Some entry ∧
                     Types.client entry = Security.getClientIdentifier req ∧
                     (Types.timestamp entry = Security.logged clk ∨
                      Types.timestamp entry = Security.caught clk)).
  { intros event details endpoint.
    destruct (logSecurityEvent_logs (Security.logged clk) event
                (Security.getClientIdentifier req) details endpoint m1) as (Hl & Hlast & _).
    split; [done|]. eexists. split; [exact Hlast|]. split; [done | by left]. }
  assert (Htwo : ∀ message,
            let m' := Security.logSecurityEvent (Security.caught clk) Types.error
                        (Security.getClientIdentifier req)
                        ("Security validation error: " +:+ message) None
                        (Security.logSecurityEvent (Security.logged clk) Types.api_call
                           (Security.getClientIdentifier req)
                           (Security.method req +:+ " " +:+ Security.path req)
                           (Some (Security.path req)) m1) in
            (length (Security.auditLogs m1) ≤ 1000 → length (Security.auditLogs m') ≤ 1000)%nat ∧
            ∃ entry, last (Security.auditLogs m') = Some entry ∧
                     Types.client entry = Security.getClientIdentifier req ∧
                     (Types.timestamp entry = Security.logged clk ∨
                      Types.timestamp entry = Security.caught clk)).
  { intros message.
    destruct (Hone Types.api_call (Security.method req +:+ " " +:+ Security.path req)
                (Some (Security.path req))) as [Hl1 _].
    match goal with |- context [Security.logSecurityEvent (Security.caught clk) ?ev ?c ?d ?e ?m0] =>
      destruct (logSecurityEvent_logs (Security.caught clk) ev c d e m0) as (Hl & Hlast & _) end.
    split; [auto|]. eexists. split; [exact Hlast|]. split; [done | by right]. }
  unfold Security.authorizeRequest.
  destruct b; cbn [negb snd]; [|apply Hone].
  destruct (Security.requiresAuthentication _); cbn [negb snd Security.success].
  - destruct (Security.success _); cbn [negb snd]; [|apply Hone].
    destruct nextThrows; cbn [snd]; [apply Htwo | apply Hone].
  - destruct nextThrows; cbn [snd]; [apply Htwo | apply Hone].
Qed.

Lemma call_logs (c : Security.Call) m :
  (length (Security.auditLogs m) ≤ 1000 →
   length (Security.auditLogs (Security.call jwtVerify c m)) ≤ 1000)%nat.
Proof.
  destruct c as [clk nextThrows req | newSettings | now | now]; simpl; [|done..].
  apply validateRequest_logs.
Qed.

(** X20: the audit log never holds more than 1000 entries, whatever calls
    were made on the manager, and every [validateRequest] ends with an entry
    for its client as the last one of the log, stamped with the clock of the
    call. *)
Theorem audit_log_keeps_the_latest (settings : Types.MCPPluginSettings)
    (secret : string) (calls : list Security.Call) (clk : Security.Clock)
    (nextThrows : option string) (req : Security.Request) :
  let m := Security.after jwtVerify settings secret calls in
  let m' := (Security.validateRequest jwtVerify clk nextThrows req m).2 in
  (length (Security.auditLogs m) ≤ 1000)%nat ∧
  (length (Security.auditLogs m') ≤ 1000)%nat ∧
  ∃ entry, last (Security.auditLogs m') = Some entry ∧
           Types.client entry = Security.getClientIdentifier req ∧
           (Types.timestamp entry = Security.logged clk ∨
            Types.timestamp entry = Security.caught clk).
Proof.
  intros m m'.
  assert (Hm : (length (Security.auditLogs m) ≤ 1000)%nat).
  { subst m. unfold Security.after.
    assert (H : ∀ m0, (length (Security.auditLogs m0) ≤ 1000)%nat →
              (length (Security.auditLogs (foldl (λ m c, Security.call jwtVerify c m) m0 calls))
               ≤ 1000)%nat).
    { induction calls as [|c calls IH]; intros m0 Hm0; [done|].
      cbn [foldl]. apply IH. by apply call_logs. }
    apply H. simpl. lia. }
  destruct (validateRequest_logs clk nextThrows req m) as [Hbound Hlast].
  split_and!; [done | by apply Hbound | exact Hlast].
Qed.

Lemma call_sessions (c : Security.Call) m :
  Security.activeSessions m = ∅ →
  Security.activeSessions (Security.call jwtVerify c m) = ∅.
Proof.
  intros Hm. destruct c as [clk nextThrows req | newSettings | now | now]; simpl.
  - destruct (validateRequest_limit clk nextThrows req m) as (_ & _ & -> & _). done.
  - done.
  - rewrite Hm. apply map_filter_empty.
  - done.
Qed.

(** X21: no session is ever registered with the security manager: after any
    sequence of calls [activeSessions] is empty and [validateSessionToken]
    accepts no token, so that with [requireAuth] set every request to an
    endpoint other than [/health] and [/api/docs] is answered 429 or 401,
    whatever [Authorization] header it carries. *)
Theorem no_request_is_ever_authenticated (settings : Types.MCPPluginSettings)
    (secret : string) (calls : list Security.Call) (clk : Security.Clock)
    (nextThrows : option string) (req : Security.Request) :
  let m := Security.after jwtVerify settings secret calls in
  Security.activeSessions m = ∅ ∧
  (∀ now token, Security.validateSessionToken jwtVerify now token m = None) ∧
  (Types.SecuritySettings.requireAuth (Types.security (Security.settings m)) = true →
   Security.requiresAuthentication (Security.path req) = true →
   (Security.validateRequest jwtVerify clk nextThrows req m).1 = [tooManyRequests] ∨
   ∃ reason,
     (Security.validateRequest jwtVerify clk nextThrows req m).1 =
     [Security.Reply 401 (-32001) "Authentication required" (Some reason)]).
Proof.
  intros m.
  assert (Hnone : Security.activeSessions m = ∅).
  { subst m. unfold Security.after.
    assert (H : ∀ m0, Security.activeSessions m0 = ∅ →
              Security.activeSessions (foldl (λ m c, Security.call jwtVerify c m) m0 calls) = ∅).
    { induction calls as [|c calls IH]; intros m0 Hm0; [done|].
      cbn [foldl]. apply IH. by apply call_sessions. }
    by apply H. }
  assert (Htoken : ∀ m', Security.activeSessions m' = ∅ →
            ∀ now token, Security.validateSessionToken jwtVerify now token m' = None).
  { intros m' Hm' now token. unfold Security.validateSessionToken.
    destruct (jwtVerify _ _); [|done]. by rewrite Hm', lookup_empty. }
  split_and!; [done | by apply Htoken |].
  intros Hrequire Hprotected. unfold Security.validateRequest.
  pose proof (checkRateLimit_rest (Security.limited clk)
                (Security.getClientIdentifier req) m) as (Hs & Ha & _).
  destruct (Security.checkRateLimit _ _ m) as [b m1]. simpl in Hs, Ha.
  destruct b; simpl; [|by left]. right. rewrite Hprotected.
  unfold Security.authenticateRequest. rewrite Hs, Hrequire. simpl.
  destruct (Security.authorization req) as [authHeader|]; [|by eexists].
  destruct (String.prefix _ _); [|by eexists].
  rewrite Htoken by congruence. by eexists.
Qed.

End RateLimit.

(** Three requests of one client within a minute, against a limit of two. *)
Lemma requests_over_the_limit_get_429_witness :
  let settings :=
    {| Types.port := 3000; Types.serverPort := Some 3000; Types.apiToken := "t";
       Types.enabled := true; Types.enableCaching := true; Types.sseEndpoint := "/sse";
       Types.allowedOrigins := ["*"];
       Types.rateLimiting := Types.RateLimiting.mk true 2;
       Types.security := Types.SecuritySettings.mk false 60;
       Types.autoStart := true; Types.debugMode := false |} in
  let req := {| Security.ip := Some "10.0.0.7"; Security.remoteAddress := None;
                Security.path := "/mcp"; Security.method := "POST";
                Security.authorization := None |} in
  let at_ (t : Z) := (Security.mkClock t t t t, @None string, req) in
  (validateAll (λ _ _, None) [at_ 0; at_ 10; at_ 20] (Security.new settings "secret")).1
    !! 2%nat = Some [tooManyRequests].
Proof.
  intros settings req at_.
  eassert (Hthird : (validateAll (λ _ _, None) [at_ 0; at_ 10; at_ 20]
                       (Security.new settings "secret")).1 !! 2%nat = Some _)
    by (vm_compute; reflexivity).
  refine (eq_trans Hthird (f_equal Some (proj1
            (requests_over_the_limit_get_429 (λ _ _, None) (at_ 0) [at_ 10; at_ 20]
               "10.0.0.7" (Security.new settings "secret") eq_refl eq_refl _ _
               2%nat _ Hthird) _))).
  - intros r Hin.
    repeat (apply elem_of_cons in Hin as [->|Hin]; [reflexivity|]).
    by apply elem_of_nil in Hin.
  - intros r Hin.
    repeat (apply elem_of_cons in Hin as [->|Hin]; [by vm_compute|]).
    by apply elem_of_nil in Hin.
  - by vm_compute.
Defined.

(** The same client a minute after its third request. *)
Lemma client_is_admitted_after_a_minute_witness :
  let settings :=
    {| Types.port := 3000; Types.serverPort := Some 3000; Types.apiToken := "t";
       Types.enabled := true; Types.enableCaching := true; Types.sseEndpoint := "/sse";
       Types.allowedOrigins := ["*"];
       Types.rateLimiting := Types.RateLimiting.mk true 2;
       Types.security := Types.SecuritySettings.mk false 60;
       Types.autoStart := true; Types.debugMode := false |} in
  let req := {| Security.ip := Some "10.0.0.7"; Security.remoteAddress := None;
                Security.path := "/mcp"; Security.method := "POST";
                Security.authorization := None |} in
  let at_ (t : Z) := (Security.mkClock t t t t, @None string, req) in
  tooManyRequests ∉
    (Security.validateRequest (λ _ _, None) (Security.mkClock 60021 60021 60021 60021)
       None req
       (validateAll (λ _ _, None) [at_ 0; at_ 10; at_ 20]
          (Security.new settings "secret")).2).1.
Proof.
  intros settings req at_.
  apply (client_is_admitted_after_a_minute (λ _ _, None) [at_ 0; at_ 10; at_ 20]
           (Security.mkClock 60021 60021 60021 60021) None req
           (Security.new settings "secret")); [reflexivity | by vm_compute |].
  intros r Hin _.
  repeat (apply elem_of_cons in Hin as [->|Hin]; [by vm_compute|]).
  by apply elem_of_nil in Hin.
Defined.

(** The sweep of the rate limiter between the third request of a client and
    its fourth. *)
Lemma rate_limit_cleanup_is_transparent_witness :
  let settings :=
    {| Types.port := 3000; Types.serverPort := Some 3000; Types.apiToken := "t";
       Types.enabled := true; Types.enableCaching := true; Types.sseEndpoint := "/sse";
       Types.allowedOrigins := ["*"];
       Types.rateLimiting := Types.RateLimiting.mk true 2;
       Types.security := Types.SecuritySettings.mk false 60;
       Types.autoStart := true; Types.debugMode := false |} in
  let req := {| Security.ip := Some "10.0.0.7"; Security.remoteAddress := None;
                Security.path := "/mcp"; Security.method := "POST";
                Security.authorization := None |} in
  let at_ (t : Z) := (Security.mkClock t t t t, @None string, req) in
  let m := (validateAll (λ _ _, None) [at_ 0; at_ 10; at_ 20]
              (Security.new settings "secret")).2 in
  (Security.validateRequest (λ _ _, None) (Security.mkClock 40 40 40 40) None req
     (Security.rateLimitCleanup 30 m)).1 =
  (Security.validateRequest (λ _ _, None) (Security.mkClock 40 40 40 40) None req m).1.
Proof.
  intros settings req at_ m.
  apply (rate_limit_cleanup_is_transparent (λ _ _, None) 30
           (Security.mkClock 40 40 40 40) None req m).
  by vm_compute.
Defined.

(** ** The tool schema generator *)

Section GeneratorFacts.
Context (categoryMap : list (string * Categories.ToolCategory)).
Context (apiMappings : list (string * Mappings.APIMapping)).

Lemma findIn_own (table : list (string * Mappings.APIMapping)) k api :
  NoDup (Mappings.apiPath <$> table.*2) → (k, api) ∈ table →
  Generator.findIn table (Mappings.apiPath api) = Some k.
Proof.
  induction table as [|[k' api'] table IH]; intros Hnd Hin.
  - by apply elem_of_nil in Hin.
  - rewrite fmap_cons, fmap_cons in Hnd. apply NoDup_cons in Hnd as [Hfresh Hnd].
    simpl. apply elem_of_cons in Hin as [Heq | Hin].
    + injection Heq as -> ->. by rewrite decide_True.
    + rewrite decide_False; [by apply IH|].
      intros Hpath. apply Hfresh. simpl. rewrite Hpath.
      apply list_elem_of_fmap. exists api. split; [done|].
      apply list_elem_of_fmap. by exists (k, api).
Qed.

Lemma filter_disjoint_app {A} (P Q : A → Prop) `{!∀ x, Decision (P x)}
    `{!∀ x, Decision (Q x)} (l : list A) :
  (∀ x, P x → Q x → False) →
  filter P l ++ filter Q l ≡ₚ filter (λ x, P x ∨ Q x) l.
Proof.
  intros Hdisj. induction l as [|x l IH]; [done|].
  rewrite !filter_cons.
  destruct (decide (P x)) as [HP|HP], (decide (Q x)) as [HQ|HQ].
  - by destruct (Hdisj x).
  - rewrite decide_True by by left. simpl. by rewrite IH.
  - rewrite decide_True by by right. rewrite <- Permutation_middle. by rewrite IH.
  - rewrite decide_False by by intros [|]. done.
Qed.

Lemma bind_filter_by_key {A} (key : A → string) (ks : list string) (l : list A) :
  NoDup ks →
  (ks ≫= λ c, filter (λ a, key a = c) l) ≡ₚ filter (λ a, key a ∈ ks) l.
Proof.
  induction 1 as [|c ks Hfresh Hnd IH].
  - simpl. rewrite filter_none; [done|]. intros x _ Hx. by apply elem_of_nil in Hx.
  - rewrite bind_cons, IH.
    rewrite filter_disjoint_app by (intros x <- Hx; done).
    erewrite list_filter_iff; [done|]. intros x.
    rewrite elem_of_cons. naive_solver.
Qed.

Lemma bind_bind {A B C} (f : A → list B) (g : B → list C) (l : list A) :
  (l ≫= λ a, f a ≫= g) = (l ≫= f) ≫= g.
Proof.
  induction l as [|a l IH]; [done|]. by rewrite !bind_cons, bind_app, IH.
Qed.

Lemma generateFor_own (l : list (string * Mappings.APIMapping)) :
  NoDup (Mappings.apiPath <$> apiMappings.*2) →
  (∀ p, p ∈ l → p ∈ apiMappings ∧ p.1 ≠ EmptyString ∧
                 Mappings.category p.2 ∈ categoryMap.*1) →
  Some <$> (l.*2 ≫= Generator.generateFor categoryMap apiMappings) =
  (λ p, Generator.generateToolDefinition categoryMap p.1 p.2) <$> l.
Proof.
  intros Hpaths. induction l as [|[k api] l IH]; intros Hl; [done|].
  rewrite fmap_cons, bind_cons, fmap_app, IH
    by (intros p Hp; apply Hl; by right).
  destruct (Hl (k, api)) as (Hin & Hkey & Hcat); [by left|].
  rewrite fmap_cons. simpl. unfold Generator.generateFor, Generator.findToolNameForAPI.
  rewrite (findIn_own _ k api) by done. rewrite decide_False by done.
  apply JsMap_get_is_Some in Hcat as [category Hcat].
  unfold Generator.generateToolDefinition. simpl in Hcat. by rewrite Hcat.
Qed.

(** X22: when no category is listed twice, no key of the table of mappings
    is the empty string, no two mappings share an API path and every mapping
    names a listed category, [generateAllTools()] returns, up to their order,
    one tool for each entry of the table of mappings: the definition
    [generateToolDefinition] builds from the key and the mapping of the
    entry, which is never [null].  The names of the tools are the keys of
    the table. *)
Theorem one_tool_for_each_mapping :
  JsMap.wf categoryMap →
  EmptyString ∉ apiMappings.*1 →
  NoDup (Mappings.apiPath <$> apiMappings.*2) →
  (∀ k api, (k, api) ∈ apiMappings → Mappings.category api ∈ categoryMap.*1) →
  let tools := Generator.generateAllTools categoryMap apiMappings in
  Some <$> tools ≡ₚ
    (λ p, Generator.generateToolDefinition categoryMap p.1 p.2) <$> apiMappings ∧
  Generator.name <$> tools ≡ₚ apiMappings.*1.
Proof.
  intros Hwf Hkeys Hpaths Hcats tools.
  assert (Hperm : ∃ l, l ≡ₚ apiMappings ∧
             tools = l.*2 ≫= Generator.generateFor categoryMap apiMappings) .
  { exists (categoryMap.*1 ≫= λ c, filter (λ p, Mappings.category p.2 = c) apiMappings).
    split.
    - rewrite (bind_filter_by_key (λ p, Mappings.category p.2)) by done.
      rewrite filter_all; [done|]. intros [k api] Hin. by eapply Hcats.
    - unfold tools, Generator.generateAllTools, Mappings.getAPIsByCategory.
      rewrite bind_bind. f_equal.
      generalize (categoryMap.*1). intros cs.
      induction cs as [|c cs IH]; [done|].
      rewrite !bind_cons, fmap_app, IH. f_equal.
      clear. induction apiMappings as [|[k api] m IH]; [done|].
      rewrite fmap_cons, !filter_cons. simpl.
      destruct (decide (Mappings.category api = c)); simpl; by rewrite IH. }
  destruct Hperm as (l & Hl & Htools).
  assert (Hsome : Some <$> tools =
            (λ p, Generator.generateToolDefinition categoryMap p.1 p.2) <$> l).
  { rewrite Htools. apply generateFor_own; [done|].
    intros [k api] Hin. rewrite Hl in Hin. split; [done|]. split; [|by eapply Hcats].
    simpl. intros ->. apply Hkeys. apply list_elem_of_fmap. by exists (EmptyString, api). }
  split.
  - by rewrite Hsome, Hl.
  - rewrite <- Hl.
    assert (Hnames : (fmap Generator.name) <$> (Some <$> tools) = Some <$> l.*1).
    { rewrite Hsome. rewrite <- !list_fmap_compose.
      apply Forall_fmap_ext_1, Forall_forall. intros [k api] Hin. simpl.
      rewrite Hl in Hin. apply Hcats, JsMap_get_is_Some in Hin as [category Hcat].
      unfold Generator.generateToolDefinition. simpl in Hcat. by rewrite Hcat. }
    rewrite <- list_fmap_compose in Hnames.
    change (fmap Generator.name ∘ Some) with (Some ∘ Generator.name) in Hnames.
    rewrite list_fmap_compose in Hnames.
    apply (inj (fmap Some)) in Hnames. by rewrite Hnames.
Qed.

End GeneratorFacts.

(** The tables of the repository meet the four conditions. *)
Lemma one_tool_for_each_mapping_witness :
  let tools :=
    Generator.generateAllTools Tables.TOOL_CATEGORIES Tables.SIYUAN_API_MAPPINGS in
  Some <$> tools ≡ₚ
    (λ p, Generator.generateToolDefinition Tables.TOOL_CATEGORIES p.1 p.2) <$>
      Tables.SIYUAN_API_MAPPINGS ∧
  Generator.name <$> tools ≡ₚ Tables.SIYUAN_API_MAPPINGS.*1.
Proof.
  apply one_tool_for_each_mapping.
  - apply (bool_decide_unpack _). vm_compute. exact I.
  - apply (bool_decide_unpack _). vm_compute. exact I.
  - apply (bool_decide_unpack _). vm_compute. exact I.
  - intros k api Hin.
    assert (Hall : Forall (λ p, Mappings.category p.2 ∈ Tables.TOOL_CATEGORIES.*1)
                     Tables.SIYUAN_API_MAPPINGS)
      by (apply (bool_decide_unpack _); vm_compute; exact I).
    exact (proj1 (Forall_forall _ _) Hall (k, api) Hin).
Defined.

(** ** The adapter *)

Section AdapterFacts.

Lemma find_by_name {A B} (name : A → string) (f : A → B) (l : list A) toolName :
  f <$> List.find (λ t, bool_decide (name t = toolName)) l =
  JsMap.get ((λ t, (name t, f t)) <$> l) toolName.
Proof.
  induction l as [|t l IH]; [done|].
  rewrite fmap_cons. cbn [List.find JsMap.get].
  destruct (decide (name t = toolName)) as [Heq|Hne].
  - by rewrite bool_decide_eq_true_2.
  - by rewrite bool_decide_eq_false_2.
Qed.

Lemma JsMap_get_fmap {A B} (f : A → B) (m : list (string * A)) k :
  JsMap.get ((λ p, (p.1, f p.2)) <$> m) k = f <$> JsMap.get m k.
Proof.
  induction m as [|[k' a] m IH]; [done|].
  rewrite fmap_cons. cbn [JsMap.get fst snd]. by destruct (decide (k' = k)).
Qed.

Lemma generated_calls :
  (λ t, (Generator.name t,
         Adapter.Mapped (Generator.method (Generator.metadata t))
                        (Generator.apiPath (Generator.metadata t)))) <$>
    Generator.generateAllTools Tables.TOOL_CATEGORIES Tables.SIYUAN_API_MAPPINGS =
  (λ p, (p.1, Adapter.Mapped (Mappings.method p.2) (Mappings.apiPath p.2))) <$>
    Tables.SIYUAN_API_MAPPINGS.
Proof. vm_compute. reflexivity. Qed.

(** X23: [getAPICallForTool] answers for a name in this order: a key of
    [SIYUAN_API_MAPPINGS] gives the method and the path of its mapping (the
    generated tools carry the keys of the table as their names); else one of
    the seven legacy names gives its legacy call; else the name of a property
    of [Object.prototype] gives a call with neither method nor path; any
    other name gives [null]. *)
Theorem adapter_resolution toolName :
  Adapter.getAPICallForTool toolName =
  match JsMap.get Tables.SIYUAN_API_MAPPINGS toolName with
  | Some api => Some (Adapter.Mapped (Mappings.method api) (Mappings.apiPath api))
  | None =>
      match JsMap.get Adapter.legacyMappings toolName with
      | Some apiCall => Some apiCall
      | None =>
          if bool_decide (toolName ∈ Adapter.objectPrototype)
          then Some Adapter.Inherited else None
      end
  end.
Proof.
  unfold Adapter.getAPICallForTool.
  pose proof (find_by_name Generator.name
                (λ t, Adapter.Mapped (Generator.method (Generator.metadata t))
                                     (Generator.apiPath (Generator.metadata t)))
                (Generator.generateAllTools Tables.TOOL_CATEGORIES
                   Tables.SIYUAN_API_MAPPINGS) toolName) as Hfind.
  cbv beta in Hfind. rewrite generated_calls in Hfind.
  rewrite (JsMap_get_fmap
             (λ api, Adapter.Mapped (Mappings.method api) (Mappings.apiPath api)))
    in Hfind.
  destruct (List.find _ _), (JsMap.get Tables.SIYUAN_API_MAPPINGS toolName);
    simpl in Hfind; congruence.
Qed.

End AdapterFacts.

(** ** The managers on the adapter *)

Section ServerFacts.
Context {B R : Type}.
Context (request : option string → option string → Upstream B).
Context (dataOf : B → Upstream R).
Context (resultId insertedId : R → option string).
Context (jsonPretty : Resources.Data R → string)
        (jsonStringifyLength : Resources.Data R → option N).
Context (kramdownOf : R → string) (notebooksLength : R → Z).
Context (parseInt : string → option Z) (numberToString : option Z → string).
Context (typeErrorMessage : string).

(** The names the write tools and the workspace resource pass to the
    adapter, insert-block apart. *)
Lemma unresolved_names toolName :
  toolName ∈ [ "siyuan_create_doc_with_md"; "siyuan_update_block";
               "siyuan_remove_doc"; "siyuan_delete_block"; "siyuan_move_block";
               "siyuan_get_conf" ] →
  Adapter.getAPICallForTool toolName = None.
Proof.
  intros Hin.
  repeat (apply elem_of_cons in Hin as [->|Hin]; [vm_compute; reflexivity|]).
  by apply elem_of_nil in Hin.
Qed.

Lemma callTool_unresolved toolName :
  toolName ∈ [ "siyuan_create_doc_with_md"; "siyuan_update_block";
               "siyuan_remove_doc"; "siyuan_delete_block"; "siyuan_move_block";
               "siyuan_get_conf" ] →
  Adapter.callTool request dataOf toolName = Rejected ("Unknown tool: " +:+ toolName).
Proof.
  intros Hin. unfold Adapter.callTool.
  rewrite (unresolved_names toolName Hin). reflexivity.
Qed.

(** X24: six of the seven write tools, all but insert-block, call the adapter
    under a name it does not resolve.  Whatever the arguments, the cache and
    the SiYuan server, the handler makes no HTTP request, answers with
    [isError] and the text of [Unknown tool: <name>], and leaves the cache
    manager as it was: nothing is invalidated. *)
Theorem unresolved_write_tools_fail (V : Type) (tool : string)
    (handler : Tools.Args → Cache.CacheManager V →
               Tools.ToolResponse * Cache.CacheManager V) args s :
  (tool, handler) ∈ Server.writeTools request dataOf resultId insertedId →
  tool ≠ "insert-block" →
  ∃ what api,
    Adapter.getAPICallForTool api = None ∧
    handler args s = (Tools.failure what tool ("Unknown tool: " +:+ api), s).
Proof.
  intros Hin Hne. unfold Server.writeTools in Hin.
  repeat (apply elem_of_cons in Hin as [Heq | Hin];
          [injection Heq as -> ->|]).
  - exists "creating document", "siyuan_create_doc_with_md".
    split; [apply unresolved_names; in_list|].
    unfold Server.createDocument. rewrite callTool_unresolved by in_list.
    reflexivity.
  - exists "updating document", "siyuan_update_block".
    split; [apply unresolved_names; in_list|].
    unfold Server.updateDocument. rewrite callTool_unresolved by in_list.
    reflexivity.
  - exists "deleting document", "siyuan_remove_doc".
    split; [apply unresolved_names; in_list|].
    unfold Server.deleteDocument. rewrite callTool_unresolved by in_list.
    reflexivity.
  - by destruct Hne.
  - exists "updating block", "siyuan_update_block".
    split; [apply unresolved_names; in_list|].
    unfold Server.updateBlock. rewrite callTool_unresolved by in_list.
    reflexivity.
  - exists "deleting block", "siyuan_delete_block".
    split; [apply unresolved_names; in_list|].
    unfold Server.deleteBlock. rewrite callTool_unresolved by in_list.
    reflexivity.
  - exists "moving block", "siyuan_move_block".
    split; [apply unresolved_names; in_list|].
    unfold Server.moveBlock. rewrite callTool_unresolved by in_list.
    reflexivity.
  - by apply elem_of_nil in Hin.
Qed.

Lemma get_keeps_absent {V} now now' k k' (s : Cache.CacheManager V) :
  JsMap.get (Cache.cache s) k' = None →
  JsMap.get (Cache.cache (Cache.get now now' k s).2) k' = None.
Proof.
  intros Habsent. destruct (decide (k = k')) as [->|Hne].
  - unfold Cache.get. by rewrite Habsent.
  - by rewrite get_other_keys.
Qed.

Lemma delete_keeps_absent {V} k k' (s : Cache.CacheManager V) :
  JsMap.get (Cache.cache s) k' = None →
  JsMap.get (Cache.cache (Cache.delete k s).2) k' = None.
Proof.
  intros Habsent. simpl. destruct (decide (k = k')) as [->|Hne].
  - apply JsMap_get_delete_eq.
  - by rewrite JsMap_get_delete_ne.
Qed.

Lemma set_keeps_absent {V} (size : V → option N) now k v t k'
    (s : Cache.CacheManager V) :
  k ≠ k' →
  JsMap.get (Cache.cache s) k' = None →
  JsMap.get (Cache.cache (Cache.set size now k v t s).2) k' = None.
Proof.
  intros Hne Habsent.
  destruct (set_evicts size now k v t s) as [(_ & _ & ->) | (ks & -> & _)]; [done|].
  simpl. rewrite JsMap_get_set_ne by done.
  destruct (decide (k' ∈ ks)).
  - by apply evictAll_get_evicted.
  - by rewrite evictAll_get_other.
Qed.

Lemma workspace_read clk iso u (s : Cache.CacheManager (Resources.Data R)) :
  noWorkspaceEntry s →
  (serverRead request dataOf jsonPretty jsonStringifyLength kramdownOf notebooksLength parseInt numberToString typeErrorMessage Resources.Workspace clk iso u s).1 =
    Resources.plain u "Error accessing workspace: Unknown tool: siyuan_get_conf" ∧
  Cache.cache (serverRead request dataOf jsonPretty jsonStringifyLength kramdownOf notebooksLength parseInt numberToString typeErrorMessage Resources.Workspace clk iso u s).2 = Cache.cache s.
Proof.
  intros Habsent.
  unfold serverRead, Server.read, Resources.handle, Resources.handleWorkspaceResource.
  cbn [Server.upstreamTool fst snd].
  rewrite (callTool_unresolved "siyuan_get_conf") by in_list.
  unfold Cache.get. rewrite Habsent. done.
Qed.

Lemma read_keeps_absent req clk iso u (s : Cache.CacheManager (Resources.Data R)) :
  noWorkspaceEntry s → noWorkspaceEntry (serverRead request dataOf jsonPretty jsonStringifyLength kramdownOf notebooksLength parseInt numberToString typeErrorMessage req clk iso u s).2.
Proof.
  intros Habsent. destruct req.
  6: { destruct (workspace_read clk iso u s Habsent) as [_ Hcache].
       by rewrite Hcache. }
  all: unfold serverRead, Server.read, Resources.handle;
    cbn [Server.upstreamTool fst snd];
    unfold Resources.handleNotebookResource, Resources.handleNotebooksListResource,
      Resources.handleDocumentResource, Resources.handleBlockResource,
      Resources.handleSearchResource;
    match goal with
    | Hs : noWorkspaceEntry ?s0 |- context [Cache.get ?a ?b ?k ?s0] =>
        pose proof (get_keeps_absent a b k "workspace:info" s0 Hs) as Hget;
        destruct (Cache.get a b k s0) as [[cached|] s1]
    end; [done|];
    simpl in Hget;
    destruct (Adapter.callTool _ _ _) as [result|message]; [|done];
    match goal with
    | |- context [Cache.set ?f ?a ?k ?v ?t ?s0] =>
        assert (Hset : noWorkspaceEntry (Cache.set f a k v t s0).2)
          by (apply set_keeps_absent; [|done]; unfold Resources.searchKey; done);
        by destruct (Cache.set f a k v t s0) as [[|] s2]
    end.
Qed.

Lemma call_keeps_absent (c : ServerCall) (s : Cache.CacheManager (Resources.Data R)) :
  noWorkspaceEntry s →
  noWorkspaceEntry (serverCall request dataOf resultId insertedId jsonPretty
            jsonStringifyLength kramdownOf notebooksLength parseInt numberToString
            typeErrorMessage c s).
Proof.
  intros Habsent. destruct c as [req clk iso u | tool args].
  - by apply read_keeps_absent.
  - unfold serverCall, Server.writeTools. cbn [JsMap.get].
    repeat (destruct (decide (_ = tool)) as [_|_]; [|]); try done.
    all: unfold Server.createDocument, Server.updateDocument, Server.deleteDocument,
      Server.insertBlock, Server.updateBlock, Server.deleteBlock, Server.moveBlock,
      Tools.createDocument, Tools.updateDocument, Tools.deleteDocument,
      Tools.insertBlock, Tools.updateBlock, Tools.deleteBlock, Tools.moveBlock.
    all: destruct (Adapter.callTool _ _ _) as [result|message]; [|done].
    all: cbn [snd]; by repeat apply delete_keeps_absent.
Qed.

(** X25: the workspace resource is never served.  After any sequence of
    resource reads and write-tool calls on a new server the cache holds no
    entry under [workspace:info], and a read of the workspace resource makes
    no HTTP request, answers with the plain text of
    [Unknown tool: siyuan_get_conf] and leaves the entries of the cache as
    they are: the name the handler passes to the adapter is one the adapter
    does not resolve. *)
Theorem workspace_resource_is_never_served (cfg : Cache.CacheConfig)
    (calls : list ServerCall) clk iso u :
  let s := serverAfter request dataOf resultId insertedId jsonPretty
             jsonStringifyLength kramdownOf notebooksLength parseInt numberToString
             typeErrorMessage cfg calls in
  let r := serverRead request dataOf jsonPretty jsonStringifyLength kramdownOf notebooksLength parseInt numberToString typeErrorMessage Resources.Workspace clk iso u s in
  noWorkspaceEntry s ∧
  r.1 = Resources.plain u "Error accessing workspace: Unknown tool: siyuan_get_conf" ∧
  Cache.cache r.2 = Cache.cache s.
Proof.
  intros s r.
  assert (Habsent : noWorkspaceEntry s).
  { unfold s, serverAfter.
    assert (Hnew : noWorkspaceEntry (Cache.new (V := Resources.Data R) cfg)) by done.
    revert Hnew. generalize (Cache.new (V := Resources.Data R) cfg).
    induction calls as [|c calls' IH]; intros s0 Hs0; [done|].
    simpl. by apply IH, call_keeps_absent. }
  split; [done|]. by apply workspace_read.
Qed.

End ServerFacts.

(** The update-block tool on a new cache, whatever the SiYuan server would
    have answered. *)
Lemma unresolved_write_tools_fail_witness :
  let args := {| Tools.notebook := "nb"; Tools.path := "/20240101-doc.sy";
                 Tools.markdown := "text"; Tools.documentId := "20240101-doc";
                 Tools.id := "20240101-blk"; Tools.dataType := "markdown";
                 Tools.data := "text"; Tools.parentID := "20240101-par";
                 Tools.previousID := None; Tools.name := "n" |} in
  let s : Cache.CacheManager Sample.Value := Cache.new Cache.DEFAULT_CACHE_CONFIG in
  ∃ what api,
    Adapter.getAPICallForTool api = None ∧
    Server.updateBlock (λ _ _, Resolved "{}") (λ body : string, Resolved body) args s =
      (Tools.failure what "update-block" ("Unknown tool: " +:+ api), s).
Proof.
  intros args s.
  apply (unresolved_write_tools_fail (λ _ _, Resolved "{}")
           (λ body : string, Resolved body) (λ _, None) (λ _, None) Sample.Value
           "update-block"); [|discriminate].
  unfold Server.writeTools. do 4 apply list_elem_of_further. apply list_elem_of_here.
Defined.
